(** * Group-order lifecycle and modification engine

    A shallow embedding of [OrderService.ts] (class [OrderServiceImpl]) and
    [OrderModificationService.ts] (class [OrderModificationServiceImpl]),
    with the properties of the order store, the item ledger, the summary
    recomputation, the permission window and the modification history.

    Conventions of the embedding:
    - a JavaScript [number] is a double. In the model a price, an amount,
      a quantity or a count is an integer of [Z]: on integers that stay
      within 2^53 in magnitude the doubles of the code add and multiply
      exactly. What is stated about a sum is stated with the additions in
      the order in which the code makes them. The one place where the
      specification regroups an expression, the price of an item, is
      treated in both arithmetics ([price_loop_with], [price_loop],
      [Double.price_loop]). A [Date] is its [getTime()] value, milliseconds
      as a [Z];
    - a JavaScript [Map] is an insertion-ordered association list
      ([JsMap.t]), because the code iterates over [entries()] and
      [values()];
    - an optional property is an [option]; JavaScript truthiness of an
      optional string or number is written out ([truthy_string],
      [truthy_number]);
    - [async] functions run to completion one at a time, so every method is
      a function from the service state to a result and a new state;
    - [new Date()] is the argument [now] of the method, [generateId()] its
      argument [newId]; [console.log] and the optional web-socket broadcast
      have no effect on the state and are left out. *)

From Stdlib Require Import ZArith List String Bool Lia Permutation Sorted.
From Stdlib Require Import Ascii DecimalString.
From Stdlib Require PrimFloat.
Import ListNotations.

Open Scope string_scope.
Open Scope list_scope.
Open Scope Z_scope.

Notation "a +++ b" := (String.append a b) (at level 60, right associativity).

(** ** JavaScript idioms *)

(** [s && ...] on an optional string: [undefined] and the empty string are
    falsy. *)
Definition truthy_string (s : option string) : bool :=
  match s with
  | Some v => negb (String.eqb v "")
  | None => false
  end.

(** [n && ...] on an optional number: [undefined] and [0] are falsy. *)
Definition truthy_number (n : option Z) : bool :=
  match n with
  | Some v => negb (v =? 0)
  | None => false
  end.

(** [a === b] on optional strings. *)
Definition option_string_eqb (a b : option string) : bool :=
  match a, b with
  | Some x, Some y => String.eqb x y
  | None, None => true
  | _, _ => false
  end.

(** [Array.prototype.find]. *)
Definition find {A} (f : A -> bool) (l : list A) : option A := List.find f l.

(** [Array.prototype.findIndex]: [None] stands for [-1]. *)
Fixpoint findIndex {A} (f : A -> bool) (l : list A) : option nat :=
  match l with
  | [] => None
  | x :: r => if f x then Some O else option_map S (findIndex f r)
  end.

(** [arr[i] = x] on a copy of the array, for an index inside it. *)
Fixpoint assign_index {A} (i : nat) (x : A) (l : list A) : list A :=
  match l, i with
  | [], _ => []
  | _ :: r, O => x :: r
  | y :: r, S j => y :: assign_index j x r
  end.

(** [arr.splice(i, 1)] on a copy of the array: the remaining elements. *)
Fixpoint splice_one {A} (i : nat) (l : list A) : list A :=
  match l, i with
  | [], _ => []
  | _ :: r, O => r
  | y :: r, S j => y :: splice_one j r
  end.

(** Template-literal rendering of an integer. *)
Definition show_number (z : Z) : string := NilEmpty.string_of_int (Z.to_int z).

(** ** Insertion-ordered maps with string keys *)

Module JsMap.

Definition t (V : Type) : Type := list (string * V).

Definition empty {V} : t V := [].

Fixpoint get {V} (k : string) (m : t V) : option V :=
  match m with
  | [] => None
  | (k', v) :: r => if String.eqb k k' then Some v else get k r
  end.

Definition has {V} (k : string) (m : t V) : bool :=
  match get k m with
  | Some _ => true
  | None => false
  end.

(** [set] keeps the position of a key that is present and appends a new
    key at the end. *)
Fixpoint set {V} (k : string) (v : V) (m : t V) : t V :=
  match m with
  | [] => [(k, v)]
  | (k', v') :: r =>
      if String.eqb k k' then (k, v) :: r else (k', v') :: set k v r
  end.

Definition delete {V} (k : string) (m : t V) : t V :=
  filter (fun e => negb (String.eqb k (fst e))) m.

Definition entries {V} (m : t V) : list (string * V) := m.
Definition keys {V} (m : t V) : list string := map fst m.
Definition values {V} (m : t V) : list V := map snd m.

End JsMap.

(** ** Data model

    [types/order.ts] is not among the sources: the records have the fields
    of the object literals the services build ([createGroupOrder],
    [joinOrder], [addOrderItem], [calculateOrderSummary]). Field names that
    two records share get a prefix. *)

Inductive OrderStatus : Type := active | closed | expired.

Definition OrderStatus_eqb (a b : OrderStatus) : bool :=
  match a, b with
  | active, active | closed, closed | expired, expired => true
  | _, _ => false
  end.

Definition show_status (s : OrderStatus) : string :=
  match s with
  | active => "active"
  | closed => "closed"
  | expired => "expired"
  end.

Record OrderItemCustomization : Type := {
  customizationName : string;
  priceModifier : Z
}.

Record OrderItem : Type := {
  itemId : string;
  menuItemId : string;
  menuItemName : string;
  basePrice : Z;
  quantity : Z;
  customizations : list OrderItemCustomization;
  totalPrice : Z;
  notes : option string
}.

Record OrderParticipant : Type := {
  participantId : string;
  userId : option string;
  guestSessionId : option string;
  nickname : string;
  items : list OrderItem;
  totalAmount : Z;
  joinedAt : Z;
  lastModifiedAt : Z
}.

Record OrderItemBreakdown : Type := {
  bd_menuItemId : string;
  bd_menuItemName : string;
  bd_totalQuantity : Z;
  bd_totalAmount : Z;
  bd_participants : list string
}.

Record OrderSummary : Type := {
  totalParticipants : Z;
  totalItems : Z;
  summaryTotalAmount : Z;
  itemBreakdown : list OrderItemBreakdown;
  lastUpdated : Z
}.

Record OrderSettings : Type := {
  allowModification : bool;
  maxParticipants : option Z;
  autoCloseOnDeadline : bool
}.

Record GroupOrder : Type := {
  orderId : string;
  orderCode : string;
  menuId : string;
  createdBy : string;
  title : string;
  description : option string;
  status : OrderStatus;
  deadline : option Z;
  createdAt : Z;
  updatedAt : Z;
  closedAt : option Z;
  participants : list OrderParticipant;
  summary : OrderSummary;
  settings : OrderSettings
}.

(** The menu catalogue, as [addOrderItem] reads it through
    [menuService.getMenuById]. *)
Record MenuItem : Type := {
  mi_id : string;
  mi_name : string;
  price : Z;
  isAvailable : bool
}.

Record Menu : Type := {
  menu_id : string;
  menu_items : list MenuItem
}.

(** [MenuService], the part the order service calls. The catalogue is an
    external collaborator: every call receives its current answers. *)
Record MenuService : Type := {
  getMenuById : string -> option Menu;
  canUserViewMenu : string -> string -> bool
}.

(** Modelled from the spec: the request types of [types/order.ts], which is
    not among the sources. The fields are those the services read and the
    specification names (an update carries a title, a description, a
    deadline and settings); an absent property is [None]. *)
Record PartialOrderSettings : Type := {
  p_allowModification : option bool;
  p_maxParticipants : option Z;
  p_autoCloseOnDeadline : option bool
}.

Record GroupOrderCreateRequest : Type := {
  create_menuId : string;
  create_title : string;
  create_description : option string;
  create_deadline : option Z;
  create_settings : option PartialOrderSettings
}.

Record GroupOrderUpdateRequest : Type := {
  update_title : option string;
  update_description : option string;
  update_deadline : option Z;
  update_settings : option PartialOrderSettings
}.

(** The request of [updateOrder] as the method meets it. The router hands
    over the body of the HTTP request (index.ts, 606-608) and [updateOrder]
    spreads every property of it over the order ([{...order, ...request}],
    205-207): besides the four declared properties the body can carry any
    other property of an order. [id], [orderCode], [createdBy], [createdAt]
    and [updatedAt] are written after the spread, so a request cannot set
    them and they are not listed. An absent property is [None]; the values
    are those the type of the order allows. *)
Record UpdateRequestBody : Type := {
  body_title : option string;
  body_description : option string;
  body_deadline : option Z;
  body_settings : option PartialOrderSettings;
  body_menuId : option string;
  body_status : option OrderStatus;
  body_closedAt : option Z;
  body_participants : option (list OrderParticipant);
  body_summary : option OrderSummary
}.

(** A request that carries the declared properties only. *)
Definition declared_body (request : GroupOrderUpdateRequest) : UpdateRequestBody :=
  {| body_title := update_title request;
     body_description := update_description request;
     body_deadline := update_deadline request;
     body_settings := update_settings request;
     body_menuId := None; body_status := None; body_closedAt := None;
     body_participants := None; body_summary := None |}.

(** The request carries neither [participants] nor [summary]. *)
Definition keeps_ledger (request : UpdateRequestBody) : Prop :=
  body_participants request = None /\ body_summary request = None.

(** [{...a, ...b}] on one property: the value of [b] when [b] has it. *)
Definition spread {A} (b : option A) (a : A) : A :=
  match b with
  | Some v => v
  | None => a
  end.

Definition spread_optional {A} (b : option A) (a : option A) : option A :=
  match b with
  | Some v => Some v
  | None => a
  end.

Record JoinOrderRequest : Type := {
  join_orderCode : string;
  join_nickname : string;
  join_userId : option string;
  join_guestSessionId : option string
}.

Record AddOrderItemRequest : Type := {
  add_menuItemId : string;
  add_quantity : Z;
  add_customizations : option (list OrderItemCustomization);
  add_notes : option string
}.

Record UpdateOrderItemRequest : Type := {
  upd_quantity : option Z;
  upd_customizations : option (list OrderItemCustomization);
  upd_notes : option string
}.

Record OrderValidationResult : Type := {
  isValid : bool;
  canJoin : bool;
  error : option string;
  order : option GroupOrder
}.

(** ** Modification records (OrderModificationService.ts) *)

Inductive ModificationType : Type :=
  | item_added
  | item_updated
  | item_removed
  | participant_joined
  | participant_left.

(** [oldValue] and [newValue] are typed [any]; the services store a
    participant or an item there. *)
Inductive ModificationValue : Type :=
  | ParticipantValue (p : OrderParticipant)
  | ItemValue (i : OrderItem).

Record ItemDetails : Type := {
  det_itemId : string;
  det_itemName : string;
  det_quantity : Z;
  det_price : Z
}.

(** [Omit<OrderModification, 'id' | 'timestamp'>]. *)
Record ModificationInput : Type := {
  in_orderId : string;
  in_participantId : string;
  in_participantNickname : string;
  in_type : ModificationType;
  in_description : string;
  in_oldValue : option ModificationValue;
  in_newValue : option ModificationValue;
  in_itemDetails : option ItemDetails
}.

Record OrderModification : Type := {
  mod_id : string;
  mod_orderId : string;
  mod_participantId : string;
  mod_participantNickname : string;
  mod_type : ModificationType;
  mod_timestamp : Z;
  mod_description : string;
  mod_oldValue : option ModificationValue;
  mod_newValue : option ModificationValue;
  mod_itemDetails : option ItemDetails
}.

Record ModificationPermissionCheck : Type := {
  canModify : bool;
  reason : option string;
  timeRemaining : option Z
}.

(** ** The participant service, as [joinOrder] calls it

    [OrderServiceImpl] takes an optional [ParticipantService]. Its identity
    table is its own; [joinOrder] only reads its two answers. *)
Record ParticipantIdentity : Type := {
  identityId : string;
  identityUserId : option string;
  identityGuestSessionId : option string
}.

Record ParticipantValidationResult : Type := {
  pv_isValid : bool;
  pv_canJoin : bool;
  pv_identity : option ParticipantIdentity;
  pv_error : option string
}.

Record ParticipantService : Type := {
  validateParticipantIdentity : JoinOrderRequest -> ParticipantValidationResult;
  canParticipantJoinOrder : Z -> string -> GroupOrder -> bool
}.

(** ** Service state

    [OrderServiceImpl.orders] and [orderCodeIndex], and the [modifications]
    of the [OrderModificationServiceImpl] the constructor creates. The
    constructor hands the same [orders] map to the modification service
    ([setOrdersReference]), so one field serves both. *)
Record ServiceState : Type := {
  orders : JsMap.t GroupOrder;
  orderCodeIndex : JsMap.t string;
  modifications : JsMap.t (list OrderModification)
}.

Definition initialState : ServiceState :=
  {| orders := JsMap.empty; orderCodeIndex := JsMap.empty;
     modifications := JsMap.empty |}.

Definition set_orders (s : ServiceState) (m : JsMap.t GroupOrder) : ServiceState :=
  {| orders := m; orderCodeIndex := orderCodeIndex s;
     modifications := modifications s |}.

Definition set_modifications (s : ServiceState)
    (m : JsMap.t (list OrderModification)) : ServiceState :=
  {| orders := orders s; orderCodeIndex := orderCodeIndex s;
     modifications := m |}.

(** A method that can [throw]. *)
Inductive Outcome (A : Type) : Type :=
  | Returned (a : A)
  | Thrown (message : string).
Arguments Returned {A} a.
Arguments Thrown {A} message.

(** Object spread [{...o, field: v}] for the fields the services replace. *)
Definition with_participants (o : GroupOrder) (ps : list OrderParticipant)
    (now : Z) : GroupOrder :=
  {| orderId := orderId o; orderCode := orderCode o; menuId := menuId o;
     createdBy := createdBy o; title := title o; description := description o;
     status := status o; deadline := deadline o; createdAt := createdAt o;
     updatedAt := now; closedAt := closedAt o; participants := ps;
     summary := summary o; settings := settings o |}.

Definition with_summary (o : GroupOrder) (sm : OrderSummary) (now : Z)
    : GroupOrder :=
  {| orderId := orderId o; orderCode := orderCode o; menuId := menuId o;
     createdBy := createdBy o; title := title o; description := description o;
     status := status o; deadline := deadline o; createdAt := createdAt o;
     updatedAt := now; closedAt := closedAt o; participants := participants o;
     summary := sm; settings := settings o |}.

Definition with_status (o : GroupOrder) (st : OrderStatus) (now : Z)
    : GroupOrder :=
  {| orderId := orderId o; orderCode := orderCode o; menuId := menuId o;
     createdBy := createdBy o; title := title o; description := description o;
     status := st; deadline := deadline o; createdAt := createdAt o;
     updatedAt := now; closedAt := Some now; participants := participants o;
     summary := summary o; settings := settings o |}.

Definition with_items (p : OrderParticipant) (its : list OrderItem)
    (total : Z) (now : Z) : OrderParticipant :=
  {| participantId := participantId p; userId := userId p;
     guestSessionId := guestSessionId p; nickname := nickname p;
     items := its; totalAmount := total; joinedAt := joinedAt p;
     lastModifiedAt := now |}.

(** [{...a, ...b}] on settings. *)
Definition merge_settings (a : OrderSettings) (b : option PartialOrderSettings)
    : OrderSettings :=
  match b with
  | None => a
  | Some b =>
      {| allowModification :=
           match p_allowModification b with Some v => v | None => allowModification a end;
         maxParticipants :=
           match p_maxParticipants b with Some v => Some v | None => maxParticipants a end;
         autoCloseOnDeadline :=
           match p_autoCloseOnDeadline b with Some v => v | None => autoCloseOnDeadline a end |}
  end.

(** ** OrderModificationServiceImpl *)

(** [checkModificationPermission] (OrderModificationService.ts, 83-147). *)
Definition checkModificationPermission (orderId_ participantId_ : string)
    (now : Z) (s : ServiceState) : ModificationPermissionCheck :=
  match JsMap.get orderId_ (orders s) with
  | None =>
      {| canModify := false; reason := Some "Order not found";
         timeRemaining := None |}
  | Some order_ =>
      if negb (OrderStatus_eqb (status order_) active) then
        {| canModify := false;
           reason := Some ("Order is " +++ show_status (status order_));
           timeRemaining := None |}
      else if negb (allowModification (settings order_)) then
        {| canModify := false; reason := Some "Order modifications are disabled";
           timeRemaining := None |}
      else
        match find (fun p => String.eqb (participantId p) participantId_)
                   (participants order_) with
        | None =>
            {| canModify := false; reason := Some "Participant not found in order";
               timeRemaining := None |}
        | Some _ =>
            match deadline order_ with
            | Some d =>
                let timeRemaining_ := Z.max 0 ((d - now) / (1000 * 60)) in
                if timeRemaining_ <=? 0 then
                  {| canModify := false; reason := Some "Order deadline has passed";
                     timeRemaining := None |}
                else if timeRemaining_ <=? 5 then
                  {| canModify := true; reason := Some "Limited time remaining";
                     timeRemaining := Some timeRemaining_ |}
                else
                  {| canModify := true; reason := None;
                     timeRemaining := Some timeRemaining_ |}
            | None =>
                {| canModify := true; reason := None; timeRemaining := None |}
            end
        end
  end.

(** [recordModification] (149-167): the record gets a fresh id and the
    current time and is pushed on the order's array. *)
Definition recordModification (m : ModificationInput) (now : Z) (newId : string)
    (s : ServiceState) : OrderModification * ServiceState :=
  let modificationRecord :=
    {| mod_id := newId; mod_orderId := in_orderId m;
       mod_participantId := in_participantId m;
       mod_participantNickname := in_participantNickname m;
       mod_type := in_type m; mod_timestamp := now;
       mod_description := in_description m;
       mod_oldValue := in_oldValue m; mod_newValue := in_newValue m;
       mod_itemDetails := in_itemDetails m |} in
  let orderModifications :=
    match JsMap.get (in_orderId m) (modifications s) with
    | Some l => l
    | None => []
    end in
  (modificationRecord,
   set_modifications s
     (JsMap.set (in_orderId m) (orderModifications ++ [modificationRecord])
        (modifications s))).

(** The comparator [(a, b) => b.timestamp.getTime() - a.timestamp.getTime()]. *)
Definition compare_newest_first (a b : OrderModification) : Z :=
  mod_timestamp b - mod_timestamp a.

(** [Array.prototype.sort] with that comparator. The sort is stable: an
    element stays in front of the later elements that compare equal to it. *)
Fixpoint sort_insert (x : OrderModification) (l : list OrderModification)
    : list OrderModification :=
  match l with
  | [] => [x]
  | y :: r =>
      if compare_newest_first x y <=? 0
      then x :: y :: r
      else y :: sort_insert x r
  end.

Definition sort_newest_first (l : list OrderModification)
    : list OrderModification :=
  fold_right sort_insert [] l.

(** [getOrderModificationHistory] (169-174). [sort] works in place, so the
    stored array is left sorted. *)
Definition getOrderModificationHistory (orderId_ : string) (s : ServiceState)
    : list OrderModification * ServiceState :=
  match JsMap.get orderId_ (modifications s) with
  | Some l =>
      let sorted := sort_newest_first l in
      (sorted, set_modifications s (JsMap.set orderId_ sorted (modifications s)))
  | None => ([], s)
  end.

(** [getParticipantModificationHistory] (176-187). *)
Definition getParticipantModificationHistory (participantId_ : string)
    (s : ServiceState) : list OrderModification :=
  let allModifications :=
    flat_map
      (fun l => filter (fun m => String.eqb (mod_participantId m) participantId_) l)
      (JsMap.values (modifications s)) in
  sort_newest_first allModifications.

(** [calculateOrderTotals] (189-244). The [participants] of an entry is a
    JavaScript [Set]: [add] keeps one copy of a value. *)
Record OrderTotalsBreakdown : Type := {
  tb_itemId : string;
  tb_itemName : string;
  tb_totalQuantity : Z;
  tb_totalAmount : Z;
  tb_participantCount : Z
}.

Record OrderTotalsEntry : Type := {
  te_itemId : string;
  te_itemName : string;
  te_totalQuantity : Z;
  te_totalAmount : Z;
  te_participantCount : Z;
  te_participants : list string
}.

Record OrderTotals : Type := {
  ot_totalParticipants : Z;
  ot_totalItems : Z;
  ot_totalAmount : Z;
  ot_itemBreakdown : list OrderTotalsBreakdown
}.

Definition Set_add (x : string) (l : list string) : list string :=
  if existsb (String.eqb x) l then l else l ++ [x].

Definition totals_item (p : OrderParticipant)
    (acc : Z * JsMap.t OrderTotalsEntry) (item : OrderItem)
    : Z * JsMap.t OrderTotalsEntry :=
  let '(totalItems_, itemBreakdownMap) := acc in
  let key := menuItemId item in
  match JsMap.get key itemBreakdownMap with
  | Some existing =>
      let participants_ := Set_add (participantId p) (te_participants existing) in
      (totalItems_ + quantity item,
       JsMap.set key
         {| te_itemId := te_itemId existing; te_itemName := te_itemName existing;
            te_totalQuantity := te_totalQuantity existing + quantity item;
            te_totalAmount := te_totalAmount existing + totalPrice item;
            te_participantCount := Z.of_nat (List.length participants_);
            te_participants := participants_ |}
         itemBreakdownMap)
  | None =>
      (totalItems_ + quantity item,
       JsMap.set key
         {| te_itemId := menuItemId item; te_itemName := menuItemName item;
            te_totalQuantity := quantity item;
            te_totalAmount := totalPrice item;
            te_participantCount := 1;
            te_participants := [participantId p] |}
         itemBreakdownMap)
  end.

Definition totals_participant (acc : Z * Z * JsMap.t OrderTotalsEntry)
    (p : OrderParticipant) : Z * Z * JsMap.t OrderTotalsEntry :=
  let '(totalItems_, totalAmount_, itemBreakdownMap) := acc in
  let '(totalItems', itemBreakdownMap') :=
    fold_left (totals_item p) (items p) (totalItems_, itemBreakdownMap) in
  (totalItems', totalAmount_ + totalAmount p, itemBreakdownMap').

(** [averagePerParticipant], a quotient of floating-point numbers, is left
    out of the result. *)
Definition calculateOrderTotals (order_ : GroupOrder) : OrderTotals :=
  let '(totalItems_, totalAmount_, itemBreakdownMap) :=
    fold_left totals_participant (participants order_) (0, 0, JsMap.empty) in
  {| ot_totalParticipants := Z.of_nat (List.length (participants order_));
     ot_totalItems := totalItems_;
     ot_totalAmount := totalAmount_;
     ot_itemBreakdown :=
       map (fun e =>
              {| tb_itemId := te_itemId e; tb_itemName := te_itemName e;
                 tb_totalQuantity := te_totalQuantity e;
                 tb_totalAmount := te_totalAmount e;
                 tb_participantCount := te_participantCount e |})
           (JsMap.values itemBreakdownMap) |}.

(** ** OrderServiceImpl: the summary *)

(** The inner loop of [calculateOrderSummary] (802-821). *)
Definition summary_item (p : OrderParticipant)
    (acc : Z * JsMap.t OrderItemBreakdown) (item : OrderItem)
    : Z * JsMap.t OrderItemBreakdown :=
  let '(totalItems_, itemBreakdownMap) := acc in
  let key := menuItemId item in
  match JsMap.get key itemBreakdownMap with
  | Some existing =>
      (totalItems_ + quantity item,
       JsMap.set key
         {| bd_menuItemId := bd_menuItemId existing;
            bd_menuItemName := bd_menuItemName existing;
            bd_totalQuantity := bd_totalQuantity existing + quantity item;
            bd_totalAmount := bd_totalAmount existing + totalPrice item;
            bd_participants := bd_participants existing ++ [nickname p] |}
         itemBreakdownMap)
  | None =>
      (totalItems_ + quantity item,
       JsMap.set key
         {| bd_menuItemId := menuItemId item;
            bd_menuItemName := menuItemName item;
            bd_totalQuantity := quantity item;
            bd_totalAmount := totalPrice item;
            bd_participants := [nickname p] |}
         itemBreakdownMap)
  end.

(** The outer loop (799-822). *)
Definition summary_participant (acc : Z * Z * JsMap.t OrderItemBreakdown)
    (p : OrderParticipant) : Z * Z * JsMap.t OrderItemBreakdown :=
  let '(totalItems_, totalAmount_, itemBreakdownMap) := acc in
  let '(totalItems', itemBreakdownMap') :=
    fold_left (summary_item p) (items p) (totalItems_, itemBreakdownMap) in
  (totalItems', totalAmount_ + totalAmount p, itemBreakdownMap').

Definition summarize (ps : list OrderParticipant) (now : Z) : OrderSummary :=
  let '(totalItems_, totalAmount_, itemBreakdownMap) :=
    fold_left summary_participant ps (0, 0, JsMap.empty) in
  {| totalParticipants := Z.of_nat (List.length ps);
     totalItems := totalItems_;
     summaryTotalAmount := totalAmount_;
     itemBreakdown := JsMap.values itemBreakdownMap;
     lastUpdated := now |}.

(** [calculateOrderSummary] (787-841): recompute and store. *)
Definition calculateOrderSummary (orderId_ : string) (now : Z)
    (s : ServiceState) : option OrderSummary * ServiceState :=
  match JsMap.get orderId_ (orders s) with
  | None => (None, s)
  | Some order_ =>
      let summary_ := summarize (participants order_) now in
      let updatedOrder := with_summary order_ summary_ now in
      (Some summary_, set_orders s (JsMap.set orderId_ updatedOrder (orders s)))
  end.

(** ** OrderServiceImpl: lifecycle *)

(** [createGroupOrder] (130-183). [newCode] is the code [generateOrderCode]
    returns. [DEFAULT_ORDER_SETTINGS] is declared in [types/order.ts] and
    passed in. *)
Definition createGroupOrder (menuService : MenuService)
    (DEFAULT_ORDER_SETTINGS : OrderSettings)
    (userId_ : string) (request : GroupOrderCreateRequest)
    (now : Z) (newId newCode : string) (s : ServiceState)
    : Outcome GroupOrder * ServiceState :=
  match getMenuById menuService (create_menuId request) with
  | None => (Thrown "Menu not found", s)
  | Some _ =>
      if negb (canUserViewMenu menuService (create_menuId request) userId_) then
        (Thrown "Permission denied: Cannot create order for private menu", s)
      else
        let order_ :=
          {| orderId := newId; orderCode := newCode;
             menuId := create_menuId request; createdBy := userId_;
             title := create_title request;
             description := create_description request;
             status := active; deadline := create_deadline request;
             createdAt := now; updatedAt := now; closedAt := None;
             participants := [];
             summary :=
               {| totalParticipants := 0; totalItems := 0;
                  summaryTotalAmount := 0; itemBreakdown := [];
                  lastUpdated := now |};
             settings :=
               merge_settings DEFAULT_ORDER_SETTINGS (create_settings request) |} in
        (Returned order_,
         {| orders := JsMap.set newId order_ (orders s);
            orderCodeIndex := JsMap.set newCode newId (orderCodeIndex s);
            modifications := modifications s |})
  end.

(** [updateOrder] (194-228). The request is spread over the order; the
    five properties written after the spread and the merged settings
    follow (205-217). *)
Definition updateOrder (orderId_ userId_ : string)
    (request : UpdateRequestBody) (now : Z) (s : ServiceState)
    : option GroupOrder * ServiceState :=
  match JsMap.get orderId_ (orders s) with
  | None => (None, s)
  | Some order_ =>
      if negb (String.eqb (createdBy order_) userId_) then (None, s)
      else if negb (OrderStatus_eqb (status order_) active) then (None, s)
      else
        let updatedOrder :=
          {| orderId := orderId_; orderCode := orderCode order_;
             menuId := spread (body_menuId request) (menuId order_);
             createdBy := createdBy order_;
             title := spread (body_title request) (title order_);
             description :=
               spread_optional (body_description request) (description order_);
             status := spread (body_status request) (status order_);
             deadline := spread_optional (body_deadline request) (deadline order_);
             createdAt := createdAt order_; updatedAt := now;
             closedAt := spread_optional (body_closedAt request) (closedAt order_);
             participants :=
               spread (body_participants request) (participants order_);
             summary := spread (body_summary request) (summary order_);
             settings := merge_settings (settings order_) (body_settings request) |} in
        (Some updatedOrder,
         set_orders s (JsMap.set orderId_ updatedOrder (orders s)))
  end.

(** [closeOrder] (230-258). *)
Definition closeOrder (orderId_ userId_ : string) (now : Z) (s : ServiceState)
    : bool * ServiceState :=
  match JsMap.get orderId_ (orders s) with
  | None => (false, s)
  | Some order_ =>
      if negb (String.eqb (createdBy order_) userId_) then (false, s)
      else if negb (OrderStatus_eqb (status order_) active) then (false, s)
      else
        (true,
         set_orders s (JsMap.set orderId_ (with_status order_ closed now) (orders s)))
  end.

(** [deleteOrder] (260-270). *)
Definition deleteOrder (orderId_ userId_ : string) (s : ServiceState)
    : bool * ServiceState :=
  match JsMap.get orderId_ (orders s) with
  | None => (false, s)
  | Some order_ =>
      if negb (String.eqb (createdBy order_) userId_) then (false, s)
      else
        (true,
         {| orders := JsMap.delete orderId_ (orders s);
            orderCodeIndex := JsMap.delete (orderCode order_) (orderCodeIndex s);
            modifications := modifications s |})
  end.

(** [expireOrder] (272-295). *)
Definition expireOrder (orderId_ : string) (now : Z) (s : ServiceState)
    : bool * ServiceState :=
  match JsMap.get orderId_ (orders s) with
  | None => (false, s)
  | Some order_ =>
      if negb (OrderStatus_eqb (status order_) active) then (false, s)
      else
        (true,
         set_orders s (JsMap.set orderId_ (with_status order_ expired now) (orders s)))
  end.

(** [order.deadline && order.deadline <= now]. *)
Definition deadline_reached (order_ : GroupOrder) (now : Z) : bool :=
  match deadline order_ with
  | Some d => d <=? now
  | None => false
  end.

(** [checkAndExpireOrders] (297-317). The loop visits the entries of
    [orders]; [expireOrder] replaces the value under the visited key only,
    so the entries still to be visited are those of the map at the start. *)
Definition sweep_entry (now : Z) (acc : list string * ServiceState)
    (e : string * GroupOrder) : list string * ServiceState :=
  let '(expiredOrderIds, s) := acc in
  let '(orderId_, order_) := e in
  if OrderStatus_eqb (status order_) active
     && deadline_reached order_ now
     && autoCloseOnDeadline (settings order_)
  then (expiredOrderIds ++ [orderId_], snd (expireOrder orderId_ now s))
  else (expiredOrderIds, s).

Definition checkAndExpireOrders (now : Z) (s : ServiceState)
    : list string * ServiceState :=
  fold_left (sweep_entry now) (JsMap.entries (orders s)) ([], s).

(** ** OrderServiceImpl: participants *)

(** [validateOrderCode] (914-957). *)
Definition validateOrderCode (orderCode_ : string) (now : Z) (s : ServiceState)
    : OrderValidationResult :=
  let orderId_ := JsMap.get orderCode_ (orderCodeIndex s) in
  match orderId_ with
  | Some oid =>
      if negb (truthy_string orderId_) then
        {| isValid := false; canJoin := false;
           error := Some "Invalid order code"; order := None |}
      else
        match JsMap.get oid (orders s) with
        | None =>
            {| isValid := false; canJoin := false;
               error := Some "Order not found"; order := None |}
        | Some order_ =>
            if negb (OrderStatus_eqb (status order_) active) then
              {| isValid := true; canJoin := false;
                 error := Some ("Order is " +++ show_status (status order_));
                 order := Some order_ |}
            else if deadline_reached order_ now then
              {| isValid := true; canJoin := false;
                 error := Some "Order deadline has passed";
                 order := Some order_ |}
            else
              {| isValid := true; canJoin := true; error := None;
                 order := Some order_ |}
        end
  | None =>
      {| isValid := false; canJoin := false;
         error := Some "Invalid order code"; order := None |}
  end.

(** The check [joinOrder] makes when a participant service is wired in
    (328-349): [Some r] is the rejection it returns. *)
Definition participantService_check (participantService : option ParticipantService)
    (request : JoinOrderRequest) (now : Z) (order_ : GroupOrder)
    : option OrderValidationResult :=
  match participantService with
  | None => None
  | Some ps =>
      let identityValidation := validateParticipantIdentity ps request in
      if negb (pv_isValid identityValidation) || negb (pv_canJoin identityValidation)
      then
        Some {| isValid := false; canJoin := false;
                error :=
                  Some (if truthy_string (pv_error identityValidation)
                        then match pv_error identityValidation with
                             | Some e => e
                             | None => "Cannot join order"
                             end
                        else "Cannot join order");
                order := None |}
      else
        match pv_identity identityValidation with
        | Some identity_ =>
            if negb (canParticipantJoinOrder ps now (identityId identity_) order_)
            then
              Some {| isValid := false; canJoin := false;
                      error := Some "Cannot join this order"; order := None |}
            else None
        | None => None
        end
  end.

(** The predicate of [order.participants.find] in [joinOrder] (352-356). *)
Definition already_joined (request : JoinOrderRequest) (p : OrderParticipant)
    : bool :=
  (truthy_string (join_userId request)
     && option_string_eqb (userId p) (join_userId request))
  || (truthy_string (join_guestSessionId request)
        && option_string_eqb (guestSessionId p) (join_guestSessionId request))
  || String.eqb (nickname p) (join_nickname request).

(** [order.settings.maxParticipants && participants.length >= maxParticipants]
    (367-368). *)
Definition capacity_reached (order_ : GroupOrder) : bool :=
  match maxParticipants (settings order_) with
  | Some m =>
      truthy_number (Some m) && (m <=? Z.of_nat (List.length (participants order_)))
  | None => false
  end.

(** The participant [joinOrder] creates (380-389). *)
Definition joined_participant (request : JoinOrderRequest) (now : Z)
    (newParticipantId : string) : OrderParticipant :=
  {| participantId := newParticipantId; userId := join_userId request;
     guestSessionId := join_guestSessionId request;
     nickname := join_nickname request;
     items := []; totalAmount := 0; joinedAt := now; lastModifiedAt := now |}.

(** [joinOrder] after the guard on the validation (327-431), for the order
    the validation carries. [newParticipantId] and [newModificationId] are
    the two generated ids. [participantService.updateParticipantActivity]
    touches the identity table of the participant service only and is left
    out. *)
Definition joinOrder_validated (participantService : option ParticipantService)
    (request : JoinOrderRequest) (now : Z)
    (newParticipantId newModificationId : string) (order_ : GroupOrder)
    (s : ServiceState) : OrderValidationResult * ServiceState :=
  match participantService_check participantService request now order_ with
  | Some rejection => (rejection, s)
  | None =>
      match find (already_joined request) (participants order_) with
      | Some _ =>
          ({| isValid := false; canJoin := false;
              error := Some "Already joined this order or nickname already taken";
              order := None |}, s)
      | None =>
          if capacity_reached order_ then
            ({| isValid := false; canJoin := false;
                error := Some "Order has reached maximum participants";
                order := None |}, s)
          else
            let participant := joined_participant request now newParticipantId in
            let updatedOrder :=
              with_participants order_ (participants order_ ++ [participant]) now in
            let s1 :=
              set_orders s (JsMap.set (orderId order_) updatedOrder (orders s)) in
            let s2 := snd (calculateOrderSummary (orderId order_) now s1) in
            let s3 :=
              snd (recordModification
                     {| in_orderId := orderId order_;
                        in_participantId := newParticipantId;
                        in_participantNickname := join_nickname request;
                        in_type := participant_joined;
                        in_description :=
                          join_nickname request +++ " joined the order";
                        in_oldValue := None;
                        in_newValue := Some (ParticipantValue participant);
                        in_itemDetails := None |}
                     now newModificationId s2) in
            ({| isValid := true; canJoin := true; error := None;
                order := Some updatedOrder |}, s3)
      end
  end.

(** [joinOrder] (319-431): the guard
    [if (!validation.isValid || !validation.order) return validation]
    and then the body above. *)
Definition joinOrder (participantService : option ParticipantService)
    (request : JoinOrderRequest) (now : Z)
    (newParticipantId newModificationId : string) (s : ServiceState)
    : OrderValidationResult * ServiceState :=
  let validation := validateOrderCode (join_orderCode request) now s in
  match order validation with
  | Some order_ =>
      if negb (isValid validation) then (validation, s)
      else
        joinOrder_validated participantService request now
          newParticipantId newModificationId order_ s
  | None => (validation, s)
  end.

(** [leaveOrder] (433-478). *)
Definition leaveOrder (orderId_ participantId_ : string) (now : Z)
    (newModificationId : string) (s : ServiceState) : bool * ServiceState :=
  match JsMap.get orderId_ (orders s) with
  | None => (false, s)
  | Some order_ =>
      match findIndex (fun p => String.eqb (participantId p) participantId_)
                      (participants order_) with
      | None => (false, s)
      | Some participantIndex =>
          match nth_error (participants order_) participantIndex with
          | None => (false, s)
          | Some removedParticipant =>
              let updatedParticipants :=
                splice_one participantIndex (participants order_) in
              let updatedOrder := with_participants order_ updatedParticipants now in
              let s1 := set_orders s (JsMap.set orderId_ updatedOrder (orders s)) in
              let s2 := snd (calculateOrderSummary orderId_ now s1) in
              let s3 :=
                snd (recordModification
                       {| in_orderId := orderId_;
                          in_participantId := participantId_;
                          in_participantNickname := nickname removedParticipant;
                          in_type := participant_left;
                          in_description :=
                            nickname removedParticipant +++ " left the order";
                          in_oldValue := Some (ParticipantValue removedParticipant);
                          in_newValue := None;
                          in_itemDetails := None |}
                       now newModificationId s2) in
              (true, s3)
          end
      end
  end.

(** ** OrderServiceImpl: the item ledger *)

(** The price loop of [addOrderItem] (514-520) and [updateOrderItem]
    (595-600), over numbers [N] with the addition [add] and the
    multiplication [mul]: start from [price * quantity] and add
    [priceModifier * quantity] for each customization, in the order of the
    array. *)
Definition price_loop_with {N : Type} (add mul : N -> N -> N)
    (unitPrice quantity_ : N) (modifiers : list N) : N :=
  fold_left (fun totalPrice_ modifier => add totalPrice_ (mul modifier quantity_))
            modifiers (mul unitPrice quantity_).

(** The price the specification gives an item, over the same numbers:
    (basePrice + sum of the customization modifiers) x quantity. *)
Definition specified_price_with {N : Type} (add mul : N -> N -> N) (zero : N)
    (unitPrice quantity_ : N) (modifiers : list N) : N :=
  mul (add unitPrice (fold_left add modifiers zero)) quantity_.

(** The price loop on the integers of the model. *)
Definition price_loop (unitPrice quantity_ : Z)
    (cs : list OrderItemCustomization) : Z :=
  price_loop_with Z.add Z.mul unitPrice quantity_ (map priceModifier cs).

(** The price loop and the price of the specification on doubles, the
    numbers of the code, and a price list with fractions: 2.5 for the item,
    0.3 for its one customization, three units. *)
Module Double.
Import PrimFloat.

Definition price_loop : float -> float -> list float -> float :=
  price_loop_with PrimFloat.add PrimFloat.mul.

Definition specified_price : float -> float -> list float -> float :=
  specified_price_with PrimFloat.add PrimFloat.mul 0%float.

Definition ex_price : float := 0x1.4p+1%float.
Definition ex_modifier : float := 0x1.3333333333333p-2%float.
Definition ex_quantity : float := 0x1.8p+1%float.

(** 8.4 and 8.399999999999999, the doubles next to each other. *)
Definition ex_looped : float := 0x1.0cccccccccccdp+3%float.
Definition ex_specified : float := 0x1.0ccccccccccccp+3%float.

End Double.

(** [items.reduce((sum, item) => sum + item.totalPrice, 0)]. *)
Definition reduce_totalPrice (its : list OrderItem) : Z :=
  fold_left (fun sum item => sum + totalPrice item) its 0.

(** [addOrderItem] (485-568). *)
Definition addOrderItem (menuService : MenuService)
    (orderId_ participantId_ : string) (request : AddOrderItemRequest)
    (now : Z) (newId : string) (s : ServiceState)
    : option OrderItem * ServiceState :=
  match JsMap.get orderId_ (orders s) with
  | None => (None, s)
  | Some order_ =>
      if negb (OrderStatus_eqb (status order_) active) then (None, s)
      else if negb (allowModification (settings order_)) then (None, s)
      else
        match findIndex (fun p => String.eqb (participantId p) participantId_)
                        (participants order_) with
        | None => (None, s)
        | Some participantIndex =>
            match getMenuById menuService (menuId order_) with
            | None => (None, s)
            | Some menu =>
                match find (fun item => String.eqb (mi_id item) (add_menuItemId request))
                           (menu_items menu) with
                | None => (None, s)
                | Some menuItem =>
                    if negb (isAvailable menuItem) then (None, s)
                    else
                      let totalPrice_ :=
                        match add_customizations request with
                        | Some cs => price_loop (price menuItem) (add_quantity request) cs
                        | None => price menuItem * add_quantity request
                        end in
                      let orderItem :=
                        {| itemId := newId;
                           menuItemId := add_menuItemId request;
                           menuItemName := mi_name menuItem;
                           basePrice := price menuItem;
                           quantity := add_quantity request;
                           customizations :=
                             match add_customizations request with
                             | Some cs => cs
                             | None => []
                             end;
                           totalPrice := totalPrice_;
                           notes := add_notes request |} in
                      match nth_error (participants order_) participantIndex with
                      | None => (None, s)
                      | Some participant =>
                          let updatedParticipant :=
                            with_items participant (items participant ++ [orderItem])
                                       (totalAmount participant + totalPrice_) now in
                          let updatedParticipants :=
                            assign_index participantIndex updatedParticipant
                                         (participants order_) in
                          let updatedOrder :=
                            with_participants order_ updatedParticipants now in
                          let s1 :=
                            set_orders s (JsMap.set orderId_ updatedOrder (orders s)) in
                          let s2 := snd (calculateOrderSummary orderId_ now s1) in
                          (Some orderItem, s2)
                      end
                end
            end
        end
  end.

(** [updateOrderItem] (570-648). *)
Definition updateOrderItem (orderId_ participantId_ itemId_ : string)
    (request : UpdateOrderItemRequest) (now : Z) (s : ServiceState)
    : option OrderItem * ServiceState :=
  match JsMap.get orderId_ (orders s) with
  | None => (None, s)
  | Some order_ =>
      if negb (OrderStatus_eqb (status order_) active) then (None, s)
      else if negb (allowModification (settings order_)) then (None, s)
      else
        match findIndex (fun p => String.eqb (participantId p) participantId_)
                        (participants order_) with
        | None => (None, s)
        | Some participantIndex =>
            match nth_error (participants order_) participantIndex with
            | None => (None, s)
            | Some participant =>
                match findIndex (fun item => String.eqb (itemId item) itemId_)
                                (items participant) with
                | None => (None, s)
                | Some itemIndex =>
                    match nth_error (items participant) itemIndex with
                    | None => (None, s)
                    | Some existingItem =>
                        let quantity_ :=
                          match upd_quantity request with
                          | Some q => q
                          | None => quantity existingItem
                          end in
                        let customizations_ :=
                          match upd_customizations request with
                          | Some cs => cs
                          | None => customizations existingItem
                          end in
                        let totalPrice_ :=
                          price_loop (basePrice existingItem) quantity_ customizations_ in
                        let updatedItem :=
                          {| itemId := itemId existingItem;
                             menuItemId := menuItemId existingItem;
                             menuItemName := menuItemName existingItem;
                             basePrice := basePrice existingItem;
                             quantity := quantity_;
                             customizations := customizations_;
                             totalPrice := totalPrice_;
                             notes :=
                               match upd_notes request with
                               | Some n => Some n
                               | None => notes existingItem
                               end |} in
                        let updatedItems :=
                          assign_index itemIndex updatedItem (items participant) in
                        let newTotalAmount := reduce_totalPrice updatedItems in
                        let updatedParticipant :=
                          with_items participant updatedItems newTotalAmount now in
                        let updatedParticipants :=
                          assign_index participantIndex updatedParticipant
                                       (participants order_) in
                        let updatedOrder :=
                          with_participants order_ updatedParticipants now in
                        let s1 :=
                          set_orders s (JsMap.set orderId_ updatedOrder (orders s)) in
                        let s2 := snd (calculateOrderSummary orderId_ now s1) in
                        (Some updatedItem, s2)
                    end
                end
            end
        end
  end.

(** [removeOrderItem] (650-709). *)
Definition removeOrderItem (orderId_ participantId_ itemId_ : string)
    (now : Z) (s : ServiceState) : bool * ServiceState :=
  match JsMap.get orderId_ (orders s) with
  | None => (false, s)
  | Some order_ =>
      if negb (OrderStatus_eqb (status order_) active) then (false, s)
      else if negb (allowModification (settings order_)) then (false, s)
      else
        match findIndex (fun p => String.eqb (participantId p) participantId_)
                        (participants order_) with
        | None => (false, s)
        | Some participantIndex =>
            match nth_error (participants order_) participantIndex with
            | None => (false, s)
            | Some participant =>
                match findIndex (fun item => String.eqb (itemId item) itemId_)
                                (items participant) with
                | None => (false, s)
                | Some itemIndex =>
                    let updatedItems := splice_one itemIndex (items participant) in
                    let newTotalAmount := reduce_totalPrice updatedItems in
                    let updatedParticipant :=
                      with_items participant updatedItems newTotalAmount now in
                    let updatedParticipants :=
                      assign_index participantIndex updatedParticipant
                                   (participants order_) in
                    let updatedOrder :=
                      with_participants order_ updatedParticipants now in
                    let s1 :=
                      set_orders s (JsMap.set orderId_ updatedOrder (orders s)) in
                    let s2 := snd (calculateOrderSummary orderId_ now s1) in
                    (true, s2)
                end
            end
        end
  end.

(** ** OrderServiceImpl: history-tracked item operations *)

(** [permission.reason || 'Cannot modify order']. *)
Definition rejection_message (permission : ModificationPermissionCheck) : string :=
  if truthy_string (reason permission)
  then match reason permission with
       | Some r => r
       | None => "Cannot modify order"
       end
  else "Cannot modify order".

Definition find_participant (orderId_ participantId_ : string) (s : ServiceState)
    : option OrderParticipant :=
  match JsMap.get orderId_ (orders s) with
  | Some order_ =>
      find (fun p => String.eqb (participantId p) participantId_) (participants order_)
  | None => None
  end.

Definition details_of (item : OrderItem) : ItemDetails :=
  {| det_itemId := itemId item; det_itemName := menuItemName item;
     det_quantity := quantity item; det_price := totalPrice item |}.

(** [addOrderItemWithHistory] (1360-1394). *)
Definition addOrderItemWithHistory (menuService : MenuService)
    (orderId_ participantId_ : string) (request : AddOrderItemRequest)
    (now : Z) (newId newModificationId : string) (s : ServiceState)
    : Outcome (option OrderItem) * ServiceState :=
  let permission := checkModificationPermission orderId_ participantId_ now s in
  if negb (canModify permission) then (Thrown (rejection_message permission), s)
  else
    let '(item, s1) :=
      addOrderItem menuService orderId_ participantId_ request now newId s in
    match item with
    | Some item_ =>
        match find_participant orderId_ participantId_ s1 with
        | Some participant =>
            let s2 :=
              snd (recordModification
                     {| in_orderId := orderId_;
                        in_participantId := participantId_;
                        in_participantNickname := nickname participant;
                        in_type := item_added;
                        in_description :=
                          "Added " +++ show_number (quantity item_) +++ "x "
                            +++ menuItemName item_;
                        in_oldValue := None;
                        in_newValue := Some (ItemValue item_);
                        in_itemDetails := Some (details_of item_) |}
                     now newModificationId s1) in
            (Returned item, s2)
        | None => (Returned item, s1)
        end
    | None => (Returned item, s1)
    end.

(** [updateOrderItemWithHistory] (1396-1431). *)
Definition updateOrderItemWithHistory
    (orderId_ participantId_ itemId_ : string) (request : UpdateOrderItemRequest)
    (now : Z) (newModificationId : string) (s : ServiceState)
    : Outcome (option OrderItem) * ServiceState :=
  let permission := checkModificationPermission orderId_ participantId_ now s in
  if negb (canModify permission) then (Thrown (rejection_message permission), s)
  else
    let participant := find_participant orderId_ participantId_ s in
    let oldItem :=
      match participant with
      | Some p => find (fun item => String.eqb (itemId item) itemId_) (items p)
      | None => None
      end in
    let '(updatedItem, s1) :=
      updateOrderItem orderId_ participantId_ itemId_ request now s in
    match updatedItem, oldItem, participant with
    | Some updatedItem_, Some oldItem_, Some participant_ =>
        let s2 :=
          snd (recordModification
                 {| in_orderId := orderId_;
                    in_participantId := participantId_;
                    in_participantNickname := nickname participant_;
                    in_type := item_updated;
                    in_description :=
                      "Updated " +++ menuItemName updatedItem_ +++ ": "
                        +++ show_number (quantity oldItem_) +++ " → "
                        +++ show_number (quantity updatedItem_);
                    in_oldValue := Some (ItemValue oldItem_);
                    in_newValue := Some (ItemValue updatedItem_);
                    in_itemDetails := Some (details_of updatedItem_) |}
                 now newModificationId s1) in
        (Returned updatedItem, s2)
    | _, _, _ => (Returned updatedItem, s1)
    end.

(** [removeOrderItemWithHistory] (1433-1467). *)
Definition removeOrderItemWithHistory
    (orderId_ participantId_ itemId_ : string)
    (now : Z) (newModificationId : string) (s : ServiceState)
    : Outcome bool * ServiceState :=
  let permission := checkModificationPermission orderId_ participantId_ now s in
  if negb (canModify permission) then (Thrown (rejection_message permission), s)
  else
    let participant := find_participant orderId_ participantId_ s in
    let itemToRemove :=
      match participant with
      | Some p => find (fun item => String.eqb (itemId item) itemId_) (items p)
      | None => None
      end in
    let '(success, s1) := removeOrderItem orderId_ participantId_ itemId_ now s in
    match success, itemToRemove, participant with
    | true, Some itemToRemove_, Some participant_ =>
        let s2 :=
          snd (recordModification
                 {| in_orderId := orderId_;
                    in_participantId := participantId_;
                    in_participantNickname := nickname participant_;
                    in_type := item_removed;
                    in_description :=
                      "Removed " +++ show_number (quantity itemToRemove_) +++ "x "
                        +++ menuItemName itemToRemove_;
                    in_oldValue := Some (ItemValue itemToRemove_);
                    in_newValue := None;
                    in_itemDetails := Some (details_of itemToRemove_) |}
                 now newModificationId s1) in
        (Returned success, s2)
    | _, _, _ => (Returned success, s1)
    end.

(** ** ParticipantServiceImpl.canParticipantJoinOrder

    The check the participant service makes on [joinOrder]'s behalf
    (services/ParticipantService.ts, [canParticipantJoinOrder]);
    [identities] is the service's own table. *)
Definition ParticipantServiceImpl_canParticipantJoinOrder
    (identities : JsMap.t ParticipantIdentity)
    (now : Z) (participantId_ : string) (order_ : GroupOrder) : bool :=
  match JsMap.get participantId_ identities with
  | None => false
  | Some identity_ =>
      if negb (OrderStatus_eqb (status order_) active) then false
      else if deadline_reached order_ now then false
      else if capacity_reached order_ then false
      else
        negb (existsb
                (fun p =>
                   String.eqb (participantId p) participantId_
                   || (truthy_string (identityUserId identity_)
                         && option_string_eqb (userId p) (identityUserId identity_))
                   || (truthy_string (identityGuestSessionId identity_)
                         && option_string_eqb (guestSessionId p)
                              (identityGuestSessionId identity_)))
                (participants order_))
  end.

(** ** Sequences of calls

    Every method that changes the state, with its arguments. [run] applies
    the calls one after the other. [UpdateOrder] is [updateOrder] with a
    request of the declared type, which carries the four declared
    properties and no other. *)
Inductive Operation : Type :=
  | CreateGroupOrder (menuService : MenuService) (defaults : OrderSettings)
      (userId_ : string) (request : GroupOrderCreateRequest)
      (now : Z) (newId newCode : string)
  | UpdateOrder (orderId_ userId_ : string) (request : GroupOrderUpdateRequest) (now : Z)
  | CloseOrder (orderId_ userId_ : string) (now : Z)
  | DeleteOrder (orderId_ userId_ : string)
  | ExpireOrder (orderId_ : string) (now : Z)
  | CheckAndExpireOrders (now : Z)
  | JoinOrder (request : JoinOrderRequest) (now : Z)
      (newParticipantId newModificationId : string)
  | LeaveOrder (orderId_ participantId_ : string) (now : Z) (newModificationId : string)
  | AddOrderItem (menuService : MenuService) (orderId_ participantId_ : string)
      (request : AddOrderItemRequest) (now : Z) (newId : string)
  | UpdateOrderItem (orderId_ participantId_ itemId_ : string)
      (request : UpdateOrderItemRequest) (now : Z)
  | RemoveOrderItem (orderId_ participantId_ itemId_ : string) (now : Z)
  | AddOrderItemWithHistory (menuService : MenuService)
      (orderId_ participantId_ : string) (request : AddOrderItemRequest)
      (now : Z) (newId newModificationId : string)
  | UpdateOrderItemWithHistory (orderId_ participantId_ itemId_ : string)
      (request : UpdateOrderItemRequest) (now : Z) (newModificationId : string)
  | RemoveOrderItemWithHistory (orderId_ participantId_ itemId_ : string)
      (now : Z) (newModificationId : string)
  | CalculateOrderSummary (orderId_ : string) (now : Z)
  | GetOrderModificationHistory (orderId_ : string).

Definition run_operation (participantService : option ParticipantService)
    (op : Operation) (s : ServiceState) : ServiceState :=
  match op with
  | CreateGroupOrder ms defaults u r now newId newCode =>
      snd (createGroupOrder ms defaults u r now newId newCode s)
  | UpdateOrder o u r now => snd (updateOrder o u (declared_body r) now s)
  | CloseOrder o u now => snd (closeOrder o u now s)
  | DeleteOrder o u => snd (deleteOrder o u s)
  | ExpireOrder o now => snd (expireOrder o now s)
  | CheckAndExpireOrders now => snd (checkAndExpireOrders now s)
  | JoinOrder r now pid mid => snd (joinOrder participantService r now pid mid s)
  | LeaveOrder o p now mid => snd (leaveOrder o p now mid s)
  | AddOrderItem ms o p r now newId => snd (addOrderItem ms o p r now newId s)
  | UpdateOrderItem o p i r now => snd (updateOrderItem o p i r now s)
  | RemoveOrderItem o p i now => snd (removeOrderItem o p i now s)
  | AddOrderItemWithHistory ms o p r now newId mid =>
      snd (addOrderItemWithHistory ms o p r now newId mid s)
  | UpdateOrderItemWithHistory o p i r now mid =>
      snd (updateOrderItemWithHistory o p i r now mid s)
  | RemoveOrderItemWithHistory o p i now mid =>
      snd (removeOrderItemWithHistory o p i now mid s)
  | CalculateOrderSummary o now => snd (calculateOrderSummary o now s)
  | GetOrderModificationHistory o => snd (getOrderModificationHistory o s)
  end.

Definition run (participantService : option ParticipantService)
    (ops : list Operation) (s : ServiceState) : ServiceState :=
  fold_left (fun st op => run_operation participantService op st) ops s.


(** ** Stated properties *)

(** The sum of [f] over a list. *)
Definition sum_of {A} (f : A -> Z) (l : list A) : Z :=
  fold_right (fun x acc => f x + acc) 0 l.

(** A participant's [totalAmount] is the sum of the [totalPrice] of the
    participant's items. *)
Definition participant_consistent (p : OrderParticipant) : Prop :=
  totalAmount p = sum_of totalPrice (items p).

(** An order's [summary.totalAmount] is the sum of the participants'
    [totalAmount], and every participant is consistent. *)
Definition order_consistent (o : GroupOrder) : Prop :=
  summaryTotalAmount (summary o) = sum_of totalAmount (participants o)
  /\ Forall participant_consistent (participants o).

(** Every order of the store is consistent. *)
Definition store_consistent (s : ServiceState) : Prop :=
  Forall (fun e => order_consistent (snd e)) (orders s).

(** Every order is stored under its own id. *)
Definition well_keyed (s : ServiceState) : Prop :=
  Forall (fun e => orderId (snd e) = fst e) (orders s).

(** ** A concrete catalogue and order, for the examples *)

Definition ex_menuService : MenuService :=
  {| getMenuById :=
       fun m =>
         if String.eqb m "menu-1" then
           Some {| menu_id := "menu-1";
                   menu_items :=
                     [ {| mi_id := "X"; mi_name := "Tea"; price := 50;
                          isAvailable := true |};
                       {| mi_id := "Y"; mi_name := "Cake"; price := 30;
                          isAvailable := true |};
                       {| mi_id := "W"; mi_name := "Soup"; price := 40;
                          isAvailable := false |} ] |}
         else None;
     canUserViewMenu := fun _ _ => true |}.

Definition ex_defaults : OrderSettings :=
  {| allowModification := true; maxParticipants := None;
     autoCloseOnDeadline := true |}.

(** An order with a deadline five minutes after its creation at time 0 and
    room for two participants. *)
Definition ex_create : Operation :=
  CreateGroupOrder ex_menuService ex_defaults "creator"
    {| create_menuId := "menu-1"; create_title := "Lunch";
       create_description := None; create_deadline := Some 300000;
       create_settings :=
         Some {| p_allowModification := None; p_maxParticipants := Some 2;
                 p_autoCloseOnDeadline := None |} |}
    0 "order-1" "123456".

Definition ex_join (nick user : string) (now : Z) (pid mid : string) : Operation :=
  JoinOrder {| join_orderCode := "123456"; join_nickname := nick;
               join_userId := Some user; join_guestSessionId := None |}
            now pid mid.

Definition ex_add (menuItem : string) (q : Z) : AddOrderItemRequest :=
  {| add_menuItemId := menuItem; add_quantity := q;
     add_customizations := None; add_notes := None |}.

(** The order with Alice in it. *)
Definition ex_state_alice : ServiceState :=
  run None [ex_create; ex_join "Alice" "user-a" 1000 "p-alice" "mod-1"] initialState.

(** Alice has two teas. *)
Definition ex_state_tea : ServiceState :=
  run None [AddOrderItem ex_menuService "order-1" "p-alice" (ex_add "X" 2) 2000 "item-1"]
      ex_state_alice.

(** [item] is an item of participant [participantId_] of the order stored
    under [orderId_]. *)
Definition stored_item (orderId_ participantId_ : string) (item : OrderItem)
    (s : ServiceState) : Prop :=
  exists o p,
    JsMap.get orderId_ (orders s) = Some o
    /\ In p (participants o)
    /\ participantId p = participantId_
    /\ In item (items p).

(** The price the specification gives an item:
    (basePrice + sum of the customization modifiers) x quantity. *)
Definition specified_totalPrice (item : OrderItem) : Z :=
  (basePrice item + sum_of priceModifier (customizations item)) * quantity item.

(** The price the code gives an item: the price loop on the base price, the
    quantity and the customizations that the item carries. *)
Definition looped_totalPrice (item : OrderItem) : Z :=
  price_loop (basePrice item) (quantity item) (customizations item).

(** The amounts and the quantity of [item] are small enough for every number
    that the price loop and the formula of the specification go through to
    stay within 2^53 in magnitude, where doubles hold integers exactly. *)
Definition exact_amounts (item : OrderItem) : Prop :=
  (Z.abs (basePrice item)
   + sum_of (fun c => Z.abs (priceModifier c)) (customizations item))
  * Z.max 1 (Z.abs (quantity item)) <= 2 ^ 53.

(** Three cakes with two customizations, and the first item raised to five
    teas. *)
Definition ex_add_cakes : AddOrderItemRequest :=
  {| add_menuItemId := "Y"; add_quantity := 3;
     add_customizations :=
       Some [ {| customizationName := "large"; priceModifier := 10 |};
              {| customizationName := "less sugar"; priceModifier := 0 |} ];
     add_notes := None |}.

Definition ex_created : OrderItem :=
  {| itemId := "item-2"; menuItemId := "Y"; menuItemName := "Cake";
     basePrice := 30; quantity := 3;
     customizations :=
       [ {| customizationName := "large"; priceModifier := 10 |};
         {| customizationName := "less sugar"; priceModifier := 0 |} ];
     totalPrice := 120; notes := None |}.

Definition ex_update_five : UpdateOrderItemRequest :=
  {| upd_quantity := Some 5; upd_customizations := None; upd_notes := None |}.

Definition ex_updated : OrderItem :=
  {| itemId := "item-1"; menuItemId := "X"; menuItemName := "Tea";
     basePrice := 50; quantity := 5; customizations := [];
     totalPrice := 250; notes := None |}.

(** The status of the order stored under [k], if there is one. *)
Definition status_at (k : string) (s : ServiceState) : option OrderStatus :=
  option_map status (JsMap.get k (orders s)).

(** The moves of the life cycle: an active order may stay, close, expire or
    be deleted; a closed or expired order keeps its status or is deleted; no
    order appears under an id that is not in use. *)
Definition status_step (a b : option OrderStatus) : Prop :=
  match a with
  | None => b = None
  | Some active => True
  | Some st => b = Some st \/ b = None
  end.

(** [op] creates an order under the id [k]. *)
Definition issues_id (k : string) (op : Operation) : bool :=
  match op with
  | CreateGroupOrder _ _ _ _ _ newId _ => String.eqb newId k
  | _ => false
  end.

(** The order [ex_create] makes, and the store that holds only it. *)
Definition ex_order : GroupOrder :=
  {| orderId := "order-1"; orderCode := "123456"; menuId := "menu-1";
     createdBy := "creator"; title := "Lunch"; description := None;
     status := active; deadline := Some 300000;
     createdAt := 0; updatedAt := 0; closedAt := None;
     participants := [];
     summary :=
       {| totalParticipants := 0; totalItems := 0; summaryTotalAmount := 0;
          itemBreakdown := []; lastUpdated := 0 |};
     settings :=
       {| allowModification := true; maxParticipants := Some 2;
          autoCloseOnDeadline := true |} |}.

Definition ex_state_created : ServiceState :=
  {| orders := [("order-1", ex_order)];
     orderCodeIndex := [("123456", "order-1")];
     modifications := [] |}.

(** The same store after a sweep at 400000 ms, past the deadline. *)
Definition ex_state_expired : ServiceState :=
  snd (checkAndExpireOrders 400000 ex_state_created).


(** A guest who asks to join under the code of [ex_order]. *)
Definition ex_join_guest : JoinOrderRequest :=
  {| join_orderCode := "123456"; join_nickname := "Late";
     join_userId := None; join_guestSessionId := Some "guest-1" |}.

(** The participant that request creates at time [now]. *)
Definition ex_guest (now : Z) : OrderParticipant :=
  {| participantId := "p-late"; userId := None;
     guestSessionId := Some "guest-1"; nickname := "Late";
     items := []; totalAmount := 0; joinedAt := now; lastModifiedAt := now |}.

(** The participant service's table with an identity for that guest. *)
Definition ex_identities : JsMap.t ParticipantIdentity :=
  [("identity-1",
    {| identityId := "identity-1"; identityUserId := None;
       identityGuestSessionId := Some "guest-1" |})].

(** [ex_order] closed by its creator at 1000 ms, well before the deadline. *)
Definition ex_state_closed : ServiceState :=
  snd (closeOrder "order-1" "creator" 1000 ex_state_created).

(** The names of the participants of the order stored under [k]. *)
Definition nicknames_at (k : string) (s : ServiceState) : option (list string) :=
  option_map (fun o => map nickname (participants o)) (JsMap.get k (orders s)).

(** Alice orders tea a second time: two order items for menu item X. *)
Definition ex_state_two_teas : ServiceState :=
  run None [AddOrderItem ex_menuService "order-1" "p-alice" (ex_add "X" 1) 3000 "item-2"]
      ex_state_tea.

(** The breakdown of the stored summary, and the breakdown of
    [calculateOrderTotals], for the order stored under [k]. *)
Definition summary_breakdown_at (k : string) (s : ServiceState)
    : option (list OrderItemBreakdown) :=
  option_map (fun o => itemBreakdown (summary o)) (JsMap.get k (orders s)).

Definition totals_breakdown_at (k : string) (s : ServiceState)
    : option (list OrderTotalsBreakdown) :=
  option_map (fun o => ot_itemBreakdown (calculateOrderTotals o))
             (JsMap.get k (orders s)).

(** The order with Alice in it, closed by its creator. *)
Definition ex_state_alice_closed : ServiceState :=
  snd (closeOrder "order-1" "creator" 1500 ex_state_alice).

(** The reasons for which the plain item calls refuse: order missing, order
    not active, modification disabled, participant not in the order. *)
Definition item_call_refused (orderId_ participantId_ : string)
    (s : ServiceState) : Prop :=
  match JsMap.get orderId_ (orders s) with
  | None => True
  | Some o =>
      status o <> active
      \/ allowModification (settings o) = false
      \/ find (fun p => String.eqb (participantId p) participantId_)
              (participants o) = None
  end.


(** The calls that read or write the modification history.
    [recordModification] is the only writer; [joinOrder], [leaveOrder] and
    the history-tracked item calls go through it. *)
Inductive HistoryCall : Type :=
  | RecordCall (m : ModificationInput) (now : Z) (newId : string)
  | OrderHistoryCall (orderId_ : string)
  | ParticipantHistoryCall (participantId_ : string).

Definition run_history_call (s : ServiceState) (c : HistoryCall) : ServiceState :=
  match c with
  | RecordCall m now newId => snd (recordModification m now newId s)
  | OrderHistoryCall o => snd (getOrderModificationHistory o s)
  | ParticipantHistoryCall _ => s
  end.

Definition run_history (calls : list HistoryCall) (s : ServiceState)
    : ServiceState :=
  fold_left run_history_call calls s.

(** The records the calls have recorded, in the order of recording. *)
Definition recorded (calls : list HistoryCall) : list OrderModification :=
  flat_map
    (fun c =>
       match c with
       | RecordCall m now newId => [fst (recordModification m now newId initialState)]
       | _ => []
       end)
    calls.

(** [a] is not older than [b]. *)
Definition not_older (a b : OrderModification) : Prop :=
  mod_timestamp b <= mod_timestamp a.

(** Newest first: every record is not older than the records behind it. *)
Definition newest_first (l : list OrderModification) : Prop :=
  StronglySorted not_older l.

(** The array stored for an order, [[]] when there is none. *)
Definition stored_modifications (orderId_ : string) (s : ServiceState)
    : list OrderModification :=
  match JsMap.get orderId_ (modifications s) with
  | Some l => l
  | None => []
  end.

(** An entry of [calculateOrderTotals] holds each participant once and
    counts the participants it holds. *)
Definition totals_entry_distinct (e : OrderTotalsEntry) : Prop :=
  NoDup (te_participants e)
  /\ te_participantCount e = Z.of_nat (List.length (te_participants e)).

(** What a call does to the order under [k], for a store whose orders sit
    under their own ids. *)
Definition evolves (k : string) (s s' : ServiceState) : Prop :=
  well_keyed s ->
  status_step (status_at k s) (status_at k s') /\ well_keyed s'.

(** ** Proof automation *)

#[local] Arguments calculateOrderSummary : simpl never.
#[local] Arguments summarize : simpl never.

(** Case analysis on the guards of a method. *)
Ltac break_guard :=
  match goal with
  | |- context [match ?x with _ => _ end] =>
      lazymatch x with
      | context [match _ with _ => _ end] => fail
      | _ => destruct x eqn:?
      end
  | |- context [if ?x then _ else _] =>
      lazymatch x with
      | context [if _ then _ else _] => fail
      | _ => destruct x eqn:?
      end
  end.

(** ** The scenario of the specification

    An order with a deadline five minutes ahead and room for two: Alice
    joins, a second Alice is refused, Bob joins, Carol is refused; Alice
    orders two teas at 50; Bob removes an item that does not exist; the
    deadline passes and the sweep runs; Alice tries to add another item. *)
Definition scenario_joined : ServiceState :=
  run None [ex_create;
            ex_join "Alice" "user-a" 1000 "p-alice" "mod-1";
            ex_join "Bob" "user-b" 3000 "p-bob" "mod-2"] initialState.

Definition scenario_ordered : ServiceState :=
  run None [AddOrderItem ex_menuService "order-1" "p-alice" (ex_add "X" 2) 5000 "item-1"]
      scenario_joined.

Definition scenario_swept : ServiceState :=
  run None [CheckAndExpireOrders 400000] scenario_ordered.

(** * Further parts of the services *)

(** ** The service as a transition system

    Every method changes the state by a short sequence of these steps: an
    order is replaced by one with the same identity (and the same
    participants and summary, or a recomputed summary), an order is created,
    an order is removed together with its code, a record is pushed on the
    history of an order, the history of an order is sorted in place.
    [updateOrder] is such a method for a request that carries neither
    participants nor a summary; what it does with a request that carries
    them is treated apart ([Call]). *)

(** The fields of an order that no method rewrites: the four that
    [updateOrder] puts back after the request has been spread over the
    order (OrderService.ts 205-213). *)
Definition same_identity (o o' : GroupOrder) : Prop :=
  orderId o' = orderId o
  /\ orderCode o' = orderCode o
  /\ createdBy o' = createdBy o
  /\ createdAt o' = createdAt o.

(** A stored order keeps its participants and its summary, or gets the
    summary of its participants. *)
Definition summary_fresh (o : GroupOrder) : Prop :=
  summary o = summarize (participants o) (lastUpdated (summary o)).

Definition summary_kept_or_fresh (o o' : GroupOrder) : Prop :=
  (participants o' = participants o /\ summary o' = summary o)
  \/ summary_fresh o'.

(** What [joinOrder]'s duplicate check (352-356) reads of a participant:
    nickname, user id and guest session id. *)
Record Member : Type := {
  member_nickname : string;
  member_userId : option string;
  member_guestSessionId : option string
}.

Definition member_of (p : OrderParticipant) : Member :=
  {| member_nickname := nickname p; member_userId := userId p;
     member_guestSessionId := guestSessionId p |}.

(** Two members clash when they have the same nickname, or the same user id
    or guest session id where it is set. *)
Definition clash (a b : Member) : Prop :=
  member_nickname a = member_nickname b
  \/ (truthy_string (member_userId a) = true
      /\ member_userId a = member_userId b)
  \/ (truthy_string (member_guestSessionId a) = true
      /\ member_guestSessionId a = member_guestSessionId b).

(** The members of an order, in order. A stored order keeps them, gains one
    that clashes with none of them, or loses one. *)
Definition roster (o : GroupOrder) : list Member :=
  map member_of (participants o).

Definition roster_step (o o' : GroupOrder) : Prop :=
  roster o' = roster o
  \/ (exists m, Forall (fun a => ~ clash a m) (roster o)
                /\ roster o' = roster o ++ [m])
  \/ (exists i, roster o' = splice_one i (roster o)).

Inductive Label : Type :=
  | StoreOrder (k : string)
  | CreateOrder (k code : string)
  | RemoveOrder (k : string)
  | PushRecord (k : string)
  | SortRecords (k : string).

Inductive transition : Label -> ServiceState -> ServiceState -> Prop :=
  | tr_store (s : ServiceState) (k : string) (o o' : GroupOrder) :
      JsMap.get k (orders s) = Some o ->
      same_identity o o' ->
      summary_kept_or_fresh o o' ->
      roster_step o o' ->
      transition (StoreOrder k) s (set_orders s (JsMap.set k o' (orders s)))
  | tr_create (s : ServiceState) (k : string) (o : GroupOrder) :
      orderId o = k ->
      summary_fresh o ->
      participants o = [] ->
      transition (CreateOrder k (orderCode o)) s
        {| orders := JsMap.set k o (orders s);
           orderCodeIndex := JsMap.set (orderCode o) k (orderCodeIndex s);
           modifications := modifications s |}
  | tr_remove (s : ServiceState) (k : string) (o : GroupOrder) :
      JsMap.get k (orders s) = Some o ->
      transition (RemoveOrder k) s
        {| orders := JsMap.delete k (orders s);
           orderCodeIndex := JsMap.delete (orderCode o) (orderCodeIndex s);
           modifications := modifications s |}
  | tr_push (s : ServiceState) (k : string) (r : OrderModification) :
      mod_orderId r = k ->
      transition (PushRecord k) s
        (set_modifications s
           (JsMap.set k (stored_modifications k s ++ [r]) (modifications s)))
  | tr_sort (s : ServiceState) (k : string) (l : list OrderModification) :
      JsMap.get k (modifications s) = Some l ->
      transition (SortRecords k) s
        (set_modifications s
           (JsMap.set k (sort_newest_first l) (modifications s))).

Inductive path : list Label -> ServiceState -> ServiceState -> Prop :=
  | path_nil (s : ServiceState) : path [] s s
  | path_cons (l : Label) (ls : list Label) (s1 s2 s3 : ServiceState) :
      transition l s1 s2 -> path ls s2 s3 -> path (l :: ls) s1 s3.

(** The id and the code of the order a call creates. *)
Definition creation_of (op : Operation) : option (string * string) :=
  match op with
  | CreateGroupOrder _ _ _ _ _ newId newCode => Some (newId, newCode)
  | _ => None
  end.

(** A sequence of steps that creates no order. *)
Definition quiet (ls : list Label) : bool :=
  forallb (fun l => match l with CreateOrder _ _ => false | _ => true end) ls.

Definition reaches (s s' : ServiceState) : Prop :=
  exists ls, path ls s s' /\ quiet ls = true.

(** ** The remaining order queries (OrderService.ts 185-192) *)

(** [getOrderById]: [this.orders.get(orderId) || null]. *)
Definition getOrderById (orderId_ : string) (s : ServiceState) : option GroupOrder :=
  JsMap.get orderId_ (orders s).

(** [getOrderByCode]: [orderId ? this.getOrderById(orderId) : null]. *)
Definition getOrderByCode (orderCode_ : string) (s : ServiceState)
    : option GroupOrder :=
  let orderId_ := JsMap.get orderCode_ (orderCodeIndex s) in
  if truthy_string orderId_ then
    match orderId_ with
    | Some oid => getOrderById oid s
    | None => None
    end
  else None.

(** [generateOrderCode] (1504-1512). A roll is the integer
    [Math.floor(100000 + Math.random() * 900000)]; [rolls] are the rolls the
    random source gives, in order. The loop draws until the code is not in
    the index; [None] stands for a loop that has used up [rolls] and is
    still running. *)
Fixpoint generateOrderCode (index : JsMap.t string) (rolls : list Z)
    : option string :=
  match rolls with
  | [] => None
  | roll :: rest =>
      let code := show_number roll in
      if JsMap.has code index then generateOrderCode index rest else Some code
  end.

(** Every stored order is found under its code in the code index. *)
Definition code_indexed (s : ServiceState) : Prop :=
  forall k o,
    JsMap.get k (orders s) = Some o ->
    JsMap.get (orderCode o) (orderCodeIndex s) = Some k.

(** Along the calls, the code of every created order is one that is not in
    the code index at that moment, as [generateOrderCode] guarantees. *)
Fixpoint fresh_codes (participantService : option ParticipantService)
    (ops : list Operation) (s : ServiceState) : Prop :=
  match ops with
  | [] => True
  | op :: rest =>
      match creation_of op with
      | Some (_, code) => JsMap.get code (orderCodeIndex s) = None
      | None => True
      end
      /\ fresh_codes participantService rest (run_operation participantService op s)
  end.

(** The keys of a map are pairwise different, as in a JavaScript [Map]. *)
Definition keys_distinct {V} (m : JsMap.t V) : Prop := NoDup (JsMap.keys m).

(** The condition [checkAndExpireOrders] tests on an order (302-305). *)
Definition due (now : Z) (o : GroupOrder) : bool :=
  OrderStatus_eqb (status o) active
  && deadline_reached o now
  && autoCloseOnDeadline (settings o).

(** What a sweep makes of an entry of the store. *)
Definition swept (now : Z) (e : string * GroupOrder) : string * GroupOrder :=
  if due now (snd e) then (fst e, with_status (snd e) expired now) else e.

(** The record of Alice's joining in [ex_state_alice]. *)
Definition ex_record_alice : OrderModification :=
  {| mod_id := "mod-1"; mod_orderId := "order-1"; mod_participantId := "p-alice";
     mod_participantNickname := "Alice"; mod_type := participant_joined;
     mod_timestamp := 1000; mod_description := "Alice joined the order";
     mod_oldValue := None;
     mod_newValue := Some (ParticipantValue
                             (joined_participant
                                {| join_orderCode := "123456"; join_nickname := "Alice";
                                   join_userId := Some "user-a";
                                   join_guestSessionId := None |}
                                1000 "p-alice"));
     mod_itemDetails := None |}.

(** Alice leaves, the history is read, and the creator deletes the order. *)
Definition ex_closing_ops : list Operation :=
  [ LeaveOrder "order-1" "p-alice" 5000 "mod-5";
    GetOrderModificationHistory "order-1";
    DeleteOrder "order-1" "creator" ].

(** What may become of the order under a key: it keeps its identity or is
    removed; no order appears under a key that is not in use. *)
Definition identity_step (a b : option GroupOrder) : Prop :=
  match a with
  | None => b = None
  | Some o => b = None \/ exists o', b = Some o' /\ same_identity o o'
  end.

(** No step creates an order under [k]. *)
Definition avoids (k : string) (ls : list Label) : bool :=
  forallb (fun l =>
             match l with
             | CreateOrder k' _ => negb (String.eqb k' k)
             | _ => true
             end) ls.

(** A second order, and the calls that create both orders and delete the
    first. *)
Definition ex_create_second : Operation :=
  CreateGroupOrder ex_menuService ex_defaults "creator"
    {| create_menuId := "menu-1"; create_title := "Dinner";
       create_description := None; create_deadline := None;
       create_settings := None |}
    7000 "order-2" "654321".

Definition ex_two_orders : list Operation :=
  [ ex_create; ex_create_second; DeleteOrder "order-1" "creator" ].

(** The order [ex_create_second] makes. *)
Definition ex_order_second : GroupOrder :=
  {| orderId := "order-2"; orderCode := "654321"; menuId := "menu-1";
     createdBy := "creator"; title := "Dinner"; description := None;
     status := active; deadline := None;
     createdAt := 7000; updatedAt := 7000; closedAt := None;
     participants := [];
     summary :=
       {| totalParticipants := 0; totalItems := 0; summaryTotalAmount := 0;
          itemBreakdown := []; lastUpdated := 7000 |};
     settings := ex_defaults |}.

(** The creator of [ex_order] changes the title and the deadline. *)
Definition ex_rename : Operation :=
  UpdateOrder "order-1" "creator"
    {| update_title := Some "Dinner"; update_description := None;
       update_deadline := Some 900000; update_settings := None |} 410000.

(** All the order items of an order, participant after participant. *)
Definition all_items (ps : list OrderParticipant) : list OrderItem :=
  flat_map items ps.

(** [let total = 0; for (const x of l) total += f(x)]: the sum of [f] over
    [l], added up from the left as the loops of the code do. *)
Definition accumulate {A} (f : A -> Z) (l : list A) : Z :=
  fold_left (fun total x => total + f x) l 0.

(** How many times a row of the breakdown lists a holder. *)
Definition listed (e : OrderItemBreakdown) : Z :=
  Z.of_nat (List.length (bd_participants e)).

(** The order items of an order, each with the nickname of its holder. *)
Definition labelled_items (ps : list OrderParticipant)
    : list (string * OrderItem) :=
  flat_map (fun p => map (fun item => (nickname p, item)) (items p)) ps.

(** The breakdown entry the items with menu item id [k] amount to: the
    name is taken from the first of them, the quantities and the prices
    are added up, and the holder's nickname is listed once per item. *)
Definition entry_of (k : string) (l : list (string * OrderItem))
    : option OrderItemBreakdown :=
  match filter (fun x => String.eqb (menuItemId (snd x)) k) l with
  | [] => None
  | (nick, item) :: rest =>
      Some {| bd_menuItemId := menuItemId item;
              bd_menuItemName := menuItemName item;
              bd_totalQuantity := sum_of quantity (item :: map snd rest);
              bd_totalAmount := sum_of totalPrice (item :: map snd rest);
              bd_participants := nick :: map fst rest |}
  end.

(** The participants of the order in which Alice holds two items of tea. *)
Definition ex_participants_two_teas : list OrderParticipant :=
  match JsMap.get "order-1" (orders ex_state_two_teas) with
  | Some o => participants o
  | None => []
  end.

(** The rows that the summary and [calculateOrderTotals] have in common. *)
Definition row_of_summary (e : OrderItemBreakdown) : string * string * Z * Z :=
  (bd_menuItemId e, bd_menuItemName e, bd_totalQuantity e, bd_totalAmount e).

Definition row_of_totals (b : OrderTotalsBreakdown) : string * string * Z * Z :=
  (tb_itemId b, tb_itemName b, tb_totalQuantity b, tb_totalAmount b).

Definition row_of_entry (e : OrderTotalsEntry) : string * string * Z * Z :=
  (te_itemId e, te_itemName e, te_totalQuantity e, te_totalAmount e).

(** The two breakdown maps hold the same rows under the same keys. *)
Definition maps_agree (m1 : JsMap.t OrderItemBreakdown)
    (m2 : JsMap.t OrderTotalsEntry) : Prop :=
  map (fun x => (fst x, row_of_summary (snd x))) m1
  = map (fun x => (fst x, row_of_entry (snd x))) m2.

(** The ids of the participants that hold an item of menu item [k], each
    id once. *)
Definition holders (ps : list OrderParticipant) (k : string) : list string :=
  nodup string_dec
    (map participantId
       (filter (fun p => existsb (fun it => String.eqb (menuItemId it) k) (items p))
               ps)).

(** The order items of an order, each with the id of its holder. *)
Definition held_items (ps : list OrderParticipant) : list (string * OrderItem) :=
  flat_map (fun p => map (fun item => (participantId p, item)) (items p)) ps.

(** What an entry of [calculateOrderTotals] under key [k] records of the
    items seen so far. *)
Definition entry_counts (k : string) (l : list (string * OrderItem))
    (e : option OrderTotalsEntry) : Prop :=
  match e with
  | Some e =>
      te_itemId e = k
      /\ NoDup (te_participants e)
      /\ te_participantCount e = Z.of_nat (List.length (te_participants e))
      /\ forall pid,
           In pid (te_participants e)
           <-> exists it, In (pid, it) l /\ menuItemId it = k
  | None => forall pid it, In (pid, it) l -> menuItemId it <> k
  end.

(** The summary of every stored order is the summary of its participants. *)
Definition summaries_fresh (s : ServiceState) : Prop :=
  Forall (fun e => summary_fresh (snd e)) (orders s).


(** No two members of a list clash. *)
Definition distinct_members (l : list Member) : Prop :=
  ForallOrdPairs (fun a b => ~ clash a b) l.

(** No two participants of a stored order clash. *)
Definition roster_distinct (o : GroupOrder) : Prop :=
  distinct_members (roster o).

Definition rosters_distinct (s : ServiceState) : Prop :=
  Forall (fun e => roster_distinct (snd e)) (orders s).

(** Bob joins Alice's order; a second Alice and a second session of Bob's
    user are turned away. *)
Definition ex_joins : list Operation :=
  [ ex_join "Bob" "user-b" 2000 "p-bob" "mod-2";
    ex_join "Alice" "user-c" 3000 "p-alice-2" "mod-3";
    ex_join "Bobby" "user-b" 4000 "p-bob-2" "mod-4" ].

Definition ex_alice : OrderParticipant :=
  {| participantId := "p-alice"; userId := Some "user-a";
     guestSessionId := None; nickname := "Alice";
     items := []; totalAmount := 0; joinedAt := 1000; lastModifiedAt := 1000 |}.

Definition ex_bob : OrderParticipant :=
  {| participantId := "p-bob"; userId := Some "user-b";
     guestSessionId := None; nickname := "Bob";
     items := []; totalAmount := 0; joinedAt := 2000; lastModifiedAt := 2000 |}.

(** ** Calls with the request body of the route

    The route that updates an order hands the body of the request to
    [updateOrder] as it arrives (index.ts 606-608), so such a call can carry
    any field of an order, not only the four of [GroupOrderUpdateRequest].
    A call is an operation with a request of the declared type, or
    [updateOrder] with the body of the request. *)
Inductive Call : Type :=
| Declared (op : Operation)
| UpdateOrderWith (orderId_ userId_ : string) (request : UpdateRequestBody)
    (now : Z).

Definition run_call (participantService : option ParticipantService)
    (c : Call) (s : ServiceState) : ServiceState :=
  match c with
  | Declared op => run_operation participantService op s
  | UpdateOrderWith o u r now => snd (updateOrder o u r now s)
  end.

Definition run_calls (participantService : option ParticipantService)
    (cs : list Call) (s : ServiceState) : ServiceState :=
  fold_left (fun st c => run_call participantService c st) cs s.

(** [c] creates an order under the id [k]. *)
Definition call_issues_id (k : string) (c : Call) : bool :=
  match c with
  | Declared op => issues_id k op
  | UpdateOrderWith _ _ _ _ => false
  end.

(** The body of an update carries no participants; it carries neither
    participants nor a summary. *)
Definition call_keeps_roster (c : Call) : Prop :=
  match c with
  | Declared _ => True
  | UpdateOrderWith _ _ r _ => body_participants r = None
  end.

Definition call_keeps_ledger (c : Call) : Prop :=
  match c with
  | Declared _ => True
  | UpdateOrderWith _ _ r _ => keeps_ledger r
  end.

(** A body that names another menu, a status and a closing time beside a
    new title. *)
Definition ex_body_menu : UpdateRequestBody :=
  {| body_title := Some "Dinner"; body_description := None;
     body_deadline := None; body_settings := None;
     body_menuId := Some "menu-2"; body_status := Some closed;
     body_closedAt := Some 5000;
     body_participants := None; body_summary := None |}.

(** A body that carries a list of participants: none, or Alice twice. *)
Definition ex_body_participants (ps : list OrderParticipant)
    : UpdateRequestBody :=
  {| body_title := None; body_description := None;
     body_deadline := None; body_settings := None;
     body_menuId := None; body_status := None; body_closedAt := None;
     body_participants := Some ps; body_summary := None |}.

(** [ex_order] after [updateOrder] with [ex_body_menu] at 5000 ms. *)
Definition ex_order_overwritten : GroupOrder :=
  {| orderId := "order-1"; orderCode := "123456"; menuId := "menu-2";
     createdBy := "creator"; title := "Dinner"; description := None;
     status := closed; deadline := Some 300000;
     createdAt := 0; updatedAt := 5000; closedAt := Some 5000;
     participants := [];
     summary :=
       {| totalParticipants := 0; totalItems := 0; summaryTotalAmount := 0;
          itemBreakdown := []; lastUpdated := 0 |};
     settings := settings ex_order |}.

(** ** Who may change what *)

(** [canUserModifyOrder] (900-903, and again 1341-1344). *)
Definition canUserModifyOrder (orderId_ userId_ : string) (s : ServiceState)
    : bool :=
  match JsMap.get orderId_ (orders s) with
  | Some order_ =>
      String.eqb (createdBy order_) userId_
      && OrderStatus_eqb (status order_) active
  | None => false
  end.

(** [canParticipantModifyItems] (905-912, and again 1346-1353). *)
Definition canParticipantModifyItems (orderId_ participantId_ : string)
    (s : ServiceState) : bool :=
  match JsMap.get orderId_ (orders s) with
  | None => false
  | Some order_ =>
      if negb (OrderStatus_eqb (status order_) active)
         || negb (allowModification (settings order_))
      then false
      else existsb (fun p => String.eqb (participantId p) participantId_)
                   (participants order_)
  end.

(** At least one full minute is left before the deadline of the order, or
    the order has no deadline (or is not there). *)
Definition minute_left (orderId_ : string) (now : Z) (s : ServiceState) : bool :=
  match JsMap.get orderId_ (orders s) with
  | Some order_ =>
      match deadline order_ with
      | Some d => 60000 <=? d - now
      | None => true
      end
  | None => true
  end.

(** ** Closing several orders *)

Record BulkCloseResult : Type := {
  success : list string;
  failed : list string
}.

(** The loop of [bulkCloseOrders] (1079-1091). Each id comes with the time
    its [closeOrder] call reads from the clock. [closeOrder] does not throw,
    so the [catch] branch is not taken. *)
Fixpoint bulkCloseOrders_loop (calls : list (string * Z)) (userId_ : string)
    (acc : BulkCloseResult) (s : ServiceState) : BulkCloseResult * ServiceState :=
  match calls with
  | [] => (acc, s)
  | (orderId_, now) :: rest =>
      let '(result, s1) := closeOrder orderId_ userId_ now s in
      if result then
        bulkCloseOrders_loop rest userId_
          {| success := success acc ++ [orderId_]; failed := failed acc |} s1
      else
        bulkCloseOrders_loop rest userId_
          {| success := success acc; failed := failed acc ++ [orderId_] |} s1
  end.

(** [bulkCloseOrders] (1075-1095). *)
Definition bulkCloseOrders (calls : list (string * Z)) (userId_ : string)
    (s : ServiceState) : BulkCloseResult * ServiceState :=
  bulkCloseOrders_loop calls userId_ {| success := []; failed := [] |} s.

(** The creator closes the first order twice, an order that is not there and
    the second order. *)
Definition ex_bulk : list (string * Z) :=
  [("order-1", 8000); ("order-1", 8001); ("order-9", 8002); ("order-2", 8003)].

Definition ex_state_two : ServiceState :=
  run None [ex_create; ex_create_second] initialState.

(** ** Searching orders *)

(** [Array.prototype.sort] with a comparator, on a fresh array. The sort is
    stable. *)
Fixpoint sort_insert_by {A} (compare : A -> A -> Z) (x : A) (l : list A)
    : list A :=
  match l with
  | [] => [x]
  | y :: r =>
      if compare x y <=? 0 then x :: y :: r
      else y :: sort_insert_by compare x r
  end.

Definition sort_by {A} (compare : A -> A -> Z) (l : list A) : list A :=
  fold_right (sort_insert_by compare) [] l.

(** An index argument of [Array.prototype.slice], made relative to the
    array: a negative index counts from the end. *)
Definition slice_index (len i : Z) : Z :=
  if i <? 0 then Z.max (len + i) 0 else Z.min i len.

(** [Array.prototype.slice(start, end)]. *)
Definition slice {A} (start end_ : Z) (l : list A) : list A :=
  let len := Z.of_nat (List.length l) in
  let k := slice_index len start in
  let final := slice_index len end_ in
  firstn (Z.to_nat (final - k)) (skipn (Z.to_nat k) l).

(** [String.prototype.includes]. *)
Fixpoint includes (s sub : string) : bool :=
  if String.prefix sub s then true
  else
    match s with
    | EmptyString => false
    | String _ r => includes r sub
    end.

(** The value of an optional string that is set and not empty. *)
Definition truthy_value (s : option string) : option string :=
  match s with
  | Some v => if String.eqb v "" then None else Some v
  | None => None
  end.

Record DateRange : Type := {
  range_start : Z;
  range_end : Z
}.

(** The query of [searchOrders]; the router fills [query_status] with any
    string it is given. *)
Record OrderSearchQuery : Type := {
  query_createdBy : option string;
  query_status : option string;
  query_menuId : option string;
  query_participantId : option string;
  query_keyword : option string;
  query_dateRange : option DateRange
}.

Record OrderSearchResult : Type := {
  result_orders : list GroupOrder;
  result_total : Z;
  result_page : Z;
  result_limit : Z
}.

Definition no_query : OrderSearchQuery :=
  {| query_createdBy := None; query_status := None; query_menuId := None;
     query_participantId := None; query_keyword := None;
     query_dateRange := None |}.

Section Search.

(** [String.prototype.toLowerCase], which the search takes from the
    language. *)
Variable toLowerCase : string -> string.

(** The keyword test of the two searches (741-750, 1010-1017). *)
Definition keyword_rejects (keyword : option string) (order_ : GroupOrder)
    : bool :=
  match truthy_value keyword with
  | Some k =>
      let keyword_ := toLowerCase k in
      let matchesTitle := includes (toLowerCase (title order_)) keyword_ in
      let matchesDescription :=
        match description order_ with
        | Some d => includes (toLowerCase d) keyword_
        | None => false
        end in
      let matchesCode := includes (toLowerCase (orderCode order_)) keyword_ in
      negb matchesTitle && negb matchesDescription && negb matchesCode
  | None => false
  end.

(** The date range test of the two searches (753-758, 1004-1007). *)
Definition dateRange_rejects (range : option DateRange) (order_ : GroupOrder)
    : bool :=
  match range with
  | Some r =>
      (createdAt order_ <? range_start r) || (range_end r <? createdAt order_)
  | None => false
  end.

(** [query.x && order.x !== query.x] on a string field. *)
Definition field_rejects (wanted : option string) (actual : string) : bool :=
  match truthy_value wanted with
  | Some v => negb (String.eqb actual v)
  | None => false
  end.

(** The filter of [searchOrders] (714-761). *)
Definition order_matches (query : OrderSearchQuery) (order_ : GroupOrder)
    : bool :=
  if field_rejects (query_createdBy query) (createdBy order_) then false
  else if field_rejects (query_status query) (show_status (status order_))
  then false
  else if field_rejects (query_menuId query) (menuId order_) then false
  else if
    match truthy_value (query_participantId query) with
    | Some pid =>
        negb (existsb
                (fun p =>
                   String.eqb (participantId p) pid
                   || option_string_eqb (userId p) (Some pid)
                   || option_string_eqb (guestSessionId p) (Some pid))
                (participants order_))
    | None => false
    end
  then false
  else if keyword_rejects (query_keyword query) order_ then false
  else if dateRange_rejects (query_dateRange query) order_ then false
  else true.

(** The comparator [(a, b) => b.updatedAt.getTime() - a.updatedAt.getTime()]. *)
Definition compare_updated_first (a b : GroupOrder) : Z :=
  updatedAt b - updatedAt a.

(** The pagination of the two searches (767-776, 1063-1072). *)
Definition paginate (filteredOrders : list GroupOrder) (page limit : Z)
    : OrderSearchResult :=
  let startIndex := (page - 1) * limit in
  let endIndex := startIndex + limit in
  {| result_orders := slice startIndex endIndex filteredOrders;
     result_total := Z.of_nat (List.length filteredOrders);
     result_page := page;
     result_limit := limit |}.

(** [searchOrders] (711-777); an argument left out takes its default. *)
Definition searchOrders (query : OrderSearchQuery) (page limit : option Z)
    (s : ServiceState) : OrderSearchResult :=
  let page_ := match page with Some p => p | None => 1 end in
  let limit_ := match limit with Some l => l | None => 10 end in
  let allOrders := JsMap.values (orders s) in
  let filteredOrders := filter (order_matches query) allOrders in
  let sorted := sort_by compare_updated_first filteredOrders in
  paginate sorted page_ limit_.

(** [getUserOrders] (779-781). *)
Definition getUserOrders (userId_ : string) (page limit : option Z)
    (s : ServiceState) : OrderSearchResult :=
  let page_ := match page with Some p => p | None => 1 end in
  let limit_ := match limit with Some l => l | None => 10 end in
  searchOrders
    {| query_createdBy := Some userId_; query_status := None;
       query_menuId := None; query_participantId := None;
       query_keyword := None; query_dateRange := None |}
    (Some page_) (Some limit_) s.

(** [getParticipantOrders] (783-785). *)
Definition getParticipantOrders (participantId_ : string)
    (page limit : option Z) (s : ServiceState) : OrderSearchResult :=
  let page_ := match page with Some p => p | None => 1 end in
  let limit_ := match limit with Some l => l | None => 10 end in
  searchOrders
    {| query_createdBy := None; query_status := None;
       query_menuId := None; query_participantId := Some participantId_;
       query_keyword := None; query_dateRange := None |}
    (Some page_) (Some limit_) s.

(** [getOrdersByStatus] (1097-1099). *)
Definition getOrdersByStatus (status_ : OrderStatus) (page limit : option Z)
    (s : ServiceState) : OrderSearchResult :=
  let page_ := match page with Some p => p | None => 1 end in
  let limit_ := match limit with Some l => l | None => 10 end in
  searchOrders
    {| query_createdBy := None; query_status := Some (show_status status_);
       query_menuId := None; query_participantId := None;
       query_keyword := None; query_dateRange := None |}
    (Some page_) (Some limit_) s.

(** [getOrdersByDateRange] (1101-1103). *)
Definition getOrdersByDateRange (startDate endDate : Z) (page limit : option Z)
    (s : ServiceState) : OrderSearchResult :=
  let page_ := match page with Some p => p | None => 1 end in
  let limit_ := match limit with Some l => l | None => 10 end in
  searchOrders
    {| query_createdBy := None; query_status := None;
       query_menuId := None; query_participantId := None;
       query_keyword := None;
       query_dateRange :=
         Some {| range_start := startDate; range_end := endDate |} |}
    (Some page_) (Some limit_) s.

(** The query of [advancedSearchOrders], with the fields the method reads. *)
Record AdvancedOrderSearchQuery : Type := {
  adv_createdBy : option string;
  adv_status : option string;
  adv_menuId : option string;
  adv_minAmount : option Z;
  adv_maxAmount : option Z;
  adv_minParticipants : option Z;
  adv_maxParticipants : option Z;
  adv_hasDeadline : option bool;
  adv_isExpired : option bool;
  adv_dateRange : option DateRange;
  adv_keyword : option string;
  adv_sortBy : option string;
  adv_sortOrder : option string
}.

(** [query.x !== undefined && test]. *)
Definition defined_and {A} (x : option A) (test : A -> bool) : bool :=
  match x with
  | Some v => test v
  | None => false
  end.

(** The filter of [advancedSearchOrders] (989-1020). *)
Definition order_matches_advanced (query : AdvancedOrderSearchQuery)
    (order_ : GroupOrder) : bool :=
  let count := Z.of_nat (List.length (participants order_)) in
  if field_rejects (adv_createdBy query) (createdBy order_) then false
  else if field_rejects (adv_status query) (show_status (status order_))
  then false
  else if field_rejects (adv_menuId query) (menuId order_) then false
  else if defined_and (adv_minAmount query)
            (fun m => summaryTotalAmount (summary order_) <? m) then false
  else if defined_and (adv_maxAmount query)
            (fun m => m <? summaryTotalAmount (summary order_)) then false
  else if defined_and (adv_minParticipants query) (fun m => count <? m)
  then false
  else if defined_and (adv_maxParticipants query) (fun m => m <? count)
  then false
  else if defined_and (adv_hasDeadline query)
            (fun b => negb (Bool.eqb
                              (match deadline order_ with
                               | Some _ => true
                               | None => false
                               end) b)) then false
  else if defined_and (adv_isExpired query)
            (fun b => negb (Bool.eqb (OrderStatus_eqb (status order_) expired) b))
  then false
  else if dateRange_rejects (adv_dateRange query) order_ then false
  else if keyword_rejects (adv_keyword query) order_ then false
  else true.

(** [a.deadline?.getTime() || 0]. *)
Definition deadline_or_zero (order_ : GroupOrder) : Z :=
  match deadline order_ with
  | Some d => d
  | None => 0
  end.

(** The value the comparator of [advancedSearchOrders] reads (1026-1060). *)
Definition sort_value (sortBy : string) (order_ : GroupOrder) : Z :=
  if String.eqb sortBy "createdAt" then createdAt order_
  else if String.eqb sortBy "updatedAt" then updatedAt order_
  else if String.eqb sortBy "deadline" then deadline_or_zero order_
  else if String.eqb sortBy "totalAmount" then
    summaryTotalAmount (summary order_)
  else if String.eqb sortBy "participantCount" then
    Z.of_nat (List.length (participants order_))
  else updatedAt order_.

Definition compare_advanced (sortBy sortOrder : string) (a b : GroupOrder) : Z :=
  let aValue := sort_value sortBy a in
  let bValue := sort_value sortBy b in
  if String.eqb sortOrder "asc" then aValue - bValue else bValue - aValue.

(** [query.sortBy || 'updatedAt'] and [query.sortOrder || 'desc']
    (1023-1024). *)
Definition sortBy_of (query : AdvancedOrderSearchQuery) : string :=
  match truthy_value (adv_sortBy query) with
  | Some v => v
  | None => "updatedAt"
  end.

Definition sortOrder_of (query : AdvancedOrderSearchQuery) : string :=
  match truthy_value (adv_sortOrder query) with
  | Some v => v
  | None => "desc"
  end.

(** [advancedSearchOrders] (986-1073). *)
Definition advancedSearchOrders (query : AdvancedOrderSearchQuery)
    (page limit : option Z) (s : ServiceState) : OrderSearchResult :=
  let page_ := match page with Some p => p | None => 1 end in
  let limit_ := match limit with Some l => l | None => 10 end in
  let allOrders := JsMap.values (orders s) in
  let filteredOrders := filter (order_matches_advanced query) allOrders in
  let sortBy := sortBy_of query in
  let sortOrder := sortOrder_of query in
  let sorted := sort_by (compare_advanced sortBy sortOrder) filteredOrders in
  paginate sorted page_ limit_.

End Search.

(** The pages 1 to [n] of a search, one after the other. *)
Definition pages_of (search : option Z -> OrderSearchResult) (n : nat)
    : list GroupOrder :=
  List.concat
    (map (fun p => result_orders (search (Some (Z.of_nat p)))) (seq 1 n)).

(** Not updated before the orders behind it. *)
Definition updated_first (l : list GroupOrder) : Prop :=
  StronglySorted (fun a b => updatedAt b <= updatedAt a) l.

(** The basic part of an advanced query. *)
Definition basic_query (query : OrderSearchQuery) : AdvancedOrderSearchQuery :=
  {| adv_createdBy := query_createdBy query;
     adv_status := query_status query;
     adv_menuId := query_menuId query;
     adv_minAmount := None; adv_maxAmount := None;
     adv_minParticipants := None; adv_maxParticipants := None;
     adv_hasDeadline := None; adv_isExpired := None;
     adv_dateRange := query_dateRange query;
     adv_keyword := query_keyword query;
     adv_sortBy := None; adv_sortOrder := None |}.

(** Lower case of the letters A to Z, for the examples. *)
Definition ascii_lower (c : ascii) : ascii :=
  let n := nat_of_ascii c in
  if (65 <=? n)%nat && (n <=? 90)%nat then ascii_of_nat (n + 32) else c.

Fixpoint lower (s : string) : string :=
  match s with
  | EmptyString => EmptyString
  | String c r => String (ascii_lower c) (lower r)
  end.

(** A query without its participant filter. *)
Definition without_participant (query : OrderSearchQuery) : OrderSearchQuery :=
  {| query_createdBy := query_createdBy query;
     query_status := query_status query;
     query_menuId := query_menuId query;
     query_participantId := None;
     query_keyword := query_keyword query;
     query_dateRange := query_dateRange query |}.

(** The order in which [advancedSearchOrders] is asked to list: ascending
    in the value named by [sortBy] when [sortOrder] is [asc], descending
    otherwise. *)
Definition in_requested_order (query : AdvancedOrderSearchQuery)
    (a b : GroupOrder) : Prop :=
  if String.eqb (sortOrder_of query) "asc"
  then sort_value (sortBy_of query) a <= sort_value (sortBy_of query) b
  else sort_value (sortBy_of query) b <= sort_value (sortBy_of query) a.

(** One of the ids of the participant is [id]. *)
Definition known_as (id : string) (p : OrderParticipant) : Prop :=
  participantId p = id \/ userId p = Some id \/ guestSessionId p = Some id.

(** ** Totals of a participant *)

Record ParticipantTotalsRow : Type := {
  pr_itemId : string;
  pr_itemName : string;
  pr_quantity : Z;
  pr_totalPrice : Z
}.

Record ParticipantTotals : Type := {
  pt_totalItems : Z;
  pt_totalAmount : Z;
  pt_itemBreakdown : list ParticipantTotalsRow
}.

Definition row_of_item (item : OrderItem) : ParticipantTotalsRow :=
  {| pr_itemId := menuItemId item; pr_itemName := menuItemName item;
     pr_quantity := quantity item; pr_totalPrice := totalPrice item |}.

(** The loop of [calculateParticipantTotals] (OrderModificationService.ts,
    251-261). *)
Definition participant_totals_item
    (acc : Z * Z * list ParticipantTotalsRow) (item : OrderItem)
    : Z * Z * list ParticipantTotalsRow :=
  let '(totalItems_, totalAmount_, itemBreakdown_) := acc in
  (totalItems_ + quantity item, totalAmount_ + totalPrice item,
   itemBreakdown_ ++ [row_of_item item]).

(** [calculateParticipantTotals] (246-269). [averageItemPrice], a quotient
    of floating-point numbers, is left out of the result. *)
Definition calculateParticipantTotals (participant : OrderParticipant)
    : ParticipantTotals :=
  let '(totalItems_, totalAmount_, itemBreakdown_) :=
    fold_left participant_totals_item (items participant) (0, 0, []) in
  {| pt_totalItems := totalItems_; pt_totalAmount := totalAmount_;
     pt_itemBreakdown := itemBreakdown_ |}.

(** [getOrderTotals] (OrderService.ts, 1477-1484). *)
Definition getOrderTotals (orderId_ : string) (s : ServiceState)
    : option OrderTotals :=
  match JsMap.get orderId_ (orders s) with
  | None => None
  | Some order_ => Some (calculateOrderTotals order_)
  end.

(** [getParticipantTotals] (1486-1498). *)
Definition getParticipantTotals (orderId_ participantId_ : string)
    (s : ServiceState) : option ParticipantTotals :=
  match JsMap.get orderId_ (orders s) with
  | None => None
  | Some order_ =>
      match find (fun p => String.eqb (participantId p) participantId_)
                 (participants order_) with
      | None => None
      | Some participant => Some (calculateParticipantTotals participant)
      end
  end.

(** [getOrderParticipants] (480-483). *)
Definition getOrderParticipants (orderId_ : string) (s : ServiceState)
    : list OrderParticipant :=
  match JsMap.get orderId_ (orders s) with
  | Some order_ => participants order_
  | None => []
  end.

(** ** ParticipantServiceImpl *)

(** [isNicknameAvailableInOrder] (index.ts, 375-382). The service reads the
    orders of the order service, which hands them over in its constructor
    ([setOrdersReference]). *)
Definition isNicknameAvailableInOrder (nickname_ orderId_ : string)
    (s : ServiceState) : bool :=
  match JsMap.get orderId_ (orders s) with
  | None => false
  | Some order_ =>
      negb (existsb (fun p => String.eqb (nickname p) nickname_)
                    (participants order_))
  end.

(** The first loop of [suggestAlternativeNicknames] (389-395). *)
Definition suggest_numbered (baseNickname orderId_ : string) (s : ServiceState)
    (suggestions : list string) (i : Z) : list string :=
  let suggestion := baseNickname +++ show_number i in
  if isNicknameAvailableInOrder suggestion orderId_ s
  then suggestions ++ [suggestion]
  else suggestions.

(** The second loop (406-413); after [break] nothing more is pushed. *)
Definition suggest_variation (orderId_ : string) (s : ServiceState)
    (suggestions : list string) (variation : string) : list string :=
  if (5 <=? List.length suggestions)%nat then suggestions
  else if isNicknameAvailableInOrder variation orderId_ s
  then suggestions ++ [variation]
  else suggestions.

Definition variations (baseNickname : string) : list string :=
  [ baseNickname +++ "_";
    baseNickname +++ "2024";
    "新" +++ baseNickname;
    baseNickname +++ "哥";
    baseNickname +++ "姐" ].

(** [suggestAlternativeNicknames] (384-416). *)
Definition suggestAlternativeNicknames (nickname_ orderId_ : string)
    (s : ServiceState) : list string :=
  let baseNickname := nickname_ in
  let suggestions :=
    fold_left (suggest_numbered baseNickname orderId_ s) [1; 2; 3; 4; 5] [] in
  let suggestions :=
    fold_left (suggest_variation orderId_ s) (variations baseNickname)
      suggestions in
  slice 0 5 suggestions.

(** The ten names [suggestAlternativeNicknames] tries, in order. *)
Definition candidates (nickname_ : string) : list string :=
  map (fun i => nickname_ +++ show_number i) [1; 2; 3; 4; 5]
  ++ variations nickname_.

Section ParticipantServiceImpl.

(** What the service takes from elsewhere: the nickname rule
    ([isValidNickname], a regular expression over UTF-16 code units), and
    whether the user manager knows a user and the guest service a session. *)
Variable isValidNickname : string -> bool.
Variable getUserById : string -> bool.
Variable getGuestSession : string -> bool.

(** [findParticipantByUserId] and [findParticipantByGuestSession]
    (419-435). *)
Definition findParticipantByUserId (userId_ : string)
    (identities : JsMap.t ParticipantIdentity) : option ParticipantIdentity :=
  find (fun identity_ => option_string_eqb (identityUserId identity_) (Some userId_))
       (JsMap.values identities).

Definition findParticipantByGuestSession (guestSessionId_ : string)
    (identities : JsMap.t ParticipantIdentity) : option ParticipantIdentity :=
  find (fun identity_ =>
          option_string_eqb (identityGuestSessionId identity_)
                            (Some guestSessionId_))
       (JsMap.values identities).

(** [createParticipantIdentity] (206-226); [newId] is the generated id. *)
Definition createParticipantIdentity (request : JoinOrderRequest)
    (newId : string) (identities : JsMap.t ParticipantIdentity)
    : ParticipantIdentity * JsMap.t ParticipantIdentity :=
  let identity_ :=
    {| identityId := newId; identityUserId := join_userId request;
       identityGuestSessionId := join_guestSessionId request |} in
  (identity_, JsMap.set newId identity_ identities).

Definition identity_rejected (message : string) : ParticipantValidationResult :=
  {| pv_isValid := false; pv_canJoin := false; pv_identity := None;
     pv_error := Some message |}.

Definition identity_accepted (identity_ : ParticipantIdentity)
    : ParticipantValidationResult :=
  {| pv_isValid := true; pv_canJoin := true; pv_identity := Some identity_;
     pv_error := None |}.

(** The guest part of [validateParticipantIdentity] and the creation of a
    new identity (175-203). *)
Definition validate_guest (request : JoinOrderRequest) (newId : string)
    (identities : JsMap.t ParticipantIdentity)
    : ParticipantValidationResult * JsMap.t ParticipantIdentity :=
  let create :=
    let '(identity_, identities') :=
      createParticipantIdentity request newId identities in
    (identity_accepted identity_, identities') in
  match truthy_value (join_guestSessionId request) with
  | Some guestSessionId_ =>
      if negb (getGuestSession guestSessionId_)
      then (identity_rejected "Invalid guest session", identities)
      else
        match findParticipantByGuestSession guestSessionId_ identities with
        | Some existingIdentity => (identity_accepted existingIdentity, identities)
        | None => create
        end
  | None => create
  end.

(** [ParticipantServiceImpl.validateParticipantIdentity] (142-204), on the
    service's table of identities. *)
Definition ParticipantServiceImpl_validateParticipantIdentity
    (request : JoinOrderRequest) (newId : string)
    (identities : JsMap.t ParticipantIdentity)
    : ParticipantValidationResult * JsMap.t ParticipantIdentity :=
  if negb (isValidNickname (join_nickname request)) then
    (identity_rejected
       "Invalid nickname format. Must be 2-20 characters, alphanumeric and Chinese characters only.",
     identities)
  else
    match truthy_value (join_userId request) with
    | Some userId_ =>
        if negb (getUserById userId_)
        then (identity_rejected "Invalid user ID", identities)
        else
          match findParticipantByUserId userId_ identities with
          | Some existingIdentity =>
              (identity_accepted existingIdentity, identities)
          | None => validate_guest request newId identities
          end
    | None => validate_guest request newId identities
    end.

(** The participant service as one [joinOrder] call for [request] sees it:
    [validateParticipantIdentity] runs on the table [identities], and
    [canParticipantJoinOrder] on the table that call leaves. *)
Definition ParticipantServiceImpl_during (identities : JsMap.t ParticipantIdentity)
    (newIdentityId : string) (request : JoinOrderRequest) : ParticipantService :=
  {| validateParticipantIdentity :=
       fun r =>
         fst (ParticipantServiceImpl_validateParticipantIdentity r newIdentityId
                identities);
     canParticipantJoinOrder :=
       ParticipantServiceImpl_canParticipantJoinOrder
         (snd (ParticipantServiceImpl_validateParticipantIdentity request
                 newIdentityId identities)) |}.

End ParticipantServiceImpl.

(** ** OrderSchedulerImpl *)

(** What the callback of an interval timer does: the sweep the order
    service schedules for itself ([startExpirationChecker], OrderService.ts
    1514-1523), the check of the scheduler (OrderScheduler.ts 32-38), or
    something that does not concern the orders. *)
Inductive Callback : Type :=
  | ExpirationChecker
  | ScheduledCheck
  | OtherCallback.

(** The interval timers that are set in the runtime, each with its handle,
    and the handle that [setInterval] gives out next. *)
Record Runtime : Type := {
  timers : list (Z * Callback);
  nextTimer : Z
}.

Definition setInterval (callback : Callback) (r : Runtime) : Z * Runtime :=
  (nextTimer r,
   {| timers := timers r ++ [(nextTimer r, callback)];
      nextTimer := nextTimer r + 1 |}).

Definition clearInterval (h : Z) (r : Runtime) : Runtime :=
  {| timers := filter (fun t => negb (fst t =? h)) (timers r);
     nextTimer := nextTimer r |}.

(** [startExpirationChecker] (OrderService.ts 1514-1523), the last step of
    the constructor of [OrderServiceImpl] (126-127). The handle of the timer
    is dropped: nothing clears this timer. *)
Definition startExpirationChecker (r : Runtime) : Runtime :=
  snd (setInterval ExpirationChecker r).

(** The handles in use have been given out: they are below the next one. *)
Definition handles_issued (r : Runtime) : Prop :=
  Forall (fun t => fst t < nextTimer r) (timers r).

(** The fields of the scheduler (OrderScheduler.ts, 10-13). *)
Record Scheduler : Type := {
  intervalId : option Z;
  checkInterval : Z;
  isRunning : bool
}.

(** The scheduler, the runtime with its timers, and the order service the
    scheduler works on. *)
Record SchedulerWorld : Type := {
  scheduler : Scheduler;
  runtime : Runtime;
  service : ServiceState
}.

(** The constructor (15-18). It sets no timer; [r] is the runtime as it is
    by then, with the timer of the order service that is handed in. *)
Definition newScheduler (checkIntervalMinutes : Z) (r : Runtime)
    (s : ServiceState) : SchedulerWorld :=
  {| scheduler :=
       {| intervalId := None; checkInterval := checkIntervalMinutes * 60 * 1000;
          isRunning := false |};
     runtime := r;
     service := s |}.

(** [checkExpiredOrders] (58-74). [checkAndExpireOrders] does not throw, so
    the [catch] branch is not taken; [notifyExpiredOrders] only reads. *)
Definition checkExpiredOrders (now : Z) (w : SchedulerWorld)
    : list string * SchedulerWorld :=
  let '(expiredOrderIds, s) := checkAndExpireOrders now (service w) in
  (expiredOrderIds,
   {| scheduler := scheduler w; runtime := runtime w; service := s |}).

(** [start] (20-41). *)
Definition start (now : Z) (w : SchedulerWorld) : SchedulerWorld :=
  if isRunning (scheduler w) then w
  else
    let w1 := snd (checkExpiredOrders now w) in
    let '(h, r) := setInterval ScheduledCheck (runtime w1) in
    {| scheduler :=
         {| intervalId := Some h;
            checkInterval := checkInterval (scheduler w1);
            isRunning := true |};
       runtime := r;
       service := service w1 |}.

(** [stop] (43-56). *)
Definition stop (w : SchedulerWorld) : SchedulerWorld :=
  if negb (isRunning (scheduler w)) then w
  else
    match intervalId (scheduler w) with
    | Some h =>
        {| scheduler :=
             {| intervalId := None;
                checkInterval := checkInterval (scheduler w);
                isRunning := false |};
           runtime := clearInterval h (runtime w);
           service := service w |}
    | None =>
        {| scheduler :=
             {| intervalId := None;
                checkInterval := checkInterval (scheduler w);
                isRunning := false |};
           runtime := runtime w;
           service := service w |}
    end.

(** The timer with handle [h] fires: its callback runs if the timer is set.
    The callback of the order service (OrderService.ts 1516-1522) sweeps
    the orders; the callback of the scheduler (OrderScheduler.ts 32-38)
    calls [checkExpiredOrders]. *)
Definition tick (h now : Z) (w : SchedulerWorld) : SchedulerWorld :=
  match find (fun t => fst t =? h) (timers (runtime w)) with
  | Some (_, ScheduledCheck) => snd (checkExpiredOrders now w)
  | Some (_, ExpirationChecker) =>
      {| scheduler := scheduler w; runtime := runtime w;
         service := snd (checkAndExpireOrders now (service w)) |}
  | Some (_, OtherCallback) => w
  | None => w
  end.

(** [triggerCheck] (120-123). *)
Definition triggerCheck (now : Z) (w : SchedulerWorld)
    : list string * SchedulerWorld :=
  checkExpiredOrders now w.

(** [getStatus] (112-117). *)
Definition getStatus (w : SchedulerWorld) : bool * Z :=
  (isRunning (scheduler w), checkInterval (scheduler w)).

(** What happens to a scheduler: its methods are called and a timer of the
    runtime fires. *)
Inductive SchedulerEvent : Type :=
  | Start (now : Z)
  | Stop
  | Tick (h now : Z)
  | TriggerCheck (now : Z).

Definition schedule_event (e : SchedulerEvent) (w : SchedulerWorld)
    : SchedulerWorld :=
  match e with
  | Start now => start now w
  | Stop => stop w
  | Tick h now => tick h now w
  | TriggerCheck now => snd (triggerCheck now w)
  end.

Definition schedule (events : list SchedulerEvent) (w : SchedulerWorld)
    : SchedulerWorld :=
  fold_left (fun w e => schedule_event e w) events w.

(** The timer of the scheduler: one while it runs, none when it is
    stopped. *)
Definition own_timer (w : SchedulerWorld) : list (Z * Callback) :=
  match intervalId (scheduler w) with
  | Some h => [(h, ScheduledCheck)]
  | None => []
  end.

(** The runtime holds the timers of [r] and the timer of the scheduler,
    which was given out after those of [r]. *)
Definition one_timer (r : Runtime) (w : SchedulerWorld) : Prop :=
  timers (runtime w) = timers r ++ own_timer w
  /\ isRunning (scheduler w)
     = match intervalId (scheduler w) with
       | Some _ => true
       | None => false
       end
  /\ nextTimer r <= nextTimer (runtime w)
  /\ match intervalId (scheduler w) with
     | Some h => nextTimer r <= h < nextTimer (runtime w)
     | None => True
     end.

(** A runtime in which no timer is set yet. *)
Definition ex_runtime : Runtime := {| timers := []; nextTimer := 1 |}.

Definition ex_schedule : list SchedulerEvent :=
  [Start 100; Start 200; Tick 2 400000; Stop; Stop; Tick 2 500000;
   Start 600000].

(** ** Statistics *)

Record PopularMenuItem : Type := {
  pm_menuItemId : string;
  pm_menuItemName : string;
  pm_orderCount : Z;
  pm_totalQuantity : Z;
  pm_totalRevenue : Z
}.

(** The result of [getOrderStatistics]; [averageOrderSize], a quotient of
    floating-point numbers, is left out. *)
Record OrderStatistics : Type := {
  st_totalOrders : Z;
  st_activeOrders : Z;
  st_closedOrders : Z;
  st_expiredOrders : Z;
  st_totalParticipants : Z;
  st_totalAmount : Z;
  st_popularMenuItems : list PopularMenuItem
}.

(** The inner loop of [getOrderStatistics] (OrderService.ts, 863-878). *)
Definition statistics_breakdown (menuItemStats : JsMap.t PopularMenuItem)
    (breakdown : OrderItemBreakdown) : JsMap.t PopularMenuItem :=
  match JsMap.get (bd_menuItemId breakdown) menuItemStats with
  | Some existing =>
      JsMap.set (bd_menuItemId breakdown)
        {| pm_menuItemId := pm_menuItemId existing;
           pm_menuItemName := pm_menuItemName existing;
           pm_orderCount := pm_orderCount existing + 1;
           pm_totalQuantity :=
             pm_totalQuantity existing + bd_totalQuantity breakdown;
           pm_totalRevenue := pm_totalRevenue existing + bd_totalAmount breakdown |}
        menuItemStats
  | None =>
      JsMap.set (bd_menuItemId breakdown)
        {| pm_menuItemId := bd_menuItemId breakdown;
           pm_menuItemName := bd_menuItemName breakdown;
           pm_orderCount := 1;
           pm_totalQuantity := bd_totalQuantity breakdown;
           pm_totalRevenue := bd_totalAmount breakdown |}
        menuItemStats
  end.

(** The outer loop (858-879). *)
Definition statistics_order (acc : Z * Z * JsMap.t PopularMenuItem)
    (order_ : GroupOrder) : Z * Z * JsMap.t PopularMenuItem :=
  let '(totalParticipants_, totalAmount_, menuItemStats) := acc in
  (totalParticipants_ + Z.of_nat (List.length (participants order_)),
   totalAmount_ + summaryTotalAmount (summary order_),
   fold_left statistics_breakdown (itemBreakdown (summary order_)) menuItemStats).

(** The orders [getOrderStatistics] counts (844-847). *)
Definition statistics_orders (userId_ : option string) (s : ServiceState)
    : list GroupOrder :=
  let allOrders := JsMap.values (orders s) in
  match truthy_value userId_ with
  | Some u => filter (fun order_ => String.eqb (createdBy order_) u) allOrders
  | None => allOrders
  end.

Definition count_status (st : OrderStatus) (l : list GroupOrder) : Z :=
  Z.of_nat (List.length (filter (fun o => OrderStatus_eqb (status o) st) l)).

(** [getOrderStatistics] (843-898). *)
Definition getOrderStatistics (userId_ : option string) (s : ServiceState)
    : OrderStatistics :=
  let filteredOrders := statistics_orders userId_ s in
  let '(totalParticipants_, totalAmount_, menuItemStats) :=
    fold_left statistics_order filteredOrders (0, 0, JsMap.empty) in
  let popularMenuItems :=
    slice 0 10
      (sort_by (fun a b => pm_orderCount b - pm_orderCount a)
         (JsMap.values menuItemStats)) in
  {| st_totalOrders := Z.of_nat (List.length filteredOrders);
     st_activeOrders := count_status active filteredOrders;
     st_closedOrders := count_status closed filteredOrders;
     st_expiredOrders := count_status expired filteredOrders;
     st_totalParticipants := totalParticipants_;
     st_totalAmount := totalAmount_;
     st_popularMenuItems := popularMenuItems |}.

(** Most ordered first. *)
Definition most_ordered_first (l : list PopularMenuItem) : Prop :=
  StronglySorted (fun a b => pm_orderCount b <= pm_orderCount a) l.

(** All rows of the cached breakdowns of the given orders. *)
Definition breakdowns_of_orders (l : list GroupOrder)
    : list OrderItemBreakdown :=
  flat_map (fun o => itemBreakdown (summary o)) l.

(** ** Round trips *)

(** The participant as it is but for [lastModifiedAt]. *)
Definition touched (p : OrderParticipant) (now : Z) : OrderParticipant :=
  with_items p (items p) (totalAmount p) now.

(** The order with new participants at time [now], as the calls store it:
    [updatedAt] moved and the summary recomputed. *)
Definition restored (o : GroupOrder) (ps : list OrderParticipant) (now : Z)
    : GroupOrder :=
  with_summary (with_participants o ps now) (summarize ps now) now.

(** The order of [ex_state_alice], and Bob's request to join it. *)
Definition ex_order_alice : GroupOrder := restored ex_order [ex_alice] 1000.

Definition ex_join_bob : JoinOrderRequest :=
  {| join_orderCode := "123456"; join_nickname := "Bob";
     join_userId := Some "user-b"; join_guestSessionId := None |}.

(** The user manager and guest service of the examples know everybody; the
    nickname rule of the examples wants at least two characters. *)
Definition ex_known (id : string) : bool := true.

Definition ex_nickname_rule (nickname_ : string) : bool :=
  (2 <=? String.length nickname_)%nat.

(** ** The report of an order *)

(** An entry of [participantDetails]; [averageItemPrice], a quotient of
    floating-point numbers, is left out. *)
Record ParticipantReport : Type := {
  rep_participant : OrderParticipant;
  rep_totalItems : Z;
  rep_totalAmount : Z;
  rep_orderHistory : list OrderItem
}.

Inductive TimelineType : Type :=
  | timeline_created | timeline_participant_joined
  | timeline_expired | timeline_closed.

Record OrderTimelineEvent : Type := {
  tl_timestamp : Z;
  tl_type : TimelineType;
  tl_description : string;
  tl_participantId : option string;
  tl_participantName : option string
}.

Record TopSpender : Type := {
  top_participantId : string;
  top_participantName : string;
  top_totalSpent : Z
}.

(** A row of [revenueByCategory], without its percentage. *)
Record CategoryRevenue : Type := {
  cr_category : string;
  cr_amount : Z
}.

(** [averageOrderValue] is left out. *)
Record FinancialBreakdown : Type := {
  fb_totalRevenue : Z;
  fb_topSpendingParticipants : list TopSpender;
  fb_revenueByCategory : list CategoryRevenue
}.

Record OrderReport : Type := {
  report_order : GroupOrder;
  report_summary : OrderSummary;
  report_participantDetails : list ParticipantReport;
  report_timeline : list OrderTimelineEvent;
  report_financialBreakdown : FinancialBreakdown
}.

Definition double_quote : string := String (ascii_of_nat 34) EmptyString.

(** [order.participants.map(...)] (1112-1125). *)
Definition participant_report (participant : OrderParticipant)
    : ParticipantReport :=
  let totalItems_ :=
    fold_left (fun sum item => sum + quantity item) (items participant) 0 in
  {| rep_participant := participant;
     rep_totalItems := totalItems_;
     rep_totalAmount := totalAmount participant;
     rep_orderHistory := items participant |}.

Definition joined_event (participant : OrderParticipant) : OrderTimelineEvent :=
  {| tl_timestamp := joinedAt participant;
     tl_type := timeline_participant_joined;
     tl_description := nickname participant +++ " 加入訂單";
     tl_participantId := Some (participantId participant);
     tl_participantName := Some (nickname participant) |}.

(** The events of the timeline before they are sorted (1128-1154). *)
Definition timeline_events (order_ : GroupOrder) : list OrderTimelineEvent :=
  [ {| tl_timestamp := createdAt order_; tl_type := timeline_created;
       tl_description :=
         "訂單 " +++ double_quote +++ title order_ +++ double_quote +++ " 已建立";
       tl_participantId := None; tl_participantName := None |} ]
  ++ map joined_event (participants order_)
  ++ match closedAt order_ with
     | Some closedAt_ =>
         [ {| tl_timestamp := closedAt_;
              tl_type :=
                if OrderStatus_eqb (status order_) expired
                then timeline_expired else timeline_closed;
              tl_description :=
                if OrderStatus_eqb (status order_) expired
                then "訂單已過期" else "訂單已手動關閉";
              tl_participantId := None; tl_participantName := None |} ]
     | None => []
     end.

(** The loop over the items that fills [categoryMap] (1170-1176). *)
Definition category_item (categoryMap : JsMap.t Z) (item : OrderItem)
    : JsMap.t Z :=
  let category := "一般餐點" in
  JsMap.set category
    (match JsMap.get category categoryMap with
     | Some amount => if amount =? 0 then 0 else amount
     | None => 0
     end + totalPrice item)
    categoryMap.

(** [generateOrderReport] (1105-1199). [participantDetails.sort] sorts the
    array of the report in place. *)
Definition generateOrderReport (orderId_ : string) (s : ServiceState)
    : option OrderReport :=
  match JsMap.get orderId_ (orders s) with
  | None => None
  | Some order_ =>
      let participantDetails := map participant_report (participants order_) in
      let timeline :=
        sort_by (fun a b => tl_timestamp a - tl_timestamp b)
                (timeline_events order_) in
      let participantDetails :=
        sort_by (fun a b =>
                   totalAmount (rep_participant b)
                   - totalAmount (rep_participant a))
                participantDetails in
      let topSpendingParticipants :=
        map (fun detail =>
               {| top_participantId := participantId (rep_participant detail);
                  top_participantName := nickname (rep_participant detail);
                  top_totalSpent := totalAmount (rep_participant detail) |})
            (slice 0 5 participantDetails) in
      let categoryMap :=
        fold_left (fun m participant => fold_left category_item (items participant) m)
                  (participants order_) JsMap.empty in
      let totalRevenue := summaryTotalAmount (summary order_) in
      let revenueByCategory :=
        map (fun e => {| cr_category := fst e; cr_amount := snd e |})
            (JsMap.entries categoryMap) in
      Some {| report_order := order_;
              report_summary := summary order_;
              report_participantDetails := participantDetails;
              report_timeline := timeline;
              report_financialBreakdown :=
                {| fb_totalRevenue := totalRevenue;
                   fb_topSpendingParticipants := topSpendingParticipants;
                   fb_revenueByCategory := revenueByCategory |} |}
  end.

(** Biggest spender first. *)
Definition biggest_spender_first (l : list ParticipantReport) : Prop :=
  StronglySorted
    (fun a b => totalAmount (rep_participant b) <= totalAmount (rep_participant a))
    l.

Definition chronological (l : list OrderTimelineEvent) : Prop :=
  StronglySorted (fun a b => tl_timestamp a <= tl_timestamp b) l.

(** ** ParticipantServiceImpl: who is in an order *)

(** The test the participant service makes on a participant of an order
    (index.ts, 263-267, 293-297, 309-313): the participant has the id, or
    the user id or guest session id of the identity. *)
Definition identity_matches (participantId_ : string)
    (identity_ : ParticipantIdentity) (p : OrderParticipant) : bool :=
  String.eqb (participantId p) participantId_
  || (truthy_string (identityUserId identity_)
        && option_string_eqb (userId p) (identityUserId identity_))
  || (truthy_string (identityGuestSessionId identity_)
        && option_string_eqb (guestSessionId p)
             (identityGuestSessionId identity_)).

(** [isParticipantInOrder] (282-298). *)
Definition isParticipantInOrder (identities : JsMap.t ParticipantIdentity)
    (participantId_ orderId_ : string) (s : ServiceState) : bool :=
  match JsMap.get orderId_ (orders s) with
  | None => false
  | Some order_ =>
      match JsMap.get participantId_ identities with
      | None => false
      | Some identity_ =>
          existsb (identity_matches participantId_ identity_)
                  (participants order_)
      end
  end.

(** [canParticipantModifyOrder] (272-280). *)
Definition canParticipantModifyOrder (identities : JsMap.t ParticipantIdentity)
    (participantId_ : string) (order_ : GroupOrder) (s : ServiceState) : bool :=
  if negb (OrderStatus_eqb (status order_) active)
     || negb (allowModification (settings order_))
  then false
  else isParticipantInOrder identities participantId_ (orderId order_) s.

(** [getParticipantOrderHistory] (300-322). *)
Definition getParticipantOrderHistory (identities : JsMap.t ParticipantIdentity)
    (participantId_ : string) (s : ServiceState) : list GroupOrder :=
  match JsMap.get participantId_ identities with
  | None => []
  | Some identity_ =>
      let participantOrders :=
        filter (fun order_ =>
                  existsb (identity_matches participantId_ identity_)
                          (participants order_))
               (JsMap.values (orders s)) in
      sort_by (fun a b => createdAt b - createdAt a) participantOrders
  end.

(** Latest created first. *)
Definition created_first (l : list GroupOrder) : Prop :=
  StronglySorted (fun a b => createdAt b <= createdAt a) l.

Definition ex_identities_alice : JsMap.t ParticipantIdentity :=
  [("identity-a",
    {| identityId := "identity-a"; identityUserId := Some "user-a";
       identityGuestSessionId := None |})].
(** * Properties *)

(** ** Maps *)

Module JsMapFacts.
Import JsMap.

Lemma get_set_same {V} (k : string) (v : V) (m : t V) :
  get k (set k v m) = Some v.
Proof.
  induction m as [|[k' v'] r IH]; simpl.
  - now rewrite String.eqb_refl.
  - destruct (String.eqb k k') eqn:E; simpl; rewrite ?E, ?String.eqb_refl; auto.
Qed.

Lemma get_set_other {V} (k k0 : string) (v : V) (m : t V) :
  k0 <> k -> get k0 (set k v m) = get k0 m.
Proof.
  intros Hne. induction m as [|[k' v'] r IH]; simpl.
  - destruct (String.eqb k0 k) eqn:E; auto.
    apply String.eqb_eq in E; contradiction.
  - destruct (String.eqb k k') eqn:E; simpl.
    + apply String.eqb_eq in E; subst k'.
      destruct (String.eqb k0 k) eqn:E0; auto.
      apply String.eqb_eq in E0; contradiction.
    + destruct (String.eqb k0 k'); auto.
Qed.

Lemma get_delete_same {V} (k : string) (m : t V) : get k (delete k m) = None.
Proof.
  unfold delete. induction m as [|[k' v'] r IH]; simpl; auto.
  destruct (String.eqb k k') eqn:E; simpl; auto. now rewrite E.
Qed.

Lemma get_delete_other {V} (k k0 : string) (m : t V) :
  k0 <> k -> get k0 (delete k m) = get k0 m.
Proof.
  intros Hne. unfold delete. induction m as [|[k' v'] r IH]; simpl; auto.
  destruct (String.eqb k k') eqn:E; simpl.
  - apply String.eqb_eq in E; subst k'.
    destruct (String.eqb k0 k) eqn:E0; auto.
    apply String.eqb_eq in E0; contradiction.
  - destruct (String.eqb k0 k'); auto.
Qed.

Lemma get_In {V} (k : string) (v : V) (m : t V) :
  get k m = Some v -> In (k, v) m.
Proof.
  induction m as [|[k' v'] r IH]; simpl; [discriminate|].
  destruct (String.eqb k k') eqn:E.
  - apply String.eqb_eq in E; subst. intros [= ->]. now left.
  - intros H. right. auto.
Qed.

(** A property of all the values survives [set] and [delete]. *)
Lemma Forall_set {V} (P : V -> Prop) (k : string) (v : V) (m : t V) :
  Forall (fun e => P (snd e)) m -> P v ->
  Forall (fun e => P (snd e)) (set k v m).
Proof.
  intros Hm Hv. induction m as [|[k' v'] r IH]; simpl.
  - constructor; auto.
  - inversion Hm; subst. destruct (String.eqb k k'); constructor; auto.
Qed.

Lemma Forall_delete {V} (P : V -> Prop) (k : string) (m : t V) :
  Forall (fun e => P (snd e)) m -> Forall (fun e => P (snd e)) (delete k m).
Proof.
  intros Hm. unfold delete. induction Hm; simpl; auto.
  destruct (negb (String.eqb k (fst x))); auto.
Qed.

Lemma Forall_get {V} (P : V -> Prop) (k : string) (v : V) (m : t V) :
  Forall (fun e => P (snd e)) m -> get k m = Some v -> P v.
Proof.
  intros Hm Hg. apply get_In in Hg.
  rewrite Forall_forall in Hm. exact (Hm _ Hg).
Qed.


End JsMapFacts.

(** ** Arrays *)

Lemma Forall_assign_index {A} (P : A -> Prop) (i : nat) (x : A) (l : list A) :
  Forall P l -> P x -> Forall P (assign_index i x l).
Proof.
  intros Hl Hx. revert i. induction Hl; intros [|i]; simpl; auto.
Qed.

Lemma Forall_splice_one {A} (P : A -> Prop) (i : nat) (l : list A) :
  Forall P l -> Forall P (splice_one i l).
Proof.
  intros Hl. revert i. induction Hl; intros [|i]; simpl; auto.
Qed.

Lemma Forall_nth_error {A} (P : A -> Prop) (i : nat) (x : A) (l : list A) :
  Forall P l -> nth_error l i = Some x -> P x.
Proof.
  intros Hl Hn. apply nth_error_In in Hn. rewrite Forall_forall in Hl. auto.
Qed.

Lemma findIndex_nth_error {A} (f : A -> bool) (l : list A) (i : nat) :
  findIndex f l = Some i -> exists x, nth_error l i = Some x /\ f x = true.
Proof.
  revert i. induction l as [|y r IH]; simpl; intros i H; [discriminate|].
  destruct (f y) eqn:E.
  - injection H as <-. exists y. auto.
  - destruct (findIndex f r) as [j|]; simpl in H; [|discriminate].
    injection H as <-. destruct (IH j eq_refl) as (x & Hx & Hf).
    exists x. auto.
Qed.

Lemma findIndex_none {A} (f : A -> bool) (l : list A) :
  findIndex f l = None <-> List.find f l = None.
Proof.
  induction l as [|y r IH]; simpl; [tauto|].
  destruct (f y); [split; discriminate|].
  destruct (findIndex f r); simpl; split; intros H; try discriminate; auto.
  - apply IH in H. discriminate.
  - tauto.
Qed.

(** ** Sums *)

Lemma fold_left_sum {A} (f : A -> Z) (l : list A) (a : Z) :
  fold_left (fun acc x => acc + f x) l a = a + sum_of f l.
Proof.
  revert a. induction l as [|x r IH]; intros a; simpl; [lia|].
  rewrite IH. lia.
Qed.

Lemma sum_of_app {A} (f : A -> Z) (l1 l2 : list A) :
  sum_of f (l1 ++ l2) = sum_of f l1 + sum_of f l2.
Proof.
  induction l1 as [|x r IH]; simpl; [reflexivity|]. rewrite IH. lia.
Qed.

Lemma reduce_totalPrice_sum (its : list OrderItem) :
  reduce_totalPrice its = sum_of totalPrice its.
Proof. unfold reduce_totalPrice. now rewrite fold_left_sum. Qed.

Lemma price_loop_sum (unitPrice q : Z) (cs : list OrderItemCustomization) :
  price_loop unitPrice q cs = (unitPrice + sum_of priceModifier cs) * q.
Proof.
  unfold price_loop, price_loop_with.
  rewrite (fold_left_sum (fun m => m * q)).
  induction cs as [|c r IH]; simpl; lia.
Qed.

(** ** The summary is recomputed from the participants *)

Lemma summary_participant_total (ps : list OrderParticipant)
    (acc : Z * Z * JsMap.t OrderItemBreakdown) :
  snd (fst (fold_left summary_participant ps acc))
  = snd (fst acc) + sum_of totalAmount ps.
Proof.
  revert acc. induction ps as [|p r IH]; intros [[ti ta] m]; simpl; [lia|].
  rewrite IH. unfold summary_participant.
  destruct (fold_left (summary_item p) (items p) (ti, m)); simpl. lia.
Qed.

Lemma summarize_totalAmount (ps : list OrderParticipant) (now : Z) :
  summaryTotalAmount (summarize ps now) = sum_of totalAmount ps.
Proof.
  unfold summarize.
  pose proof (summary_participant_total ps (0, 0, JsMap.empty)) as H.
  destruct (fold_left summary_participant ps (0, 0, JsMap.empty)) as [[ti ta] m].
  simpl in *. lia.
Qed.

Lemma JsMap_set_set {V} (k : string) (v1 v2 : V) (m : JsMap.t V) :
  JsMap.set k v2 (JsMap.set k v1 m) = JsMap.set k v2 m.
Proof.
  induction m as [|[k' v'] r IH]; simpl.
  - now rewrite String.eqb_refl.
  - destruct (String.eqb k k') eqn:E; simpl.
    + now rewrite String.eqb_refl.
    + rewrite E. now rewrite IH.
Qed.

(** Storing an order and recomputing its summary is one [set] of the order
    with the fresh summary. *)
Lemma store_then_summarize (k : string) (o : GroupOrder) (now : Z)
    (s : ServiceState) :
  snd (calculateOrderSummary k now (set_orders s (JsMap.set k o (orders s))))
  = set_orders s
      (JsMap.set k (with_summary o (summarize (participants o) now) now) (orders s)).
Proof.
  unfold calculateOrderSummary. simpl.
  rewrite JsMapFacts.get_set_same. simpl.
  unfold set_orders. simpl. now rewrite JsMap_set_set.
Qed.

Lemma summarized_consistent (o : GroupOrder) (now : Z) :
  Forall participant_consistent (participants o) ->
  order_consistent (with_summary o (summarize (participants o) now) now).
Proof.
  intros H. split; simpl; auto. apply summarize_totalAmount.
Qed.

Lemma store_consistent_commit (k : string) (o : GroupOrder) (now : Z)
    (s : ServiceState) :
  store_consistent s ->
  Forall participant_consistent (participants o) ->
  store_consistent
    (snd (calculateOrderSummary k now (set_orders s (JsMap.set k o (orders s))))).
Proof.
  intros Hs Ho. rewrite store_then_summarize. unfold store_consistent. simpl.
  apply JsMapFacts.Forall_set; auto. now apply summarized_consistent.
Qed.

Lemma store_consistent_set_modifications (s : ServiceState)
    (m : JsMap.t (list OrderModification)) :
  store_consistent s -> store_consistent (set_modifications s m).
Proof. exact (fun H => H). Qed.

Lemma recordModification_orders (m : ModificationInput) (now : Z) (newId : string)
    (s : ServiceState) :
  orders (snd (recordModification m now newId s)) = orders s.
Proof. reflexivity. Qed.

Lemma store_consistent_orders (s s' : ServiceState) :
  orders s' = orders s -> store_consistent s -> store_consistent s'.
Proof. unfold store_consistent. now intros ->. Qed.

Lemma stored_order_consistent (k : string) (o : GroupOrder) (s : ServiceState) :
  store_consistent s -> JsMap.get k (orders s) = Some o -> order_consistent o.
Proof.
  intros Hs Hg.
  exact (JsMapFacts.Forall_get order_consistent k o (orders s) Hs Hg).
Qed.

Lemma calculateOrderSummary_consistent (k : string) (now : Z) (s : ServiceState) :
  store_consistent s -> store_consistent (snd (calculateOrderSummary k now s)).
Proof.
  intros Hs. unfold calculateOrderSummary.
  destruct (JsMap.get k (orders s)) as [o|] eqn:Hg; simpl; auto.
  apply JsMapFacts.Forall_set; auto.
  apply summarized_consistent. now apply (stored_order_consistent k o s).
Qed.

Lemma createGroupOrder_consistent ms defaults u r now newId newCode s :
  store_consistent s ->
  store_consistent (snd (createGroupOrder ms defaults u r now newId newCode s)).
Proof.
  intros Hs. unfold createGroupOrder.
  repeat break_guard; simpl; auto.
  apply JsMapFacts.Forall_set; auto. split; simpl; auto.
Qed.

Lemma updateOrder_consistent o u r now s :
  keeps_ledger r ->
  store_consistent s -> store_consistent (snd (updateOrder o u r now s)).
Proof.
  intros [Hp Hsm] Hs. unfold updateOrder.
  destruct (JsMap.get o (orders s)) as [ord|] eqn:Hg; simpl; auto.
  destruct (negb (String.eqb (createdBy ord) u)); simpl; auto.
  destruct (negb (OrderStatus_eqb (status ord) active)); simpl; auto.
  apply JsMapFacts.Forall_set; auto. rewrite Hp, Hsm.
  exact (stored_order_consistent o ord s Hs Hg).
Qed.

Lemma closeOrder_consistent o u now s :
  store_consistent s -> store_consistent (snd (closeOrder o u now s)).
Proof.
  intros Hs. unfold closeOrder.
  destruct (JsMap.get o (orders s)) as [ord|] eqn:Hg; simpl; auto.
  repeat break_guard; simpl; auto.
  apply JsMapFacts.Forall_set; auto.
  exact (stored_order_consistent o ord s Hs Hg).
Qed.

Lemma deleteOrder_consistent o u s :
  store_consistent s -> store_consistent (snd (deleteOrder o u s)).
Proof.
  intros Hs. unfold deleteOrder.
  repeat break_guard; simpl; auto.
  now apply JsMapFacts.Forall_delete.
Qed.

Lemma expireOrder_consistent o now s :
  store_consistent s -> store_consistent (snd (expireOrder o now s)).
Proof.
  intros Hs. unfold expireOrder.
  destruct (JsMap.get o (orders s)) as [ord|] eqn:Hg; simpl; auto.
  repeat break_guard; simpl; auto.
  apply JsMapFacts.Forall_set; auto.
  exact (stored_order_consistent o ord s Hs Hg).
Qed.

Lemma checkAndExpireOrders_consistent now s :
  store_consistent s -> store_consistent (snd (checkAndExpireOrders now s)).
Proof.
  unfold checkAndExpireOrders.
  generalize (@nil string). generalize (JsMap.entries (orders s)).
  intros l. revert s. induction l as [|[k o] r IH]; intros s ids Hs; simpl; auto.
  destruct (OrderStatus_eqb (status o) active && deadline_reached o now
            && autoCloseOnDeadline (settings o)).
  - apply IH. now apply expireOrder_consistent.
  - now apply IH.
Qed.

Lemma validateOrderCode_order (c : string) (now : Z) (s : ServiceState)
    (o : GroupOrder) :
  order (validateOrderCode c now s) = Some o ->
  exists oid, JsMap.get c (orderCodeIndex s) = Some oid
              /\ JsMap.get oid (orders s) = Some o.
Proof.
  unfold validateOrderCode.
  destruct (JsMap.get c (orderCodeIndex s)) as [oid|]; [|discriminate].
  destruct (negb (truthy_string (Some oid))); [discriminate|].
  destruct (JsMap.get oid (orders s)) as [o'|] eqn:Hg; [|discriminate].
  intros H. exists oid. split; auto.
  destruct (negb (OrderStatus_eqb (status o') active)); simpl in H;
    [congruence|].
  destruct (deadline_reached o' now); simpl in H; congruence.
Qed.

Lemma joinOrder_validated_consistent ps r now pid mid o s :
  store_consistent s -> Forall participant_consistent (participants o) ->
  store_consistent (snd (joinOrder_validated ps r now pid mid o s)).
Proof.
  intros Hs Ho. unfold joinOrder_validated.
  destruct (participantService_check ps r now o); simpl; auto.
  destruct (find (already_joined r) (participants o)); simpl; auto.
  destruct (capacity_reached o); simpl; auto.
  apply store_consistent_set_modifications.
  apply store_consistent_commit; auto. simpl.
  apply Forall_app. split; auto.
  constructor; auto. reflexivity.
Qed.

Lemma joinOrder_consistent ps r now pid mid s :
  store_consistent s -> store_consistent (snd (joinOrder ps r now pid mid s)).
Proof.
  intros Hs. unfold joinOrder.
  destruct (order (validateOrderCode (join_orderCode r) now s)) as [o|] eqn:Ho;
    simpl; auto.
  destruct (negb (isValid (validateOrderCode (join_orderCode r) now s)));
    simpl; auto.
  destruct (validateOrderCode_order _ _ _ _ Ho) as (oid & _ & Hg).
  apply joinOrder_validated_consistent; auto.
  exact (proj2 (stored_order_consistent oid o s Hs Hg)).
Qed.

Lemma leaveOrder_consistent o p now mid s :
  store_consistent s -> store_consistent (snd (leaveOrder o p now mid s)).
Proof.
  intros Hs. unfold leaveOrder.
  destruct (JsMap.get o (orders s)) as [ord|] eqn:Hg; simpl; auto.
  destruct (findIndex _ (participants ord)) as [i|]; simpl; auto.
  destruct (nth_error (participants ord) i) as [rp|]; simpl; auto.
  apply store_consistent_set_modifications.
  apply store_consistent_commit; auto. simpl.
  apply Forall_splice_one.
  exact (proj2 (stored_order_consistent o ord s Hs Hg)).
Qed.

Lemma addOrderItem_consistent ms o p r now newId s :
  store_consistent s -> store_consistent (snd (addOrderItem ms o p r now newId s)).
Proof.
  intros Hs. unfold addOrderItem.
  destruct (JsMap.get o (orders s)) as [ord|] eqn:Hg; simpl; auto.
  destruct (negb (OrderStatus_eqb (status ord) active)); simpl; auto.
  destruct (negb (allowModification (settings ord))); simpl; auto.
  destruct (findIndex _ (participants ord)) as [i|]; simpl; auto.
  destruct (getMenuById ms (menuId ord)) as [menu|]; simpl; auto.
  destruct (find _ (menu_items menu)) as [mi|]; simpl; auto.
  destruct (negb (isAvailable mi)); simpl; auto.
  destruct (nth_error (participants ord) i) as [pt|] eqn:Hn; simpl; auto.
  pose proof (proj2 (stored_order_consistent o ord s Hs Hg)) as Hps.
  apply store_consistent_commit; auto. simpl.
  apply Forall_assign_index; auto.
  pose proof (Forall_nth_error _ _ _ _ Hps Hn) as Hp.
  unfold participant_consistent in *. simpl.
  rewrite sum_of_app, Hp. simpl. lia.
Qed.

Lemma updateOrderItem_consistent o p i r now s :
  store_consistent s -> store_consistent (snd (updateOrderItem o p i r now s)).
Proof.
  intros Hs. unfold updateOrderItem.
  destruct (JsMap.get o (orders s)) as [ord|] eqn:Hg; simpl; auto.
  destruct (negb (OrderStatus_eqb (status ord) active)); simpl; auto.
  destruct (negb (allowModification (settings ord))); simpl; auto.
  destruct (findIndex _ (participants ord)) as [pi|]; simpl; auto.
  destruct (nth_error (participants ord) pi) as [pt|] eqn:Hn; simpl; auto.
  destruct (findIndex _ (items pt)) as [ii|]; simpl; auto.
  destruct (nth_error (items pt) ii) as [it|]; simpl; auto.
  pose proof (proj2 (stored_order_consistent o ord s Hs Hg)) as Hps.
  apply store_consistent_commit; auto. simpl.
  apply Forall_assign_index; auto.
  unfold participant_consistent. simpl. apply reduce_totalPrice_sum.
Qed.

Lemma removeOrderItem_consistent o p i now s :
  store_consistent s -> store_consistent (snd (removeOrderItem o p i now s)).
Proof.
  intros Hs. unfold removeOrderItem.
  destruct (JsMap.get o (orders s)) as [ord|] eqn:Hg; simpl; auto.
  destruct (negb (OrderStatus_eqb (status ord) active)); simpl; auto.
  destruct (negb (allowModification (settings ord))); simpl; auto.
  destruct (findIndex _ (participants ord)) as [pi|]; simpl; auto.
  destruct (nth_error (participants ord) pi) as [pt|] eqn:Hn; simpl; auto.
  destruct (findIndex _ (items pt)) as [ii|]; simpl; auto.
  pose proof (proj2 (stored_order_consistent o ord s Hs Hg)) as Hps.
  apply store_consistent_commit; auto. simpl.
  apply Forall_assign_index; auto.
  unfold participant_consistent. simpl. apply reduce_totalPrice_sum.
Qed.

Lemma addOrderItemWithHistory_consistent ms o p r now newId mid s :
  store_consistent s ->
  store_consistent (snd (addOrderItemWithHistory ms o p r now newId mid s)).
Proof.
  intros Hs. unfold addOrderItemWithHistory.
  destruct (negb (canModify (checkModificationPermission o p now s))); auto.
  pose proof (addOrderItem_consistent ms o p r now newId s Hs) as H.
  destruct (addOrderItem ms o p r now newId s) as [[item|] s1]; simpl in *; auto.
  destruct (find_participant o p s1); simpl; auto.
Qed.

Lemma updateOrderItemWithHistory_consistent o p i r now mid s :
  store_consistent s ->
  store_consistent (snd (updateOrderItemWithHistory o p i r now mid s)).
Proof.
  intros Hs. unfold updateOrderItemWithHistory.
  destruct (negb (canModify (checkModificationPermission o p now s))); auto.
  pose proof (updateOrderItem_consistent o p i r now s Hs) as H.
  destruct (updateOrderItem o p i r now s) as [[item|] s1]; simpl in *; auto.
  destruct (find_participant o p s) as [pt|]; simpl; auto.
  destruct (find _ (items pt)); simpl; auto.
Qed.

Lemma removeOrderItemWithHistory_consistent o p i now mid s :
  store_consistent s ->
  store_consistent (snd (removeOrderItemWithHistory o p i now mid s)).
Proof.
  intros Hs. unfold removeOrderItemWithHistory.
  destruct (negb (canModify (checkModificationPermission o p now s))); auto.
  pose proof (removeOrderItem_consistent o p i now s Hs) as H.
  destruct (removeOrderItem o p i now s) as [[|] s1]; simpl in *; auto.
  destruct (find_participant o p s) as [pt|]; simpl; auto.
  destruct (find _ (items pt)); simpl; auto.
Qed.

Lemma getOrderModificationHistory_consistent o s :
  store_consistent s -> store_consistent (snd (getOrderModificationHistory o s)).
Proof.
  intros Hs. unfold getOrderModificationHistory.
  destruct (JsMap.get o (modifications s)); simpl; auto.
Qed.

Lemma run_operation_consistent (participantService : option ParticipantService)
    (op : Operation) (s : ServiceState) :
  store_consistent s ->
  store_consistent (run_operation participantService op s).
Proof.
  intros Hs. destruct op; simpl.
  - now apply createGroupOrder_consistent.
  - apply updateOrder_consistent; [split; reflexivity|assumption].
  - now apply closeOrder_consistent.
  - now apply deleteOrder_consistent.
  - now apply expireOrder_consistent.
  - now apply checkAndExpireOrders_consistent.
  - now apply joinOrder_consistent.
  - now apply leaveOrder_consistent.
  - now apply addOrderItem_consistent.
  - now apply updateOrderItem_consistent.
  - now apply removeOrderItem_consistent.
  - now apply addOrderItemWithHistory_consistent.
  - now apply updateOrderItemWithHistory_consistent.
  - now apply removeOrderItemWithHistory_consistent.
  - now apply calculateOrderSummary_consistent.
  - now apply getOrderModificationHistory_consistent.
Qed.

(** Every state the service reaches from its initial state is consistent. *)
Lemma reachable_store_consistent (participantService : option ParticipantService)
    (ops : list Operation) :
  store_consistent (run participantService ops initialState).
Proof.
  unfold run.
  assert (H : store_consistent initialState) by constructor.
  revert H. generalize initialState.
  induction ops as [|op r IH]; intros s Hs; simpl; auto.
  apply IH. now apply run_operation_consistent.
Qed.

(** C1. After every call that changes an order ([joinOrder], [leaveOrder],
    [addOrderItem], [updateOrderItem], [removeOrderItem], and every other
    method of the service as well), every order of the store has
    [summary.totalAmount] equal to the sum of its participants'
    [totalAmount], and every participant's [totalAmount] equal to the sum
    of the [totalPrice] of the participant's items, given that this held
    before the call. *)
Theorem totals_stay_consistent (participantService : option ParticipantService)
    (op : Operation) (s : ServiceState) :
  store_consistent s ->
  store_consistent (run_operation participantService op s).
Proof. apply run_operation_consistent. Qed.

Lemma totals_stay_consistent_witness :
  store_consistent ex_state_tea
  /\ store_consistent
       (run_operation None
          (AddOrderItem ex_menuService "order-1" "p-alice" (ex_add "Y" 3) 3000 "item-2")
          ex_state_tea).
Proof.
  split.
  - unfold store_consistent. vm_compute. repeat constructor.
  - apply (totals_stay_consistent None
             (AddOrderItem ex_menuService "order-1" "p-alice" (ex_add "Y" 3) 3000 "item-2")
             ex_state_tea).
    unfold store_consistent. vm_compute. repeat constructor.
Defined.

(** ** Item prices *)

Lemma In_assign_index {A} (i : nat) (x y : A) (l : list A) :
  nth_error l i = Some y -> In x (assign_index i x l).
Proof.
  revert i. induction l as [|z r IH]; intros [|i]; simpl; try discriminate.
  - now left.
  - intros H. right. eauto.
Qed.

Lemma findIndex_participant (pid : string) (ps : list OrderParticipant)
    (i : nat) (p : OrderParticipant) :
  findIndex (fun p => String.eqb (participantId p) pid) ps = Some i ->
  nth_error ps i = Some p -> participantId p = pid.
Proof.
  intros Hf Hn. destruct (findIndex_nth_error _ _ _ Hf) as (x & Hx & Hp).
  rewrite Hn in Hx. injection Hx as ->. now apply String.eqb_eq.
Qed.

Lemma addOrderItem_created ms oid pid req now newId s item :
  fst (addOrderItem ms oid pid req now newId s) = Some item ->
  totalPrice item = looped_totalPrice item
  /\ quantity item = add_quantity req
  /\ (exists o menu menuItem,
        JsMap.get oid (orders s) = Some o
        /\ getMenuById ms (menuId o) = Some menu
        /\ find (fun mi => String.eqb (mi_id mi) (add_menuItemId req))
                (menu_items menu) = Some menuItem
        /\ basePrice item = price menuItem)
  /\ stored_item oid pid item (snd (addOrderItem ms oid pid req now newId s)).
Proof.
  unfold addOrderItem.
  destruct (JsMap.get oid (orders s)) as [ord|] eqn:Hg; simpl; [|discriminate].
  destruct (negb (OrderStatus_eqb (status ord) active)); simpl; [discriminate|].
  destruct (negb (allowModification (settings ord))); simpl; [discriminate|].
  destruct (findIndex _ (participants ord)) as [i|] eqn:Hi; simpl; [|discriminate].
  destruct (getMenuById ms (menuId ord)) as [menu|] eqn:Hm; simpl; [|discriminate].
  destruct (find _ (menu_items menu)) as [mi|] eqn:Hmi; simpl; [|discriminate].
  destruct (negb (isAvailable mi)); simpl; [discriminate|].
  destruct (nth_error (participants ord) i) as [pt|] eqn:Hn; simpl; [|discriminate].
  intros [= <-]. repeat split.
  - unfold looped_totalPrice. simpl.
    now destruct (add_customizations req).
  - exists ord, menu, mi. auto.
  - rewrite store_then_summarize. unfold stored_item. simpl.
    rewrite JsMapFacts.get_set_same.
    eexists. eexists. split; [reflexivity|]. simpl. split; [|split].
    + eapply In_assign_index; eauto.
    + simpl. eapply findIndex_participant; eauto.
    + simpl. apply in_or_app. right. now left.
Qed.

Lemma updateOrderItem_recomputed oid pid iid req now s item :
  fst (updateOrderItem oid pid iid req now s) = Some item ->
  totalPrice item = looped_totalPrice item
  /\ (exists existingItem,
        stored_item oid pid existingItem s
        /\ itemId existingItem = iid
        /\ basePrice item = basePrice existingItem
        /\ quantity item =
             match upd_quantity req with
             | Some q => q
             | None => quantity existingItem
             end)
  /\ stored_item oid pid item (snd (updateOrderItem oid pid iid req now s)).
Proof.
  unfold updateOrderItem.
  destruct (JsMap.get oid (orders s)) as [ord|] eqn:Hg; simpl; [|discriminate].
  destruct (negb (OrderStatus_eqb (status ord) active)); simpl; [discriminate|].
  destruct (negb (allowModification (settings ord))); simpl; [discriminate|].
  destruct (findIndex _ (participants ord)) as [i|] eqn:Hi; simpl; [|discriminate].
  destruct (nth_error (participants ord) i) as [pt|] eqn:Hn; simpl; [|discriminate].
  destruct (findIndex _ (items pt)) as [j|] eqn:Hj; simpl; [|discriminate].
  destruct (nth_error (items pt) j) as [it|] eqn:Hit; simpl; [|discriminate].
  intros [= <-]. split; [reflexivity|split].
  - exists it. repeat split; auto.
    + exists ord, pt. repeat split; auto.
      * eapply nth_error_In; eauto.
      * eapply findIndex_participant; eauto.
      * eapply nth_error_In; eauto.
    + destruct (findIndex_nth_error _ _ _ Hj) as (x & Hx & Hp).
      rewrite Hit in Hx. injection Hx as ->. now apply String.eqb_eq.
  - rewrite store_then_summarize. unfold stored_item. simpl.
    rewrite JsMapFacts.get_set_same.
    eexists. eexists. split; [reflexivity|]. simpl. split; [|split].
    + eapply In_assign_index; eauto.
    + simpl. eapply findIndex_participant; eauto.
    + simpl. eapply In_assign_index; eauto.
Qed.

(** Over the integers the price loop gives the price of the
    specification. *)
Lemma looped_totalPrice_specified (item : OrderItem) :
  looped_totalPrice item = specified_totalPrice item.
Proof. unfold looped_totalPrice. apply price_loop_sum. Qed.

(** C9, as stated, fails in the arithmetic of the code. For a menu item of
    2.5 with one customization of 0.3, ordered three times, the price loop
    gives 2.5 x 3 + 0.3 x 3 = 8.4 and the formula of the specification
    (2.5 + 0.3) x 3 = 8.399999999999999. *)
Lemma price_loop_differs_from_specified_price :
  Double.price_loop Double.ex_price Double.ex_quantity [Double.ex_modifier]
  = Double.ex_looped
  /\ Double.specified_price Double.ex_price Double.ex_quantity
       [Double.ex_modifier]
     = Double.ex_specified
  /\ PrimFloat.eqb Double.ex_looped Double.ex_specified = false.
Proof. repeat split; vm_compute; reflexivity. Qed.

(** C9, amended. An item created by [addOrderItem] or recomputed by
    [updateOrderItem] has the [totalPrice] that the price loop computes from
    the item's own base price, quantity and customizations:
    basePrice x quantity, to which modifier x quantity is added for each
    customization in turn. This is (basePrice + sum of the modifiers) x
    quantity when the amounts and the quantity are integers within the range
    in which doubles are exact, and can differ from it in the last digit
    otherwise. The item is the one stored for the participant. On creation
    [basePrice] is the catalogue price of the menu item at that moment; an
    update keeps the [basePrice] of the stored item and does not read the
    catalogue. *)
Theorem item_totalPrice_formula ms oid pid iid reqA reqU now newId s created updated :
  (fst (addOrderItem ms oid pid reqA now newId s) = Some created ->
   totalPrice created
   = price_loop (basePrice created) (quantity created) (customizations created)
   /\ (exact_amounts created -> totalPrice created = specified_totalPrice created)
   /\ stored_item oid pid created (snd (addOrderItem ms oid pid reqA now newId s))
   /\ exists o menu menuItem,
        JsMap.get oid (orders s) = Some o
        /\ getMenuById ms (menuId o) = Some menu
        /\ find (fun mi => String.eqb (mi_id mi) (add_menuItemId reqA))
                (menu_items menu) = Some menuItem
        /\ basePrice created = price menuItem)
  /\ (fst (updateOrderItem oid pid iid reqU now s) = Some updated ->
      totalPrice updated
      = price_loop (basePrice updated) (quantity updated) (customizations updated)
      /\ (exact_amounts updated -> totalPrice updated = specified_totalPrice updated)
      /\ stored_item oid pid updated (snd (updateOrderItem oid pid iid reqU now s))
      /\ exists existingItem,
           stored_item oid pid existingItem s
           /\ itemId existingItem = iid
           /\ basePrice updated = basePrice existingItem).
Proof.
  split; intros H.
  - destruct (addOrderItem_created _ _ _ _ _ _ _ _ H) as (H1 & _ & H3 & H4).
    split; [exact H1|]. split; [|split; auto].
    intros _. rewrite H1. apply looped_totalPrice_specified.
  - destruct (updateOrderItem_recomputed _ _ _ _ _ _ _ H) as (H1 & H2 & H3).
    split; [exact H1|]. split; [|split; auto].
    + intros _. rewrite H1. apply looped_totalPrice_specified.
    + destruct H2 as (e & He1 & He2 & He3 & _). exists e. auto.
Qed.

Lemma item_totalPrice_formula_witness :
  (fst (addOrderItem ex_menuService "order-1" "p-alice" ex_add_cakes 3000 "item-2"
          ex_state_tea) = Some ex_created
   /\ exact_amounts ex_created
   /\ totalPrice ex_created = specified_totalPrice ex_created)
  /\ (fst (updateOrderItem "order-1" "p-alice" "item-1" ex_update_five 3000
             ex_state_tea) = Some ex_updated
      /\ exact_amounts ex_updated
      /\ totalPrice ex_updated = specified_totalPrice ex_updated).
Proof.
  destruct (item_totalPrice_formula ex_menuService "order-1" "p-alice" "item-1"
              ex_add_cakes ex_update_five 3000 "item-2" ex_state_tea
              ex_created ex_updated) as [HA HU].
  assert (EA : exact_amounts ex_created) by (vm_compute; discriminate).
  assert (EU : exact_amounts ex_updated) by (vm_compute; discriminate).
  split; split.
  - vm_compute. reflexivity.
  - split; [exact EA|].
    refine (proj1 (proj2 (HA _)) EA). vm_compute. reflexivity.
  - vm_compute. reflexivity.
  - split; [exact EU|].
    refine (proj1 (proj2 (HU _)) EU). vm_compute. reflexivity.
Defined.

(** ** The expiration sweep *)








(** ** The life cycle *)

Lemma Forall_set_entry {V} (P : string * V -> Prop) (k : string) (v : V)
    (m : JsMap.t V) :
  Forall P m -> P (k, v) -> Forall P (JsMap.set k v m).
Proof.
  intros Hm Hv. induction m as [|[k' v'] r IH]; simpl.
  - constructor; auto.
  - inversion Hm; subst. destruct (String.eqb k k'); constructor; auto.
Qed.

Lemma Forall_delete_entry {V} (P : string * V -> Prop) (k : string)
    (m : JsMap.t V) :
  Forall P m -> Forall P (JsMap.delete k m).
Proof.
  intros Hm. unfold JsMap.delete. induction Hm; simpl; auto.
  destruct (negb (String.eqb k (fst x))); auto.
Qed.

Lemma well_keyed_get (k : string) (o : GroupOrder) (s : ServiceState) :
  well_keyed s -> JsMap.get k (orders s) = Some o -> orderId o = k.
Proof.
  intros Hw Hg. apply JsMapFacts.get_In in Hg.
  unfold well_keyed in Hw. rewrite Forall_forall in Hw. exact (Hw _ Hg).
Qed.

Lemma status_step_refl (a : option OrderStatus) : status_step a a.
Proof. destruct a as [[| |]|]; simpl; auto. Qed.

Lemma status_step_trans (a b c : option OrderStatus) :
  status_step a b -> status_step b c -> status_step a c.
Proof.
  destruct a as [[| |]|]; simpl; auto.
  - intros [->| ->]; simpl; intros; subst; auto.
  - intros [->| ->]; simpl; intros; subst; auto.
  - intros ->. simpl. auto.
Qed.

Section LifeCycle.

(** The id under which the order is followed. *)
Variable k : string.

Lemma evolves_refl s : evolves k s s.
Proof. intros Hw. split; auto. apply status_step_refl. Qed.

Lemma evolves_trans s1 s2 s3 :
  evolves k s1 s2 -> evolves k s2 s3 -> evolves k s1 s3.
Proof.
  intros H12 H23 Hw. destruct (H12 Hw) as [Ha Hw2].
  destruct (H23 Hw2) as [Hb Hw3]. split; auto.
  eapply status_step_trans; eauto.
Qed.

Lemma evolves_set oid o o' s :
  JsMap.get oid (orders s) = Some o ->
  orderId o' = oid ->
  status o' = status o \/ status o = active ->
  evolves k s (set_orders s (JsMap.set oid o' (orders s))).
Proof.
  intros Hg Hid Hst Hw. split.
  - unfold status_at. simpl. destruct (string_dec k oid) as [->|Hne].
    + rewrite JsMapFacts.get_set_same, Hg. simpl.
      destruct Hst as [->| ->]; simpl; auto.
      destruct (status o); simpl; auto.
    + rewrite JsMapFacts.get_set_other; auto. apply status_step_refl.
  - unfold well_keyed. simpl. apply Forall_set_entry; auto.
Qed.

Lemma evolves_set_modifications s m : evolves k s (set_modifications s m).
Proof. intros Hw. split; auto. apply status_step_refl. Qed.

(** Store an order with the same id and status, then recompute its summary. *)
Lemma evolves_commit oid o o' now s :
  JsMap.get oid (orders s) = Some o ->
  orderId o' = oid ->
  status o' = status o ->
  evolves k s
    (snd (calculateOrderSummary oid now (set_orders s (JsMap.set oid o' (orders s))))).
Proof.
  intros Hg Hid Hst. rewrite store_then_summarize.
  apply evolves_set with (o := o); auto.
Qed.

Lemma calculateOrderSummary_evolves oid now s :
  evolves k s (snd (calculateOrderSummary oid now s)).
Proof.
  unfold calculateOrderSummary.
  destruct (JsMap.get oid (orders s)) as [o|] eqn:Hg; simpl.
  - intros Hw. apply (evolves_set oid o); auto. simpl.
    now apply (well_keyed_get oid o s).
  - apply evolves_refl.
Qed.

Lemma createGroupOrder_evolves ms defaults u r now newId newCode s :
  String.eqb newId k = false ->
  evolves k s (snd (createGroupOrder ms defaults u r now newId newCode s)).
Proof.
  intros Hk. unfold createGroupOrder.
  destruct (getMenuById ms (create_menuId r)); simpl; [|apply evolves_refl].
  destruct (negb (canUserViewMenu ms (create_menuId r) u)); simpl;
    [apply evolves_refl|].
  intros Hw. split.
  - unfold status_at. simpl. apply String.eqb_neq in Hk.
    rewrite JsMapFacts.get_set_other; auto. apply status_step_refl.
  - unfold well_keyed. simpl. apply Forall_set_entry; auto.
Qed.

Lemma updateOrder_evolves oid u r now s :
  evolves k s (snd (updateOrder oid u r now s)).
Proof.
  unfold updateOrder.
  destruct (JsMap.get oid (orders s)) as [o|] eqn:Hg; simpl; [|apply evolves_refl].
  destruct (negb (String.eqb (createdBy o) u)); simpl; [apply evolves_refl|].
  destruct (negb (OrderStatus_eqb (status o) active)) eqn:Hst; simpl;
    [apply evolves_refl|].
  apply (evolves_set oid o); auto.
  right. destruct (status o); auto; discriminate.
Qed.

Lemma closeOrder_evolves oid u now s :
  evolves k s (snd (closeOrder oid u now s)).
Proof.
  unfold closeOrder.
  destruct (JsMap.get oid (orders s)) as [o|] eqn:Hg; simpl; [|apply evolves_refl].
  destruct (negb (String.eqb (createdBy o) u)); simpl; [apply evolves_refl|].
  destruct (status o) eqn:Hst; simpl; try apply evolves_refl.
  intros Hw. apply (evolves_set oid o); auto. simpl.
  now apply (well_keyed_get oid o s).
Qed.

Lemma expireOrder_evolves oid now s :
  evolves k s (snd (expireOrder oid now s)).
Proof.
  unfold expireOrder.
  destruct (JsMap.get oid (orders s)) as [o|] eqn:Hg; simpl; [|apply evolves_refl].
  destruct (status o) eqn:Hst; simpl; try apply evolves_refl.
  intros Hw. apply (evolves_set oid o); auto. simpl.
  now apply (well_keyed_get oid o s).
Qed.

Lemma deleteOrder_evolves oid u s :
  evolves k s (snd (deleteOrder oid u s)).
Proof.
  unfold deleteOrder.
  destruct (JsMap.get oid (orders s)) as [o|] eqn:Hg; simpl; [|apply evolves_refl].
  destruct (negb (String.eqb (createdBy o) u)); simpl; [apply evolves_refl|].
  intros Hw. split.
  - unfold status_at. simpl. destruct (string_dec k oid) as [->|Hne].
    + rewrite JsMapFacts.get_delete_same. simpl.
      destruct (JsMap.get oid (orders s)) as [o0|]; simpl; auto.
      destruct (status o0); simpl; auto.
    + rewrite JsMapFacts.get_delete_other; auto. apply status_step_refl.
  - unfold well_keyed. simpl. now apply Forall_delete_entry.
Qed.

Lemma checkAndExpireOrders_evolves now s :
  evolves k s (snd (checkAndExpireOrders now s)).
Proof.
  unfold checkAndExpireOrders.
  generalize (@nil string). generalize (JsMap.entries (orders s)).
  intros l. revert s. induction l as [|[k' o'] r IH]; intros s ids; simpl.
  - apply evolves_refl.
  - destruct (OrderStatus_eqb (status o') active && deadline_reached o' now
              && autoCloseOnDeadline (settings o')).
    + eapply evolves_trans; [apply expireOrder_evolves|apply IH].
    + apply IH.
Qed.

Lemma joinOrder_evolves ps r now pid mid s :
  evolves k s (snd (joinOrder ps r now pid mid s)).
Proof.
  unfold joinOrder.
  destruct (order (validateOrderCode (join_orderCode r) now s)) as [o|] eqn:Ho;
    simpl; [|apply evolves_refl].
  destruct (negb (isValid (validateOrderCode (join_orderCode r) now s)));
    simpl; [apply evolves_refl|].
  destruct (validateOrderCode_order _ _ _ _ Ho) as (oid & _ & Hg).
  unfold joinOrder_validated.
  destruct (participantService_check ps r now o); simpl; [apply evolves_refl|].
  destruct (find (already_joined r) (participants o)); simpl; [apply evolves_refl|].
  destruct (capacity_reached o); simpl; [apply evolves_refl|].
  intros Hw. pose proof (well_keyed_get oid o s Hw Hg) as Hid.
  revert Hw. eapply evolves_trans; [|apply evolves_set_modifications].
  rewrite Hid. apply (evolves_commit oid o); auto.
Qed.

Lemma leaveOrder_evolves oid p now mid s :
  evolves k s (snd (leaveOrder oid p now mid s)).
Proof.
  unfold leaveOrder.
  destruct (JsMap.get oid (orders s)) as [o|] eqn:Hg; simpl; [|apply evolves_refl].
  destruct (findIndex _ (participants o)) as [i|]; simpl; [|apply evolves_refl].
  destruct (nth_error (participants o) i) as [rp|]; simpl; [|apply evolves_refl].
  intros Hw. pose proof (well_keyed_get oid o s Hw Hg) as Hid.
  revert Hw. eapply evolves_trans; [|apply evolves_set_modifications].
  apply (evolves_commit oid o); auto.
Qed.

Lemma addOrderItem_evolves ms oid p r now newId s :
  evolves k s (snd (addOrderItem ms oid p r now newId s)).
Proof.
  unfold addOrderItem.
  destruct (JsMap.get oid (orders s)) as [o|] eqn:Hg; simpl; [|apply evolves_refl].
  destruct (negb (OrderStatus_eqb (status o) active)); simpl; [apply evolves_refl|].
  destruct (negb (allowModification (settings o))); simpl; [apply evolves_refl|].
  destruct (findIndex _ (participants o)) as [i|]; simpl; [|apply evolves_refl].
  destruct (getMenuById ms (menuId o)) as [menu|]; simpl; [|apply evolves_refl].
  destruct (find _ (menu_items menu)) as [mi|]; simpl; [|apply evolves_refl].
  destruct (negb (isAvailable mi)); simpl; [apply evolves_refl|].
  destruct (nth_error (participants o) i) as [pt|]; simpl; [|apply evolves_refl].
  intros Hw. pose proof (well_keyed_get oid o s Hw Hg) as Hid.
  revert Hw. apply (evolves_commit oid o); auto.
Qed.

Lemma updateOrderItem_evolves oid p i r now s :
  evolves k s (snd (updateOrderItem oid p i r now s)).
Proof.
  unfold updateOrderItem.
  destruct (JsMap.get oid (orders s)) as [o|] eqn:Hg; simpl; [|apply evolves_refl].
  destruct (negb (OrderStatus_eqb (status o) active)); simpl; [apply evolves_refl|].
  destruct (negb (allowModification (settings o))); simpl; [apply evolves_refl|].
  destruct (findIndex _ (participants o)) as [pi|]; simpl; [|apply evolves_refl].
  destruct (nth_error (participants o) pi) as [pt|]; simpl; [|apply evolves_refl].
  destruct (findIndex _ (items pt)) as [ii|]; simpl; [|apply evolves_refl].
  destruct (nth_error (items pt) ii) as [it|]; simpl; [|apply evolves_refl].
  intros Hw. pose proof (well_keyed_get oid o s Hw Hg) as Hid.
  revert Hw. apply (evolves_commit oid o); auto.
Qed.

Lemma removeOrderItem_evolves oid p i now s :
  evolves k s (snd (removeOrderItem oid p i now s)).
Proof.
  unfold removeOrderItem.
  destruct (JsMap.get oid (orders s)) as [o|] eqn:Hg; simpl; [|apply evolves_refl].
  destruct (negb (OrderStatus_eqb (status o) active)); simpl; [apply evolves_refl|].
  destruct (negb (allowModification (settings o))); simpl; [apply evolves_refl|].
  destruct (findIndex _ (participants o)) as [pi|]; simpl; [|apply evolves_refl].
  destruct (nth_error (participants o) pi) as [pt|]; simpl; [|apply evolves_refl].
  destruct (findIndex _ (items pt)) as [ii|]; simpl; [|apply evolves_refl].
  intros Hw. pose proof (well_keyed_get oid o s Hw Hg) as Hid.
  revert Hw. apply (evolves_commit oid o); auto.
Qed.

Lemma addOrderItemWithHistory_evolves ms oid p r now newId mid s :
  evolves k s (snd (addOrderItemWithHistory ms oid p r now newId mid s)).
Proof.
  unfold addOrderItemWithHistory.
  destruct (negb (canModify (checkModificationPermission oid p now s)));
    [apply evolves_refl|].
  pose proof (addOrderItem_evolves ms oid p r now newId s) as H.
  destruct (addOrderItem ms oid p r now newId s) as [[item|] s1]; simpl in *; auto.
  destruct (find_participant oid p s1); simpl; auto.
Qed.

Lemma updateOrderItemWithHistory_evolves oid p i r now mid s :
  evolves k s (snd (updateOrderItemWithHistory oid p i r now mid s)).
Proof.
  unfold updateOrderItemWithHistory.
  destruct (negb (canModify (checkModificationPermission oid p now s)));
    [apply evolves_refl|].
  pose proof (updateOrderItem_evolves oid p i r now s) as H.
  destruct (updateOrderItem oid p i r now s) as [[item|] s1]; simpl in *; auto.
  destruct (find_participant oid p s) as [pt|]; simpl; auto.
  destruct (find _ (items pt)); simpl; auto.
Qed.

Lemma removeOrderItemWithHistory_evolves oid p i now mid s :
  evolves k s (snd (removeOrderItemWithHistory oid p i now mid s)).
Proof.
  unfold removeOrderItemWithHistory.
  destruct (negb (canModify (checkModificationPermission oid p now s)));
    [apply evolves_refl|].
  pose proof (removeOrderItem_evolves oid p i now s) as H.
  destruct (removeOrderItem oid p i now s) as [[|] s1]; simpl in *; auto.
  destruct (find_participant oid p s) as [pt|]; simpl; auto.
  destruct (find _ (items pt)); simpl; auto.
Qed.

Lemma getOrderModificationHistory_evolves oid s :
  evolves k s (snd (getOrderModificationHistory oid s)).
Proof.
  unfold getOrderModificationHistory.
  destruct (JsMap.get oid (modifications s)); simpl.
  - apply evolves_set_modifications.
  - apply evolves_refl.
Qed.

Lemma run_operation_evolves ps op s :
  issues_id k op = false -> evolves k s (run_operation ps op s).
Proof.
  intros Hk. destruct op; simpl in *.
  - now apply createGroupOrder_evolves.
  - apply updateOrder_evolves.
  - apply closeOrder_evolves.
  - apply deleteOrder_evolves.
  - apply expireOrder_evolves.
  - apply checkAndExpireOrders_evolves.
  - apply joinOrder_evolves.
  - apply leaveOrder_evolves.
  - apply addOrderItem_evolves.
  - apply updateOrderItem_evolves.
  - apply removeOrderItem_evolves.
  - apply addOrderItemWithHistory_evolves.
  - apply updateOrderItemWithHistory_evolves.
  - apply removeOrderItemWithHistory_evolves.
  - apply calculateOrderSummary_evolves.
  - apply getOrderModificationHistory_evolves.
Qed.


End LifeCycle.

(** Every method keeps the orders under their own ids. *)
Lemma run_operation_well_keyed ps op s :
  well_keyed s -> well_keyed (run_operation ps op s).
Proof.
  intros Hw. destruct op;
    try (refine (proj2 (run_operation_evolves EmptyString ps _ s _ Hw));
         reflexivity).
  simpl. unfold createGroupOrder.
  destruct (getMenuById menuService (create_menuId request)); simpl; auto.
  destruct (negb (canUserViewMenu menuService (create_menuId request) userId_));
    simpl; auto.
  unfold well_keyed. simpl. apply Forall_set_entry; auto.
Qed.

Lemma reachable_well_keyed (participantService : option ParticipantService)
    (ops : list Operation) :
  well_keyed (run participantService ops initialState).
Proof.
  unfold run.
  assert (H : well_keyed initialState) by constructor.
  revert H. generalize initialState.
  induction ops as [|op r IH]; intros s Hs; simpl; auto.
  apply IH. now apply run_operation_well_keyed.
Qed.

Lemma ex_create_state : run None [ex_create] initialState = ex_state_created.
Proof. reflexivity. Qed.



(** ** Joining *)

(** A join that is not admitted leaves the state as it was. *)
Lemma joinOrder_rejection_unchanged ps r now pid mid s :
  canJoin (fst (joinOrder ps r now pid mid s)) = false ->
  snd (joinOrder ps r now pid mid s) = s.
Proof.
  unfold joinOrder.
  destruct (order (validateOrderCode (join_orderCode r) now s)) as [o|]; auto.
  destruct (negb (isValid (validateOrderCode (join_orderCode r) now s))); auto.
  unfold joinOrder_validated.
  destruct (participantService_check ps r now o); auto.
  destruct (find (already_joined r) (participants o)); auto.
  destruct (capacity_reached o); auto.
  simpl. discriminate.
Qed.

(** Without a participant service [joinOrder] admits whenever the code
    resolves to an order, nobody in the order has the identity or the
    nickname, and the capacity is not reached. The status and the deadline
    of the order play no part. The order gets the new participant, with no
    items and total 0, at the end of its list and a fresh summary, and a
    [participant_joined] record is pushed on its history. *)
Lemma joinOrder_without_service r now pid mid s oid o :
  JsMap.get (join_orderCode r) (orderCodeIndex s) = Some oid ->
  oid <> "" ->
  JsMap.get oid (orders s) = Some o ->
  find (already_joined r) (participants o) = None ->
  capacity_reached o = false ->
  let ps' := participants o ++ [joined_participant r now pid] in
  let s' := snd (joinOrder None r now pid mid s) in
  canJoin (fst (joinOrder None r now pid mid s)) = true
  /\ orders s'
     = JsMap.set (orderId o)
         (with_summary (with_participants o ps' now) (summarize ps' now) now)
         (orders s)
  /\ exists record,
       stored_modifications (orderId o) s'
       = stored_modifications (orderId o) s ++ [record]
       /\ mod_type record = participant_joined
       /\ mod_participantId record = pid.
Proof.
  intros Hc Hne Hg Hf Hcap ps' s'.
  assert (Hv : order (validateOrderCode (join_orderCode r) now s) = Some o
               /\ isValid (validateOrderCode (join_orderCode r) now s) = true).
  { unfold validateOrderCode. rewrite Hc. simpl.
    apply String.eqb_neq in Hne. rewrite Hne. simpl. rewrite Hg.
    destruct (negb (OrderStatus_eqb (status o) active)); simpl; auto.
    destruct (deadline_reached o now); simpl; auto. }
  destruct Hv as [Hvo Hvi].
  assert (Hs : joinOrder None r now pid mid s
               = joinOrder_validated None r now pid mid o s).
  { unfold joinOrder. now rewrite Hvo, Hvi. }
  subst s'. rewrite Hs. unfold joinOrder_validated. simpl.
  rewrite Hf, Hcap. simpl. split; [reflexivity|]. split.
  - fold ps'. now rewrite store_then_summarize.
  - fold ps'. rewrite store_then_summarize.
    eexists. unfold stored_modifications. simpl.
    rewrite JsMapFacts.get_set_same.
    split; [reflexivity|]. split; reflexivity.
Qed.

(** C2. [joinOrder] does not reject a join after the deadline.
    [validateOrderCode] answers [isValid = true, canJoin = false] for an
    order whose deadline has passed, but [joinOrder] tests [isValid] only:
    with no participant service wired in, the guest is appended to the
    order 100 seconds after the deadline. The check of the participant
    service, [canParticipantJoinOrder], refuses the same order. *)
Theorem joinOrder_admits_after_deadline :
  deadline_reached ex_order 400000 = true
  /\ canJoin (validateOrderCode "123456" 400000 ex_state_created) = false
  /\ canJoin (fst (joinOrder None ex_join_guest 400000 "p-late" "mod-late"
                     ex_state_created)) = true
  /\ option_map participants
       (JsMap.get "order-1"
          (orders (snd (joinOrder None ex_join_guest 400000 "p-late" "mod-late"
                          ex_state_created))))
     = Some [ex_guest 400000]
  /\ ParticipantServiceImpl_canParticipantJoinOrder ex_identities 400000
       "identity-1" ex_order = false.
Proof. repeat split; vm_compute; reflexivity. Qed.

Lemma findIndex_found {A} (f : A -> bool) (l : list A) (x : A) :
  In x l -> f x = true ->
  exists i y, findIndex f l = Some i /\ nth_error l i = Some y.
Proof.
  induction l as [|z r IH]; simpl; [tauto|].
  intros Hin Hf. destruct (f z) eqn:E.
  - exists O, z. auto.
  - destruct Hin as [->|Hin]; [congruence|].
    destruct (IH Hin Hf) as (i & y & Hi & Hy).
    exists (S i), y. rewrite Hi. auto.
Qed.

(** On an order that is closed or expired the item calls, [updateOrder]
    and [closeOrder] fail and leave the state as it was; [leaveOrder] of a
    participant of the order and [deleteOrder] by the creator succeed. *)
Lemma terminal_order_calls ms k pid iid u reqA reqU reqO now newId mid s o p :
  JsMap.get k (orders s) = Some o ->
  status o <> active ->
  addOrderItem ms k pid reqA now newId s = (None, s)
  /\ updateOrderItem k pid iid reqU now s = (None, s)
  /\ removeOrderItem k pid iid now s = (false, s)
  /\ updateOrder k u reqO now s = (None, s)
  /\ closeOrder k u now s = (false, s)
  /\ (In p (participants o) ->
      fst (leaveOrder k (participantId p) now mid s) = true)
  /\ fst (deleteOrder k (createdBy o) s) = true.
Proof.
  intros Hg Hst.
  assert (Hn : negb (OrderStatus_eqb (status o) active) = true).
  { destruct (status o); auto; contradiction. }
  unfold addOrderItem, updateOrderItem, removeOrderItem, updateOrder,
    closeOrder, leaveOrder, deleteOrder.
  rewrite Hg, Hn. repeat split.
  - now destruct (negb (String.eqb (createdBy o) u)).
  - now destruct (negb (String.eqb (createdBy o) u)).
  - intros Hin.
    destruct (findIndex_found
                (fun q => String.eqb (participantId q) (participantId p))
                (participants o) p Hin (String.eqb_refl _))
      as (i & y & Hi & Hy).
    rewrite Hi, Hy. reflexivity.
  - rewrite String.eqb_refl. reflexivity.
Qed.

(** C4. [joinOrder] succeeds on a closed order and on an expired order when
    no participant service is wired in: the order gains a participant. The
    item calls, [updateOrder] and [closeOrder] do fail on such an order,
    and [leaveOrder] and [deleteOrder] succeed ([terminal_order_calls]). *)
Theorem joinOrder_admits_on_terminal_order :
  status_at "order-1" ex_state_closed = Some closed
  /\ nicknames_at "order-1" ex_state_closed = Some []
  /\ canJoin (fst (joinOrder None ex_join_guest 2000 "p-late" "mod-late"
                     ex_state_closed)) = true
  /\ nicknames_at "order-1"
       (snd (joinOrder None ex_join_guest 2000 "p-late" "mod-late" ex_state_closed))
     = Some ["Late"]
  /\ status_at "order-1" ex_state_expired = Some expired
  /\ nicknames_at "order-1"
       (snd (joinOrder None ex_join_guest 400001 "p-late" "mod-late" ex_state_expired))
     = Some ["Late"].
Proof. repeat split; vm_compute; reflexivity. Qed.

(** ** The permission window *)

(** The answers of [checkModificationPermission] for a participant of an
    active order with modification allowed and a deadline [d]: refused when
    less than one whole minute is left, allowed otherwise, with the whole
    minutes left, and flagged when these are five or fewer. *)
Lemma checkModificationPermission_window oid pid now s o p d :
  JsMap.get oid (orders s) = Some o ->
  status o = active ->
  allowModification (settings o) = true ->
  find (fun q => String.eqb (participantId q) pid) (participants o) = Some p ->
  deadline o = Some d ->
  (d - now < 60000 ->
   checkModificationPermission oid pid now s
   = {| canModify := false; reason := Some "Order deadline has passed";
        timeRemaining := None |})
  /\ (60000 <= d - now ->
      canModify (checkModificationPermission oid pid now s) = true
      /\ timeRemaining (checkModificationPermission oid pid now s)
         = Some ((d - now) / 60000)
      /\ (reason (checkModificationPermission oid pid now s)
           = Some "Limited time remaining" <-> (d - now) / 60000 <= 5)).
Proof.
  intros Hg Hst Ha Hf Hd. unfold checkModificationPermission.
  rewrite Hg, Hst, Ha. simpl. rewrite Hf, Hd.
  change (1000 * 60) with 60000. cbv zeta. split.
  - intros Hlt.
    assert (H : (d - now) / 60000 <= 0).
    { apply Z.lt_succ_r. apply Z.div_lt_upper_bound; lia. }
    replace (Z.max 0 ((d - now) / 60000)) with 0 by lia. reflexivity.
  - intros Hge.
    assert (H : 1 <= (d - now) / 60000).
    { apply Z.div_le_lower_bound; lia. }
    replace (Z.max 0 ((d - now) / 60000)) with ((d - now) / 60000) by lia.
    destruct ((d - now) / 60000 <=? 0) eqn:E0; [apply Z.leb_le in E0; lia|].
    destruct ((d - now) / 60000 <=? 5) eqn:E5; simpl.
    + apply Z.leb_le in E5. repeat split; auto.
    + apply Z.leb_gt in E5. repeat split; auto; [discriminate|lia].
Qed.

Lemma checkModificationPermission_no_deadline oid pid now s o p :
  JsMap.get oid (orders s) = Some o ->
  status o = active ->
  allowModification (settings o) = true ->
  find (fun q => String.eqb (participantId q) pid) (participants o) = Some p ->
  deadline o = None ->
  checkModificationPermission oid pid now s
  = {| canModify := true; reason := None; timeRemaining := None |}.
Proof.
  intros Hg Hst Ha Hf Hd. unfold checkModificationPermission.
  rewrite Hg, Hst, Ha. simpl. now rewrite Hf, Hd.
Qed.

(** C5. With 30 seconds left before the deadline,
    [checkModificationPermission] answers that the deadline has passed: the
    remaining time is rounded down to whole minutes before it is tested. *)
Theorem checkModificationPermission_rejects_before_deadline :
  option_map deadline (JsMap.get "order-1" (orders ex_state_alice))
  = Some (Some 300000)
  /\ option_map (fun o => deadline_reached o 270000)
       (JsMap.get "order-1" (orders ex_state_alice)) = Some false
  /\ checkModificationPermission "order-1" "p-alice" 270000 ex_state_alice
     = {| canModify := false; reason := Some "Order deadline has passed";
          timeRemaining := None |}.
Proof. repeat split; vm_compute; reflexivity. Qed.

(** ** The item breakdown *)

Lemma Set_add_NoDup (x : string) (l : list string) :
  NoDup l -> NoDup (Set_add x l).
Proof.
  intros Hl. unfold Set_add. destruct (existsb (String.eqb x) l) eqn:E; auto.
  apply NoDup_app; auto.
  - repeat constructor. simpl. tauto.
  - intros y Hy [Hxy|[]]. subst y.
    assert (H : existsb (String.eqb x) l = true).
    { apply existsb_exists. exists x. split; auto. apply String.eqb_refl. }
    congruence.
Qed.

Lemma totals_item_distinct (p : OrderParticipant) (item : OrderItem)
    (acc : Z * JsMap.t OrderTotalsEntry) :
  Forall (fun e => totals_entry_distinct (snd e)) (snd acc) ->
  Forall (fun e => totals_entry_distinct (snd e)) (snd (totals_item p acc item)).
Proof.
  destruct acc as [n m]. simpl. intros Hm.
  destruct (JsMap.get (menuItemId item) m) as [e|] eqn:Hg; simpl.
  - apply JsMapFacts.Forall_set; auto. split; simpl; auto.
    apply Set_add_NoDup.
    exact (proj1 (JsMapFacts.Forall_get _ _ _ _ Hm Hg)).
  - apply JsMapFacts.Forall_set; auto. split; simpl; auto.
    repeat constructor. simpl. tauto.
Qed.

(** In the breakdown of [calculateOrderTotals] the participant count of an
    entry is the size of a set without repetitions. *)
Lemma calculateOrderTotals_distinct (ps : list OrderParticipant)
    (acc : Z * Z * JsMap.t OrderTotalsEntry) :
  Forall (fun e => totals_entry_distinct (snd e)) (snd acc) ->
  Forall (fun e => totals_entry_distinct (snd e))
         (snd (fold_left totals_participant ps acc)).
Proof.
  revert acc. induction ps as [|p r IH]; intros [[n a] m] Hm; simpl; auto.
  apply IH. unfold totals_participant. simpl in Hm.
  assert (H : forall its acc',
             Forall (fun e => totals_entry_distinct (snd e)) (snd acc') ->
             Forall (fun e => totals_entry_distinct (snd e))
                    (snd (fold_left (totals_item p) its acc'))).
  { induction its as [|it rest IHi]; intros acc' Hacc; simpl; auto.
    apply IHi. now apply totals_item_distinct. }
  specialize (H (items p) (n, m) Hm).
  destruct (fold_left (totals_item p) (items p) (n, m)). exact H.
Qed.

(** C6. After Alice has added two order items for the same menu item, the
    breakdown of the stored summary lists her twice; [calculateOrderTotals]
    on the same order counts her once. *)
Theorem summary_lists_participant_twice :
  summary_breakdown_at "order-1" ex_state_two_teas
  = Some [ {| bd_menuItemId := "X"; bd_menuItemName := "Tea";
              bd_totalQuantity := 3; bd_totalAmount := 150;
              bd_participants := ["Alice"; "Alice"] |} ]
  /\ totals_breakdown_at "order-1" ex_state_two_teas
     = Some [ {| tb_itemId := "X"; tb_itemName := "Tea";
                 tb_totalQuantity := 3; tb_totalAmount := 150;
                 tb_participantCount := 1 |} ].
Proof. split; vm_compute; reflexivity. Qed.

(** ** Refusals *)

Lemma find_findIndex {A} (f : A -> bool) (l : list A) (x : A) :
  List.find f l = Some x ->
  exists i, findIndex f l = Some i /\ nth_error l i = Some x.
Proof.
  induction l as [|y r IH]; simpl; [discriminate|].
  destruct (f y).
  - intros [= ->]. exists O. auto.
  - intros H. destruct (IH H) as (i & Hi & Hn). exists (S i).
    rewrite Hi. auto.
Qed.


Lemma updateOrderItem_refused_unchanged oid pid iid req now s :
  fst (updateOrderItem oid pid iid req now s) = None ->
  snd (updateOrderItem oid pid iid req now s) = s.
Proof.
  unfold updateOrderItem.
  destruct (JsMap.get oid (orders s)) as [o|]; simpl; auto.
  destruct (negb (OrderStatus_eqb (status o) active)); simpl; auto.
  destruct (negb (allowModification (settings o))); simpl; auto.
  destruct (findIndex _ (participants o)) as [pi|]; simpl; auto.
  destruct (nth_error (participants o) pi) as [pt|]; simpl; auto.
  destruct (findIndex _ (items pt)) as [ii|]; simpl; auto.
  destruct (nth_error (items pt) ii) as [it|]; simpl; auto.
  discriminate.
Qed.

Lemma removeOrderItem_refused_unchanged oid pid iid now s :
  fst (removeOrderItem oid pid iid now s) = false ->
  snd (removeOrderItem oid pid iid now s) = s.
Proof.
  unfold removeOrderItem.
  destruct (JsMap.get oid (orders s)) as [o|]; simpl; auto.
  destruct (negb (OrderStatus_eqb (status o) active)); simpl; auto.
  destruct (negb (allowModification (settings o))); simpl; auto.
  destruct (findIndex _ (participants o)) as [pi|]; simpl; auto.
  destruct (nth_error (participants o) pi) as [pt|]; simpl; auto.
  destruct (findIndex _ (items pt)) as [ii|]; simpl; auto.
  discriminate.
Qed.

(** The plain item calls return their failure value and leave the state
    alone when the order is missing or not active, modification is
    disabled, or the participant is not in the order. *)
Lemma item_calls_refuse ms oid pid iid reqA reqU now newId s :
  item_call_refused oid pid s ->
  addOrderItem ms oid pid reqA now newId s = (None, s)
  /\ updateOrderItem oid pid iid reqU now s = (None, s)
  /\ removeOrderItem oid pid iid now s = (false, s).
Proof.
  unfold item_call_refused, addOrderItem, updateOrderItem, removeOrderItem.
  destruct (JsMap.get oid (orders s)) as [o|]; auto.
  intros [Hst|[Ha|Hf]].
  - destruct (status o); simpl; auto. contradiction.
  - destruct (negb (OrderStatus_eqb (status o) active)); simpl; auto.
    rewrite Ha. simpl. auto.
  - destruct (negb (OrderStatus_eqb (status o) active)); simpl; auto.
    destruct (negb (allowModification (settings o))); simpl; auto.
    apply findIndex_none in Hf. rewrite Hf. auto.
Qed.

(** What [checkModificationPermission] refuses for a reason other than the
    deadline, the plain item calls refuse too. *)
Lemma permission_refused_not_deadline oid pid now s :
  canModify (checkModificationPermission oid pid now s) = false ->
  reason (checkModificationPermission oid pid now s)
    <> Some "Order deadline has passed" ->
  item_call_refused oid pid s.
Proof.
  unfold checkModificationPermission, item_call_refused.
  destruct (JsMap.get oid (orders s)) as [o|]; auto.
  destruct (status o) eqn:Hst; simpl;
    try (intros _ _; left; discriminate).
  destruct (allowModification (settings o)) eqn:Ha; simpl; auto.
  unfold find.
  destruct (List.find _ (participants o)) eqn:Hf; simpl; auto.
  destruct (deadline o) as [d|]; simpl; [|discriminate].
  destruct (Z.max 0 ((d - now) / 60000) <=? 0); simpl.
  - intros _ H. now contradiction H.
  - destruct (Z.max 0 ((d - now) / 60000) <=? 5); simpl; discriminate.
Qed.

Lemma permission_refused_reason oid pid now s :
  canModify (checkModificationPermission oid pid now s) = false ->
  reason (checkModificationPermission oid pid now s)
  = Some (rejection_message (checkModificationPermission oid pid now s)).
Proof.
  unfold checkModificationPermission.
  destruct (JsMap.get oid (orders s)) as [o|]; auto.
  destruct (status o) eqn:Hst; simpl; auto.
  destruct (allowModification (settings o)) eqn:Ha; simpl; auto.
  destruct (find _ (participants o)) eqn:Hf; simpl; auto.
  destruct (deadline o) as [d|]; simpl; [|discriminate].
  destruct (Z.max 0 ((d - now) / 60000) <=? 0); simpl; auto.
  destruct (Z.max 0 ((d - now) / 60000) <=? 5); simpl; discriminate.
Qed.

(** C7, as stated, fails: on a closed order [addOrderItemWithHistory] does
    not return a failure value, it throws. *)
Lemma addOrderItemWithHistory_throws :
  fst (addOrderItemWithHistory ex_menuService "order-1" "p-alice" (ex_add "X" 1)
         2000 "item-9" "mod-9" ex_state_alice_closed)
  = Thrown "Order is closed".
Proof. vm_compute. reflexivity. Qed.

(** C7, amended. When [checkModificationPermission] refuses, the three
    history-tracked calls throw an [Error] whose message is the reason of
    the refusal, and the state is as before: nothing is written. The plain
    item calls do not throw: for a missing order, an order that is not
    active, disabled modification or a missing participant they return
    [null] or [false], and the state is as before. *)
Theorem history_calls_throw_without_write ms oid pid iid reqA reqU now newId mid s :
  canModify (checkModificationPermission oid pid now s) = false ->
  let message := rejection_message (checkModificationPermission oid pid now s) in
  reason (checkModificationPermission oid pid now s) = Some message
  /\ addOrderItemWithHistory ms oid pid reqA now newId mid s = (Thrown message, s)
  /\ updateOrderItemWithHistory oid pid iid reqU now mid s = (Thrown message, s)
  /\ removeOrderItemWithHistory oid pid iid now mid s = (Thrown message, s)
  /\ (reason (checkModificationPermission oid pid now s)
        <> Some "Order deadline has passed" ->
      addOrderItem ms oid pid reqA now newId s = (None, s)
      /\ updateOrderItem oid pid iid reqU now s = (None, s)
      /\ removeOrderItem oid pid iid now s = (false, s)).
Proof.
  intros Hc message. split; [now apply permission_refused_reason|].
  unfold addOrderItemWithHistory, updateOrderItemWithHistory,
    removeOrderItemWithHistory.
  rewrite Hc. simpl.
  split; [reflexivity|]. split; [reflexivity|]. split; [reflexivity|].
  intros Hr. apply item_calls_refuse.
  now apply (permission_refused_not_deadline oid pid now s).
Qed.

Lemma history_calls_throw_without_write_witness :
  reason (checkModificationPermission "order-1" "p-alice" 2000 ex_state_alice_closed)
  = Some "Order is closed"
  /\ addOrderItemWithHistory ex_menuService "order-1" "p-alice" (ex_add "X" 1)
       2000 "item-9" "mod-9" ex_state_alice_closed
     = (Thrown "Order is closed", ex_state_alice_closed)
  /\ addOrderItem ex_menuService "order-1" "p-alice" (ex_add "X" 1)
       2000 "item-9" ex_state_alice_closed
     = (None, ex_state_alice_closed).
Proof.
  destruct (history_calls_throw_without_write ex_menuService
              "order-1" "p-alice" "item-1" (ex_add "X" 1) ex_update_five
              2000 "item-9" "mod-9" ex_state_alice_closed)
    as (H1 & H2 & _ & _ & H5).
  - vm_compute. reflexivity.
  - split; [exact H1|]. split; [exact H2|].
    apply H5. vm_compute. discriminate.
Defined.




(** ** The modification history *)

Lemma sort_insert_perm (x : OrderModification) (l : list OrderModification) :
  Permutation (sort_insert x l) (x :: l).
Proof.
  induction l as [|y r IH]; simpl; auto.
  destruct (compare_newest_first x y <=? 0); auto.
  rewrite IH. apply perm_swap.
Qed.

Lemma sort_newest_first_perm (l : list OrderModification) :
  Permutation (sort_newest_first l) l.
Proof.
  induction l as [|x r IH]; simpl; auto.
  rewrite sort_insert_perm. now constructor.
Qed.

Lemma sort_insert_sorted (x : OrderModification) (l : list OrderModification) :
  newest_first l -> newest_first (sort_insert x l).
Proof.
  unfold newest_first. intros Hl. induction Hl as [|y r Hr IH Hy]; simpl.
  - repeat constructor.
  - unfold compare_newest_first.
    destruct (mod_timestamp y - mod_timestamp x <=? 0) eqn:E.
    + apply Z.leb_le in E. constructor.
      * now constructor.
      * constructor; [unfold not_older; lia|].
        eapply Forall_impl; [|exact Hy]. unfold not_older. intros; lia.
    + apply Z.leb_gt in E. constructor; auto.
      eapply Permutation_Forall; [symmetry; apply sort_insert_perm|].
      constructor; auto. unfold not_older. lia.
Qed.

Lemma sort_newest_first_sorted (l : list OrderModification) :
  newest_first (sort_newest_first l).
Proof.
  induction l as [|x r IH]; simpl.
  - constructor.
  - now apply sort_insert_sorted.
Qed.

Lemma filter_perm {A} (f : A -> bool) (l1 l2 : list A) :
  Permutation l1 l2 -> Permutation (filter f l1) (filter f l2).
Proof.
  induction 1; simpl; auto.
  - destruct (f x); auto.
  - destruct (f x), (f y); auto. apply perm_swap.
  - etransitivity; eauto.
Qed.

Lemma flat_map_filter {A} (f : A -> bool) (ls : list (list A)) :
  flat_map (fun l => filter f l) ls = filter f (List.concat ls).
Proof.
  induction ls as [|l r IH]; simpl; auto.
  now rewrite filter_app, IH.
Qed.

(** Pushing a record on the array of a key adds it to the records of the
    map; replacing an array by a permutation of it changes nothing. *)
Lemma concat_values_push (k : string) (x : OrderModification)
    (m : JsMap.t (list OrderModification)) :
  Permutation
    (List.concat (JsMap.values
               (JsMap.set k
                  (match JsMap.get k m with Some l => l | None => [] end ++ [x]) m)))
    (x :: List.concat (JsMap.values m)).
Proof.
  induction m as [|[k' v'] r IH]; simpl; auto.
  destruct (String.eqb k k'); simpl.
  - rewrite <- app_assoc. simpl. symmetry. apply Permutation_middle.
  - rewrite IH. symmetry. apply Permutation_middle.
Qed.

Lemma concat_values_replace (k : string) (l l' : list OrderModification)
    (m : JsMap.t (list OrderModification)) :
  JsMap.get k m = Some l -> Permutation l' l ->
  Permutation (List.concat (JsMap.values (JsMap.set k l' m)))
              (List.concat (JsMap.values m)).
Proof.
  intros Hg Hp. induction m as [|[k' v'] r IH]; simpl in *; [discriminate|].
  destruct (String.eqb k k'); simpl.
  - injection Hg as ->. now apply Permutation_app_tail.
  - apply Permutation_app_head. auto.
Qed.

(** What the store holds after a sequence of history calls. *)
Lemma history_store (calls : list HistoryCall) (s : ServiceState)
    (log : list OrderModification) :
  (forall oid,
      Permutation (stored_modifications oid s)
                  (filter (fun m => String.eqb (mod_orderId m) oid) log)) ->
  Permutation (List.concat (JsMap.values (modifications s))) log ->
  (forall oid,
      Permutation (stored_modifications oid (run_history calls s))
                  (filter (fun m => String.eqb (mod_orderId m) oid)
                          (log ++ recorded calls)))
  /\ Permutation (List.concat (JsMap.values (modifications (run_history calls s))))
                 (log ++ recorded calls).
Proof.
  revert s log. induction calls as [|c r IH]; intros s log H1 H2.
  - simpl. rewrite app_nil_r. auto.
  - change (run_history (c :: r) s) with (run_history r (run_history_call s c)).
    destruct c as [m now newId|o|p].
    + change (recorded (RecordCall m now newId :: r))
        with ([fst (recordModification m now newId initialState)] ++ recorded r).
      set (x := fst (recordModification m now newId initialState)).
      rewrite app_assoc.
      apply IH.
      * intros oid. unfold stored_modifications. simpl.
        rewrite filter_app. simpl.
        destruct (String.eqb (in_orderId m) oid) eqn:E.
        -- apply String.eqb_eq in E. subst oid.
           rewrite JsMapFacts.get_set_same.
           apply Permutation_app_tail. apply (H1 (in_orderId m)).
        -- apply String.eqb_neq in E.
           rewrite JsMapFacts.get_set_other by congruence.
           rewrite app_nil_r. apply (H1 oid).
      * simpl. rewrite concat_values_push.
        rewrite H2. apply Permutation_cons_append.
    + change (recorded (OrderHistoryCall o :: r)) with (recorded r).
      apply IH.
      * intros oid. simpl.
        unfold getOrderModificationHistory, stored_modifications.
        destruct (JsMap.get o (modifications s)) as [l|] eqn:Hg; simpl;
          [|apply (H1 oid)].
        destruct (string_dec oid o) as [->|Hne].
        -- rewrite JsMapFacts.get_set_same.
           rewrite sort_newest_first_perm.
           specialize (H1 o). unfold stored_modifications in H1.
           now rewrite Hg in H1.
        -- rewrite JsMapFacts.get_set_other by auto. apply (H1 oid).
      * simpl. unfold getOrderModificationHistory.
        destruct (JsMap.get o (modifications s)) as [l|] eqn:Hg; simpl; auto.
        rewrite (concat_values_replace o l); auto.
        apply sort_newest_first_perm.
    + change (recorded (ParticipantHistoryCall p :: r)) with (recorded r).
      now apply IH.
Qed.

(** C10. After any sequence of recordings and queries,
    [getOrderModificationHistory] returns exactly the records recorded for
    that order, and [getParticipantModificationHistory] exactly the records
    recorded for that participant in all orders; both lists are sorted by
    timestamp, newest first. *)
Theorem histories_are_complete_and_newest_first (calls : list HistoryCall)
    (orderId_ participantId_ : string) :
  let s := run_history calls initialState in
  (Permutation (fst (getOrderModificationHistory orderId_ s))
     (filter (fun m => String.eqb (mod_orderId m) orderId_) (recorded calls))
   /\ newest_first (fst (getOrderModificationHistory orderId_ s)))
  /\ (Permutation (getParticipantModificationHistory participantId_ s)
        (filter (fun m => String.eqb (mod_participantId m) participantId_)
                (recorded calls))
      /\ newest_first (getParticipantModificationHistory participantId_ s)).
Proof.
  intros s.
  destruct (history_store calls initialState []) as [H1 H2].
  { intros oid. simpl. constructor. }
  { simpl. constructor. }
  simpl in H1, H2. fold s in H1, H2. split; split.
  - specialize (H1 orderId_). unfold stored_modifications in H1.
    unfold getOrderModificationHistory.
    destruct (JsMap.get orderId_ (modifications s)); simpl; auto.
    now rewrite sort_newest_first_perm.
  - unfold getOrderModificationHistory.
    destruct (JsMap.get orderId_ (modifications s)); simpl.
    + apply sort_newest_first_sorted.
    + constructor.
  - unfold getParticipantModificationHistory.
    rewrite sort_newest_first_perm, flat_map_filter.
    now apply filter_perm.
  - apply sort_newest_first_sorted.
Qed.

(** ** The scenario of the specification, run on the model *)

Example scenario_second_alice_refused :
  joinOrder None
    {| join_orderCode := "123456"; join_nickname := "Alice";
       join_userId := Some "user-x"; join_guestSessionId := None |}
    2000 "p-x" "mod-x" ex_state_alice
  = ({| isValid := false; canJoin := false;
        error := Some "Already joined this order or nickname already taken";
        order := None |}, ex_state_alice).
Proof. vm_compute. reflexivity. Qed.

Example scenario_carol_refused :
  joinOrder None
    {| join_orderCode := "123456"; join_nickname := "Carol";
       join_userId := Some "user-c"; join_guestSessionId := None |}
    4000 "p-carol" "mod-3" scenario_joined
  = ({| isValid := false; canJoin := false;
        error := Some "Order has reached maximum participants";
        order := None |}, scenario_joined).
Proof. vm_compute. reflexivity. Qed.

Example scenario_totals :
  option_map (fun o => (map totalAmount (participants o),
                        summaryTotalAmount (summary o),
                        totalItems (summary o)))
             (JsMap.get "order-1" (orders scenario_ordered))
  = Some ([100; 0], 100, 2).
Proof. vm_compute. reflexivity. Qed.

Example scenario_bob_removes_nothing :
  removeOrderItem "order-1" "p-bob" "no-such-item" 6000 scenario_ordered
  = (false, scenario_ordered).
Proof. vm_compute. reflexivity. Qed.

Example scenario_expired :
  fst (checkAndExpireOrders 400000 scenario_ordered) = ["order-1"]
  /\ status_at "order-1" scenario_swept = Some expired
  /\ addOrderItem ex_menuService "order-1" "p-alice" (ex_add "Y" 1) 410000 "item-2"
       scenario_swept
     = (None, scenario_swept).
Proof. repeat split; vm_compute; reflexivity. Qed.

(** * Further properties *)

(** ** Every method is a sequence of transitions *)

Lemma path_app (l1 l2 : list Label) (s1 s2 s3 : ServiceState) :
  path l1 s1 s2 -> path l2 s2 s3 -> path (l1 ++ l2) s1 s3.
Proof.
  induction 1; simpl; auto. intros H2. econstructor; eauto.
Qed.

Lemma path_one (l : Label) (s s' : ServiceState) :
  transition l s s' -> path [l] s s'.
Proof. intros H. econstructor; eauto. constructor. Qed.

Lemma summarize_lastUpdated (ps : list OrderParticipant) (now : Z) :
  lastUpdated (summarize ps now) = now.
Proof.
  unfold summarize.
  now destruct (fold_left summary_participant ps (0, 0, JsMap.empty)) as [[n a] m].
Qed.

Lemma with_summary_fresh (o : GroupOrder) (now : Z) :
  summary_fresh (with_summary o (summarize (participants o) now) now).
Proof.
  unfold summary_fresh. simpl. now rewrite summarize_lastUpdated.
Qed.

Lemma map_splice_one {A B} (f : A -> B) (i : nat) (l : list A) :
  map f (splice_one i l) = splice_one i (map f l).
Proof.
  revert i. induction l as [|x r IH]; intros [|i]; simpl; auto.
  now rewrite IH.
Qed.

Lemma map_assign_index {A B} (f : A -> B) (i : nat) (x y : A) (l : list A) :
  nth_error l i = Some y -> f x = f y ->
  map f (assign_index i x l) = map f l.
Proof.
  revert i. induction l as [|z r IH]; intros [|i]; simpl; try discriminate.
  - intros [= ->] ->. reflexivity.
  - intros Hn Hf. now rewrite (IH i Hn Hf).
Qed.

Lemma option_string_eqb_refl (a : option string) : option_string_eqb a a = true.
Proof. destruct a; simpl; auto. apply String.eqb_refl. Qed.

Lemma not_joined_no_clash (r : JoinOrderRequest) (now : Z) (pid : string)
    (q : OrderParticipant) :
  already_joined r q = false ->
  ~ clash (member_of q) (member_of (joined_participant r now pid)).
Proof.
  unfold already_joined, clash. simpl. intros Hj.
  apply orb_false_elim in Hj. destruct Hj as [Hj Hn].
  apply orb_false_elim in Hj. destruct Hj as [Hu Hg].
  intros [H|[[Ht H]|[Ht H]]].
  - rewrite H, String.eqb_refl in Hn. discriminate.
  - rewrite H in Ht, Hu. rewrite Ht, option_string_eqb_refl in Hu. discriminate.
  - rewrite H in Ht, Hg. rewrite Ht, option_string_eqb_refl in Hg. discriminate.
Qed.

Lemma same_identity_refl (o : GroupOrder) : same_identity o o.
Proof. repeat split. Qed.

(** Store an order of the same identity and recompute its summary. *)
Lemma path_commit (k : string) (o o' : GroupOrder) (now : Z) (s : ServiceState) :
  JsMap.get k (orders s) = Some o ->
  same_identity o o' ->
  roster_step o o' ->
  path [StoreOrder k] s
    (snd (calculateOrderSummary k now (set_orders s (JsMap.set k o' (orders s))))).
Proof.
  intros Hg Hi Hr. rewrite store_then_summarize. apply path_one.
  apply tr_store with (o := o); auto. right.
  apply (with_summary_fresh o' now).
Qed.

Lemma path_record (m : ModificationInput) (now : Z) (newId : string)
    (s : ServiceState) :
  path [PushRecord (in_orderId m)] s (snd (recordModification m now newId s)).
Proof.
  apply path_one. unfold recordModification. simpl.
  apply (tr_push s (in_orderId m)). reflexivity.
Qed.

Lemma reaches_refl (s : ServiceState) : reaches s s.
Proof. exists []. split; [constructor|reflexivity]. Qed.

Lemma reaches_trans (s1 s2 s3 : ServiceState) :
  reaches s1 s2 -> reaches s2 s3 -> reaches s1 s3.
Proof.
  intros (l1 & H1 & Q1) (l2 & H2 & Q2). exists (l1 ++ l2). split.
  - eapply path_app; eauto.
  - unfold quiet in *. rewrite forallb_app, Q1, Q2. reflexivity.
Qed.

Lemma reaches_store (k : string) (o o' : GroupOrder) (s : ServiceState) :
  JsMap.get k (orders s) = Some o -> same_identity o o' ->
  summary_kept_or_fresh o o' ->
  roster o' = roster o ->
  reaches s (set_orders s (JsMap.set k o' (orders s))).
Proof.
  intros Hg Hi Hs Hr. exists [StoreOrder k]. split; [|reflexivity].
  apply path_one. apply tr_store with (o := o); auto. now left.
Qed.

Lemma reaches_commit (k : string) (o o' : GroupOrder) (now : Z) (s : ServiceState) :
  JsMap.get k (orders s) = Some o -> same_identity o o' ->
  roster_step o o' ->
  reaches s
    (snd (calculateOrderSummary k now (set_orders s (JsMap.set k o' (orders s))))).
Proof.
  intros Hg Hi Hr. exists [StoreOrder k]. split; [|reflexivity].
  now apply path_commit with (o := o).
Qed.

Lemma reaches_record (m : ModificationInput) (now : Z) (newId : string)
    (s : ServiceState) :
  reaches s (snd (recordModification m now newId s)).
Proof.
  exists [PushRecord (in_orderId m)]. split; [|reflexivity]. apply path_record.
Qed.

Lemma reaches_push (k : string) (r : OrderModification) (s : ServiceState) :
  mod_orderId r = k ->
  reaches s
    (set_modifications s
       (JsMap.set k
          (match JsMap.get k (modifications s) with Some l => l | None => [] end
           ++ [r])
          (modifications s))).
Proof.
  intros Hk. exists [PushRecord k]. split; [|reflexivity].
  apply path_one. now apply (tr_push s k r).
Qed.

Lemma calculateOrderSummary_reaches k now s :
  reaches s (snd (calculateOrderSummary k now s)).
Proof.
  unfold calculateOrderSummary.
  destruct (JsMap.get k (orders s)) as [o|] eqn:Hg; simpl.
  - apply (reaches_store k o); auto;
      [repeat split|right; apply with_summary_fresh].
  - apply reaches_refl.
Qed.

Lemma updateOrder_reaches oid u r now s :
  keeps_ledger r ->
  well_keyed s -> reaches s (snd (updateOrder oid u r now s)).
Proof.
  intros [Hp Hsm] Hw. unfold updateOrder. rewrite Hp, Hsm.
  destruct (JsMap.get oid (orders s)) as [o|] eqn:Hg; simpl; [|apply reaches_refl].
  destruct (negb (String.eqb (createdBy o) u)); simpl; [apply reaches_refl|].
  destruct (negb (OrderStatus_eqb (status o) active)); simpl; [apply reaches_refl|].
  apply (reaches_store oid o); auto; [|left; split; reflexivity].
  repeat split; simpl.
  symmetry. now apply (well_keyed_get oid o s).
Qed.

Lemma closeOrder_reaches oid u now s :
  reaches s (snd (closeOrder oid u now s)).
Proof.
  unfold closeOrder.
  destruct (JsMap.get oid (orders s)) as [o|] eqn:Hg; simpl; [|apply reaches_refl].
  destruct (negb (String.eqb (createdBy o) u)); simpl; [apply reaches_refl|].
  destruct (negb (OrderStatus_eqb (status o) active)); simpl; [apply reaches_refl|].
  apply (reaches_store oid o); auto; [repeat split|left; split; reflexivity].
Qed.

Lemma expireOrder_reaches oid now s :
  reaches s (snd (expireOrder oid now s)).
Proof.
  unfold expireOrder.
  destruct (JsMap.get oid (orders s)) as [o|] eqn:Hg; simpl; [|apply reaches_refl].
  destruct (negb (OrderStatus_eqb (status o) active)); simpl; [apply reaches_refl|].
  apply (reaches_store oid o); auto; [repeat split|left; split; reflexivity].
Qed.

Lemma deleteOrder_reaches oid u s :
  reaches s (snd (deleteOrder oid u s)).
Proof.
  unfold deleteOrder.
  destruct (JsMap.get oid (orders s)) as [o|] eqn:Hg; simpl; [|apply reaches_refl].
  destruct (negb (String.eqb (createdBy o) u)); simpl; [apply reaches_refl|].
  exists [RemoveOrder oid]. split; [|reflexivity].
  apply path_one. now apply tr_remove.
Qed.

Lemma checkAndExpireOrders_reaches now s :
  reaches s (snd (checkAndExpireOrders now s)).
Proof.
  unfold checkAndExpireOrders.
  generalize (@nil string). generalize (JsMap.entries (orders s)).
  intros l. revert s. induction l as [|[k' o'] r IH]; intros s ids; simpl.
  - apply reaches_refl.
  - destruct (OrderStatus_eqb (status o') active && deadline_reached o' now
              && autoCloseOnDeadline (settings o')).
    + eapply reaches_trans; [apply expireOrder_reaches|apply IH].
    + apply IH.
Qed.

Lemma joinOrder_reaches ps r now pid mid s :
  well_keyed s -> reaches s (snd (joinOrder ps r now pid mid s)).
Proof.
  intros Hw. unfold joinOrder.
  destruct (order (validateOrderCode (join_orderCode r) now s)) as [o|] eqn:Ho;
    simpl; [|apply reaches_refl].
  destruct (negb (isValid (validateOrderCode (join_orderCode r) now s)));
    simpl; [apply reaches_refl|].
  destruct (validateOrderCode_order _ _ _ _ Ho) as (oid & _ & Hg).
  unfold joinOrder_validated.
  destruct (participantService_check ps r now o); simpl; [apply reaches_refl|].
  destruct (find (already_joined r) (participants o)) eqn:Hf; simpl;
    [apply reaches_refl|].
  destruct (capacity_reached o); simpl; [apply reaches_refl|].
  pose proof (well_keyed_get oid o s Hw Hg) as Hid.
  eapply reaches_trans; [|apply reaches_push; reflexivity].
  rewrite Hid. apply (reaches_commit oid o); auto; [repeat split|].
  right. left. exists (member_of (joined_participant r now pid)). split.
  - unfold roster. apply Forall_map, Forall_forall. intros q Hin.
    now apply not_joined_no_clash, (find_none _ _ Hf).
  - unfold roster. simpl. now rewrite map_app.
Qed.

Lemma leaveOrder_reaches oid p now mid s :
  reaches s (snd (leaveOrder oid p now mid s)).
Proof.
  unfold leaveOrder.
  destruct (JsMap.get oid (orders s)) as [o|] eqn:Hg; simpl; [|apply reaches_refl].
  destruct (findIndex _ (participants o)) as [i|]; simpl; [|apply reaches_refl].
  destruct (nth_error (participants o) i) as [rp|]; simpl; [|apply reaches_refl].
  eapply reaches_trans; [|apply reaches_push; reflexivity].
  apply (reaches_commit oid o); auto; [repeat split|].
  right. right. exists i. unfold roster. simpl. apply map_splice_one.
Qed.

Lemma addOrderItem_reaches ms oid p r now newId s :
  reaches s (snd (addOrderItem ms oid p r now newId s)).
Proof.
  unfold addOrderItem.
  destruct (JsMap.get oid (orders s)) as [o|] eqn:Hg; simpl; [|apply reaches_refl].
  destruct (negb (OrderStatus_eqb (status o) active)); simpl; [apply reaches_refl|].
  destruct (negb (allowModification (settings o))); simpl; [apply reaches_refl|].
  destruct (findIndex _ (participants o)) as [i|]; simpl; [|apply reaches_refl].
  destruct (getMenuById ms (menuId o)) as [menu|]; simpl; [|apply reaches_refl].
  destruct (find _ (menu_items menu)) as [mi|]; simpl; [|apply reaches_refl].
  destruct (negb (isAvailable mi)); simpl; [apply reaches_refl|].
  destruct (nth_error (participants o) i) as [pt|] eqn:Hn; simpl;
    [|apply reaches_refl].
  apply (reaches_commit oid o); auto; [repeat split|].
  left. unfold roster. simpl. now apply (map_assign_index _ _ _ pt).
Qed.

Lemma updateOrderItem_reaches oid p i r now s :
  reaches s (snd (updateOrderItem oid p i r now s)).
Proof.
  unfold updateOrderItem.
  destruct (JsMap.get oid (orders s)) as [o|] eqn:Hg; simpl; [|apply reaches_refl].
  destruct (negb (OrderStatus_eqb (status o) active)); simpl; [apply reaches_refl|].
  destruct (negb (allowModification (settings o))); simpl; [apply reaches_refl|].
  destruct (findIndex _ (participants o)) as [pi|]; simpl; [|apply reaches_refl].
  destruct (nth_error (participants o) pi) as [pt|] eqn:Hn; simpl;
    [|apply reaches_refl].
  destruct (findIndex _ (items pt)) as [ii|]; simpl; [|apply reaches_refl].
  destruct (nth_error (items pt) ii) as [it|]; simpl; [|apply reaches_refl].
  apply (reaches_commit oid o); auto; [repeat split|].
  left. unfold roster. simpl. now apply (map_assign_index _ _ _ pt).
Qed.

Lemma removeOrderItem_reaches oid p i now s :
  reaches s (snd (removeOrderItem oid p i now s)).
Proof.
  unfold removeOrderItem.
  destruct (JsMap.get oid (orders s)) as [o|] eqn:Hg; simpl; [|apply reaches_refl].
  destruct (negb (OrderStatus_eqb (status o) active)); simpl; [apply reaches_refl|].
  destruct (negb (allowModification (settings o))); simpl; [apply reaches_refl|].
  destruct (findIndex _ (participants o)) as [pi|]; simpl; [|apply reaches_refl].
  destruct (nth_error (participants o) pi) as [pt|] eqn:Hn; simpl;
    [|apply reaches_refl].
  destruct (findIndex _ (items pt)) as [ii|]; simpl; [|apply reaches_refl].
  apply (reaches_commit oid o); auto; [repeat split|].
  left. unfold roster. simpl. now apply (map_assign_index _ _ _ pt).
Qed.

Lemma addOrderItemWithHistory_reaches ms oid p r now newId mid s :
  reaches s (snd (addOrderItemWithHistory ms oid p r now newId mid s)).
Proof.
  unfold addOrderItemWithHistory.
  destruct (negb (canModify (checkModificationPermission oid p now s)));
    [apply reaches_refl|].
  pose proof (addOrderItem_reaches ms oid p r now newId s) as H.
  destruct (addOrderItem ms oid p r now newId s) as [[item|] s1]; simpl in *; auto.
  destruct (find_participant oid p s1); simpl; auto.
  eapply reaches_trans; [exact H|apply reaches_push; reflexivity].
Qed.

Lemma updateOrderItemWithHistory_reaches oid p i r now mid s :
  reaches s (snd (updateOrderItemWithHistory oid p i r now mid s)).
Proof.
  unfold updateOrderItemWithHistory.
  destruct (negb (canModify (checkModificationPermission oid p now s)));
    [apply reaches_refl|].
  pose proof (updateOrderItem_reaches oid p i r now s) as H.
  destruct (updateOrderItem oid p i r now s) as [[item|] s1]; simpl in *; auto.
  destruct (find_participant oid p s) as [pt|]; simpl; auto.
  destruct (find _ (items pt)); simpl; auto.
  eapply reaches_trans; [exact H|apply reaches_push; reflexivity].
Qed.

Lemma removeOrderItemWithHistory_reaches oid p i now mid s :
  reaches s (snd (removeOrderItemWithHistory oid p i now mid s)).
Proof.
  unfold removeOrderItemWithHistory.
  destruct (negb (canModify (checkModificationPermission oid p now s)));
    [apply reaches_refl|].
  pose proof (removeOrderItem_reaches oid p i now s) as H.
  destruct (removeOrderItem oid p i now s) as [[|] s1]; simpl in *; auto.
  destruct (find_participant oid p s) as [pt|]; simpl; auto.
  destruct (find _ (items pt)); simpl; auto.
  eapply reaches_trans; [exact H|apply reaches_push; reflexivity].
Qed.

Lemma getOrderModificationHistory_reaches oid s :
  reaches s (snd (getOrderModificationHistory oid s)).
Proof.
  unfold getOrderModificationHistory.
  destruct (JsMap.get oid (modifications s)) as [l|] eqn:Hg; simpl.
  - exists [SortRecords oid]. split; [|reflexivity].
    apply path_one. now apply tr_sort.
  - apply reaches_refl.
Qed.

(** A call that creates no order is a sequence of steps that create none. *)
Lemma run_operation_reaches ps op s :
  creation_of op = None -> well_keyed s -> reaches s (run_operation ps op s).
Proof.
  intros Hc Hw. destruct op; simpl in *; try discriminate.
  - apply updateOrder_reaches; [split; reflexivity|assumption].
  - apply closeOrder_reaches.
  - apply deleteOrder_reaches.
  - apply expireOrder_reaches.
  - apply checkAndExpireOrders_reaches.
  - now apply joinOrder_reaches.
  - apply leaveOrder_reaches.
  - apply addOrderItem_reaches.
  - apply updateOrderItem_reaches.
  - apply removeOrderItem_reaches.
  - apply addOrderItemWithHistory_reaches.
  - apply updateOrderItemWithHistory_reaches.
  - apply removeOrderItemWithHistory_reaches.
  - apply calculateOrderSummary_reaches.
  - apply getOrderModificationHistory_reaches.
Qed.

(** [createGroupOrder] is one creation step, or none when it throws. *)
Lemma createGroupOrder_path ms defaults u r now newId newCode s :
  snd (createGroupOrder ms defaults u r now newId newCode s) = s
  \/ path [CreateOrder newId newCode] s
       (snd (createGroupOrder ms defaults u r now newId newCode s)).
Proof.
  unfold createGroupOrder.
  destruct (getMenuById ms (create_menuId r)); simpl; auto.
  destruct (negb (canUserViewMenu ms (create_menuId r) u)); simpl; auto.
  right. apply path_one.
  match goal with
  | |- transition _ _ {| orders := JsMap.set _ ?o _ |} =>
      exact (tr_create s newId o eq_refl eq_refl eq_refl)
  end.
Qed.

Lemma run_operation_path ps op s :
  well_keyed s -> exists ls, path ls s (run_operation ps op s).
Proof.
  intros Hw. destruct (creation_of op) as [[k c]|] eqn:Hc.
  - destruct op; simpl in *; try discriminate.
    destruct (createGroupOrder_path menuService defaults userId_ request now
                newId newCode s) as [->|H].
    + exists []. constructor.
    + eexists. exact H.
  - destruct (run_operation_reaches ps op s Hc Hw) as (ls & H & _). eauto.
Qed.

(** ** Invariants of the transitions *)

Lemma keys_set_in {V} (k : string) (v : V) (m : JsMap.t V) :
  In k (JsMap.keys m) -> JsMap.keys (JsMap.set k v m) = JsMap.keys m.
Proof.
  unfold JsMap.keys. induction m as [|[k' v'] r IH]; simpl; [tauto|].
  destruct (String.eqb k k') eqn:E; simpl.
  - apply String.eqb_eq in E. now subst.
  - intros [Hk|Hk]; [apply String.eqb_neq in E; congruence|].
    now rewrite IH.
Qed.

Lemma keys_set_notin {V} (k : string) (v : V) (m : JsMap.t V) :
  ~ In k (JsMap.keys m) -> JsMap.keys (JsMap.set k v m) = JsMap.keys m ++ [k].
Proof.
  unfold JsMap.keys. induction m as [|[k' v'] r IH]; simpl; auto.
  intros Hn. destruct (String.eqb k k') eqn:E; simpl.
  - apply String.eqb_eq in E. subst. tauto.
  - rewrite IH; auto.
Qed.

Lemma get_none_keys {V} (k : string) (m : JsMap.t V) :
  JsMap.get k m = None <-> ~ In k (JsMap.keys m).
Proof.
  unfold JsMap.keys. induction m as [|[k' v'] r IH]; simpl; [tauto|].
  destruct (String.eqb k k') eqn:E.
  - apply String.eqb_eq in E. subst. split; [discriminate|tauto].
  - apply String.eqb_neq in E. rewrite IH. split; [|tauto].
    intros H [Hk|Hk]; auto.
Qed.

Lemma keys_distinct_set {V} (k : string) (v : V) (m : JsMap.t V) :
  keys_distinct m -> keys_distinct (JsMap.set k v m).
Proof.
  unfold keys_distinct. intros Hm.
  destruct (in_dec string_dec k (JsMap.keys m)) as [Hin|Hn].
  - now rewrite keys_set_in.
  - rewrite keys_set_notin; auto. apply NoDup_app; auto.
    + repeat constructor. simpl. tauto.
    + intros a Ha [<-|[]]. contradiction.
Qed.

Lemma keys_distinct_delete {V} (k : string) (m : JsMap.t V) :
  keys_distinct m -> keys_distinct (JsMap.delete k m).
Proof.
  unfold keys_distinct, JsMap.delete, JsMap.keys.
  induction m as [|[k' v'] r IH]; simpl; auto.
  intros Hm. inversion Hm; subst.
  destruct (negb (String.eqb k k')); simpl; auto.
  constructor; auto. intros Hin. apply H1.
  apply in_map_iff in Hin. destruct Hin as (e & He & Hin).
  apply filter_In in Hin. apply in_map_iff. exists e. tauto.
Qed.

Lemma transition_keys_distinct l s s' :
  transition l s s' ->
  keys_distinct (orders s) -> keys_distinct (orders s').
Proof.
  intros H. destruct H; simpl; auto using keys_distinct_set, keys_distinct_delete.
Qed.

Lemma path_keys_distinct ls s s' :
  path ls s s' -> keys_distinct (orders s) -> keys_distinct (orders s').
Proof.
  induction 1; auto. intros Hk. apply IHpath.
  eapply transition_keys_distinct; eauto.
Qed.

Lemma run_keys_distinct ps ops s :
  well_keyed s -> keys_distinct (orders s) ->
  keys_distinct (orders (run ps ops s)).
Proof.
  unfold run. revert s. induction ops as [|op r IH]; intros s Hw Hk; simpl; auto.
  apply IH.
  - now apply run_operation_well_keyed.
  - destruct (run_operation_path ps op s Hw) as [ls Hp].
    eapply path_keys_distinct; eauto.
Qed.

(** ** The sweep, entry by entry *)

Lemma get_app_notin {V} (k : string) (m1 m2 : JsMap.t V) :
  ~ In k (JsMap.keys m1) -> JsMap.get k (m1 ++ m2) = JsMap.get k m2.
Proof.
  unfold JsMap.keys. induction m1 as [|[k' v'] r IH]; simpl; auto.
  intros Hn. destruct (String.eqb k k') eqn:E.
  - apply String.eqb_eq in E. subst. tauto.
  - apply IH. tauto.
Qed.

Lemma set_app_notin {V} (k : string) (v v' : V) (m1 m2 : JsMap.t V) :
  ~ In k (JsMap.keys m1) ->
  JsMap.set k v' (m1 ++ (k, v) :: m2) = m1 ++ (k, v') :: m2.
Proof.
  unfold JsMap.keys. induction m1 as [|[k' w] r IH]; simpl.
  - now rewrite String.eqb_refl.
  - intros Hn. destruct (String.eqb k k') eqn:E.
    + apply String.eqb_eq in E. subst. tauto.
    + rewrite IH; auto.
Qed.

Lemma sweep_fold (now : Z) (l pre : list (string * GroupOrder))
    (ids : list string) (s : ServiceState) :
  orders s = pre ++ l ->
  keys_distinct (pre ++ l) ->
  fold_left (sweep_entry now) l (ids, s)
  = (ids ++ map fst (filter (fun e => due now (snd e)) l),
     set_orders s (pre ++ map (swept now) l)).
Proof.
  revert pre ids s. induction l as [|[k o] r IH]; intros pre ids s Ho Hk.
  - simpl. rewrite app_nil_r. rewrite <- Ho. destruct s. reflexivity.
  - simpl. unfold swept at 1. simpl. fold (due now o).
    assert (Hn : ~ In k (JsMap.keys pre)).
    { unfold keys_distinct, JsMap.keys in Hk. rewrite map_app in Hk.
      simpl in Hk. apply NoDup_remove_2 in Hk. intros Hin. apply Hk.
      apply in_or_app. now left. }
    destruct (due now o) eqn:Hd.
    + assert (Hst : status o = active).
      { unfold due in Hd. destruct (status o); simpl in Hd; auto; discriminate. }
      unfold expireOrder. rewrite Ho, get_app_notin by auto. simpl.
      rewrite String.eqb_refl, Hst. simpl.
      rewrite set_app_notin by auto.
      rewrite (IH (pre ++ [(k, with_status o expired now)])).
      * simpl. rewrite <- !app_assoc. reflexivity.
      * simpl. now rewrite <- app_assoc.
      * rewrite <- app_assoc. simpl.
        unfold keys_distinct, JsMap.keys in *.
        rewrite map_app in *. exact Hk.
    + rewrite (IH (pre ++ [(k, o)])).
      * rewrite <- !app_assoc. reflexivity.
      * now rewrite <- app_assoc.
      * now rewrite <- app_assoc.
Qed.

Lemma checkAndExpireOrders_sweep (now : Z) (s : ServiceState) :
  keys_distinct (orders s) ->
  checkAndExpireOrders now s
  = (map fst (filter (fun e => due now (snd e)) (orders s)),
     set_orders s (map (swept now) (orders s))).
Proof.
  intros Hk. unfold checkAndExpireOrders, JsMap.entries.
  now rewrite (sweep_fold now (orders s) [] [] s eq_refl Hk).
Qed.

(** X1. [checkAndExpireOrders] returns the ids of exactly the orders that
    are active, due and set to close on their deadline, in the order of the
    store; it marks exactly those orders expired (with [closedAt] and
    [updatedAt] set to the time of the sweep) and leaves every other order,
    the code index and the history as they are. *)
Theorem checkAndExpireOrders_exact (now : Z) (s : ServiceState) :
  keys_distinct (orders s) ->
  checkAndExpireOrders now s
  = (map fst (filter (fun e => due now (snd e)) (orders s)),
     set_orders s (map (swept now) (orders s))).
Proof.
  intros Hk. unfold checkAndExpireOrders, JsMap.entries.
  now rewrite (sweep_fold now (orders s) [] [] s eq_refl Hk).
Qed.

Lemma checkAndExpireOrders_exact_witness :
  keys_distinct (orders scenario_ordered)
  /\ checkAndExpireOrders 400000 scenario_ordered
     = (map fst (filter (fun e => due 400000 (snd e)) (orders scenario_ordered)),
        set_orders scenario_ordered
          (map (swept 400000) (orders scenario_ordered))).
Proof.
  split.
  - unfold keys_distinct. vm_compute. repeat constructor. simpl. tauto.
  - apply (checkAndExpireOrders_exact 400000 scenario_ordered).
    unfold keys_distinct. vm_compute. repeat constructor. simpl. tauto.
Defined.

Lemma swept_not_due (now now' : Z) (e : string * GroupOrder) :
  now' <= now -> due now' (snd (swept now e)) = false.
Proof.
  intros Hle. unfold swept. destruct (due now (snd e)) eqn:Hd; simpl; auto.
  destruct (due now' (snd e)) eqn:Hd'; auto.
  unfold due, deadline_reached in *.
  destruct (OrderStatus_eqb (status (snd e)) active); simpl in *; auto.
  destruct (autoCloseOnDeadline (settings (snd e)));
    rewrite ?andb_true_r, ?andb_false_r in *; auto.
  destruct (deadline (snd e)) as [d|]; auto.
  apply Z.leb_le in Hd'. apply Z.leb_gt in Hd. lia.
Qed.

Lemma swept_keys (now : Z) (m : JsMap.t GroupOrder) :
  JsMap.keys (map (swept now) m) = JsMap.keys m.
Proof.
  unfold JsMap.keys. rewrite map_map. apply map_ext.
  intros e. unfold swept. now destruct (due now (snd e)).
Qed.

(** X2. A sweep that follows a sweep, with a clock that has not advanced,
    finds nothing to expire: it returns the empty list and leaves the state
    as it is. *)
Theorem checkAndExpireOrders_again (now now' : Z) (s : ServiceState) :
  keys_distinct (orders s) ->
  now' <= now ->
  checkAndExpireOrders now' (snd (checkAndExpireOrders now s))
  = ([], snd (checkAndExpireOrders now s)).
Proof.
  intros Hk Hle. rewrite (checkAndExpireOrders_sweep now s Hk). simpl.
  rewrite checkAndExpireOrders_sweep.
  2: { simpl. unfold keys_distinct. now rewrite swept_keys. }
  simpl.
  assert (H : forall m,
             filter (fun e => due now' (snd e)) (map (swept now) m) = []
             /\ map (swept now') (map (swept now) m) = map (swept now) m).
  { induction m as [|e r [IH1 IH2]]; simpl; auto.
    rewrite (swept_not_due now now' e Hle). split; auto.
    rewrite IH2. unfold swept at 1.
    now rewrite (swept_not_due now now' e Hle). }
  destruct (H (orders s)) as [-> ->]. reflexivity.
Qed.

Lemma checkAndExpireOrders_again_witness :
  checkAndExpireOrders 400000 (snd (checkAndExpireOrders 400000 scenario_ordered))
  = ([], snd (checkAndExpireOrders 400000 scenario_ordered)).
Proof.
  apply (checkAndExpireOrders_again 400000 400000 scenario_ordered).
  - unfold keys_distinct. vm_compute. repeat constructor. simpl. tauto.
  - lia.
Defined.

(** ** The history only grows *)

Lemma transition_record_kept l s s' (k : string) (m : OrderModification) :
  transition l s s' ->
  In m (stored_modifications k s) -> In m (stored_modifications k s').
Proof.
  intros H Hin. destruct H; auto; unfold stored_modifications in *; simpl.
  - destruct (string_dec k k0) as [->|Hne].
    + rewrite JsMapFacts.get_set_same. apply in_or_app. now left.
    + now rewrite JsMapFacts.get_set_other.
  - destruct (string_dec k k0) as [->|Hne].
    + rewrite JsMapFacts.get_set_same. rewrite H in Hin.
      eapply Permutation_in; [symmetry; apply sort_newest_first_perm|exact Hin].
    + now rewrite JsMapFacts.get_set_other.
Qed.

Lemma path_record_kept ls s s' (k : string) (m : OrderModification) :
  path ls s s' ->
  In m (stored_modifications k s) -> In m (stored_modifications k s').
Proof.
  induction 1; auto. intros Hin. apply IHpath.
  eapply transition_record_kept; eauto.
Qed.

(** X3. The modification history is append-only: a record stored for an
    order is still stored for that order after any sequence of calls.
    [deleteOrder] removes the order and its code but not its history, and
    the in-place sort of [getOrderModificationHistory] loses nothing. *)
Theorem history_is_append_only (participantService : option ParticipantService)
    (ops : list Operation) (s : ServiceState) (k : string)
    (m : OrderModification) :
  well_keyed s ->
  In m (stored_modifications k s) ->
  In m (stored_modifications k (run participantService ops s)).
Proof.
  unfold run. revert s. induction ops as [|op r IH]; intros s Hw Hin; simpl; auto.
  apply IH.
  - now apply run_operation_well_keyed.
  - destruct (run_operation_path participantService op s Hw) as [ls Hp].
    eapply path_record_kept; eauto.
Qed.

Lemma history_is_append_only_witness :
  In ex_record_alice
     (stored_modifications "order-1" (run None ex_closing_ops ex_state_alice))
  /\ getOrderById "order-1" (run None ex_closing_ops ex_state_alice) = None.
Proof.
  split.
  - apply (history_is_append_only None ex_closing_ops ex_state_alice
             "order-1" ex_record_alice).
    + unfold well_keyed. vm_compute. repeat constructor.
    + vm_compute. left. reflexivity.
  - vm_compute. reflexivity.
Defined.

(** ** The identity of an order *)

Lemma same_identity_trans (a b c : GroupOrder) :
  same_identity a b -> same_identity b c -> same_identity a c.
Proof.
  unfold same_identity. intros (A1 & A2 & A3 & A4) (B1 & B2 & B3 & B4).
  repeat split; congruence.
Qed.

Lemma identity_step_refl (a : option GroupOrder) : identity_step a a.
Proof.
  destruct a as [o|]; simpl; auto. right. exists o. split; auto.
  apply same_identity_refl.
Qed.

Lemma identity_step_trans (a b c : option GroupOrder) :
  identity_step a b -> identity_step b c -> identity_step a c.
Proof.
  destruct a as [o|]; simpl.
  - intros [->|(o' & -> & Hi)]; simpl.
    + intros ->. now left.
    + intros [->|(o'' & -> & Hj)]; [now left|].
      right. exists o''. split; auto. eapply same_identity_trans; eauto.
  - intros ->. simpl. auto.
Qed.

Lemma transition_identity (k : string) l s s' :
  transition l s s' -> avoids k [l] = true ->
  identity_step (JsMap.get k (orders s)) (JsMap.get k (orders s')).
Proof.
  intros H Ha. destruct H; simpl; try apply identity_step_refl.
  - destruct (string_dec k k0) as [->|Hne].
    + rewrite JsMapFacts.get_set_same, H. simpl. right. eauto.
    + rewrite JsMapFacts.get_set_other by auto. apply identity_step_refl.
  - simpl in Ha. rewrite andb_true_r in Ha. apply negb_true_iff in Ha.
    apply String.eqb_neq in Ha.
    rewrite JsMapFacts.get_set_other by auto. apply identity_step_refl.
  - destruct (string_dec k k0) as [->|Hne].
    + rewrite JsMapFacts.get_delete_same.
      destruct (JsMap.get k0 (orders s)); simpl; auto.
    + rewrite JsMapFacts.get_delete_other by auto. apply identity_step_refl.
Qed.

Lemma path_identity (k : string) ls s s' :
  path ls s s' -> avoids k ls = true ->
  identity_step (JsMap.get k (orders s)) (JsMap.get k (orders s')).
Proof.
  induction 1; intros Ha.
  - apply identity_step_refl.
  - simpl in Ha. apply andb_true_iff in Ha. destruct Ha as [Ha1 Ha2].
    eapply identity_step_trans; [|apply IHpath; exact Ha2].
    eapply transition_identity; eauto. simpl. now rewrite Ha1.
Qed.

Lemma quiet_avoids (k : string) (ls : list Label) :
  quiet ls = true -> avoids k ls = true.
Proof.
  unfold quiet, avoids. induction ls as [|l r IH]; simpl; auto.
  intros H. apply andb_true_iff in H. destruct H as [H1 H2].
  rewrite IH by auto. destruct l; auto. discriminate.
Qed.

Lemma run_operation_identity (k : string) ps op s :
  well_keyed s -> issues_id k op = false ->
  identity_step (JsMap.get k (orders s))
                (JsMap.get k (orders (run_operation ps op s))).
Proof.
  intros Hw Hk. destruct (creation_of op) as [[k' c]|] eqn:Hc.
  - destruct op; simpl in *; try discriminate.
    destruct (createGroupOrder_path menuService defaults userId_ request now
                newId newCode s) as [->|H].
    + apply identity_step_refl.
    + eapply path_identity; eauto. simpl. now rewrite Hk.
  - destruct (run_operation_reaches ps op s Hc Hw) as (ls & Hp & Hq).
    eapply path_identity; eauto. now apply quiet_avoids.
Qed.

Lemma updateOrder_identity (k oid u : string) (r : UpdateRequestBody)
    (now : Z) (s : ServiceState) :
  well_keyed s ->
  identity_step (JsMap.get k (orders s))
                (JsMap.get k (orders (snd (updateOrder oid u r now s)))).
Proof.
  intros Hw. unfold updateOrder.
  destruct (JsMap.get oid (orders s)) as [o|] eqn:Hg; simpl;
    [|apply identity_step_refl].
  destruct (negb (String.eqb (createdBy o) u)); simpl;
    [apply identity_step_refl|].
  destruct (negb (OrderStatus_eqb (status o) active)); simpl;
    [apply identity_step_refl|].
  destruct (string_dec k oid) as [->|Hne].
  - rewrite JsMapFacts.get_set_same, Hg. simpl. right. eexists. split; eauto.
    repeat split; simpl. symmetry. now apply (well_keyed_get oid o s).
  - rewrite JsMapFacts.get_set_other by auto. apply identity_step_refl.
Qed.

Lemma run_call_well_keyed ps c s :
  well_keyed s -> well_keyed (run_call ps c s).
Proof.
  intros Hw. destruct c as [op|oid u r now]; simpl.
  - now apply run_operation_well_keyed.
  - exact (proj2 (updateOrder_evolves EmptyString oid u r now s Hw)).
Qed.

Lemma run_call_identity (k : string) ps c s :
  well_keyed s -> call_issues_id k c = false ->
  identity_step (JsMap.get k (orders s))
                (JsMap.get k (orders (run_call ps c s))).
Proof.
  intros Hw Hk. destruct c as [op|oid u r now]; simpl in *.
  - now apply run_operation_identity.
  - now apply updateOrder_identity.
Qed.

(** The menu of an order is not among the fields that are put back: a
    request body that names a menu replaces it. *)
Lemma updateOrder_rewrites_menuId :
  option_map menuId
    (JsMap.get "order-1"
       (orders (snd (updateOrder "order-1" "creator" ex_body_menu 5000
                       ex_state_created))))
  = Some "menu-2"
  /\ menuId ex_order = "menu-1".
Proof. split; reflexivity. Qed.

(** X4. No call rewrites the id, the code, the creator or the creation time
    of an order: an order that is still in the store after any sequence of
    calls has them as before, whatever the bodies of the update requests
    carry ([updateOrder] spreads the body over the order and puts these
    four fields back). The id generator is taken not to issue the id of a
    stored order again. *)
Theorem order_identity_is_immutable
    (participantService : option ParticipantService)
    (cs : list Call) (s : ServiceState) (k : string) (o o' : GroupOrder) :
  well_keyed s ->
  forallb (fun c => negb (call_issues_id k c)) cs = true ->
  JsMap.get k (orders s) = Some o ->
  JsMap.get k (orders (run_calls participantService cs s)) = Some o' ->
  orderId o' = orderId o
  /\ orderCode o' = orderCode o
  /\ createdBy o' = createdBy o
  /\ createdAt o' = createdAt o.
Proof.
  intros Hw Hops Hg Hg'.
  assert (H : identity_step (JsMap.get k (orders s))
                (JsMap.get k (orders (run_calls participantService cs s)))).
  { clear Hg Hg'. unfold run_calls. revert s Hw.
    induction cs as [|c r IH]; intros s Hw; simpl.
    - apply identity_step_refl.
    - simpl in Hops. apply andb_true_iff in Hops. destruct Hops as [H1 H2].
      apply negb_true_iff in H1.
      eapply identity_step_trans.
      + apply run_call_identity; eauto.
      + apply IH; auto. now apply run_call_well_keyed. }
  rewrite Hg, Hg' in H. simpl in H.
  destruct H as [H|(o'' & Ho & Hi)]; [discriminate|].
  injection Ho as <-. exact Hi.
Qed.

Lemma order_identity_is_immutable_witness :
  orderId ex_order_overwritten = orderId ex_order
  /\ orderCode ex_order_overwritten = orderCode ex_order
  /\ createdBy ex_order_overwritten = createdBy ex_order
  /\ createdAt ex_order_overwritten = createdAt ex_order.
Proof.
  apply (order_identity_is_immutable None
           [UpdateOrderWith "order-1" "creator" ex_body_menu 5000;
            UpdateOrderWith "order-1" "creator" (ex_body_participants []) 6000]
           ex_state_created "order-1" ex_order ex_order_overwritten).
  - unfold well_keyed. vm_compute. repeat constructor.
  - reflexivity.
  - reflexivity.
  - vm_compute. reflexivity.
Defined.

(** ** The code index *)

Lemma transition_code_indexed l s s' :
  transition l s s' ->
  (forall k c, l = CreateOrder k c -> JsMap.get c (orderCodeIndex s) = None) ->
  code_indexed s -> code_indexed s'.
Proof.
  intros H Hfresh Hinv. destruct H; unfold code_indexed in *; simpl; auto.
  - intros k1 o1. destruct (string_dec k1 k) as [->|Hne].
    + rewrite JsMapFacts.get_set_same. intros [= <-].
      destruct H0 as (_ & -> & _). now apply Hinv.
    + rewrite JsMapFacts.get_set_other by auto. apply Hinv.
  - specialize (Hfresh k (orderCode o) eq_refl).
    intros k1 o1. destruct (string_dec k1 k) as [->|Hne].
    + rewrite JsMapFacts.get_set_same. intros [= <-].
      apply JsMapFacts.get_set_same.
    + rewrite JsMapFacts.get_set_other by auto. intros Hg.
      rewrite JsMapFacts.get_set_other; [now apply Hinv|].
      intros Heq. apply Hinv in Hg. congruence.
  - intros k1 o1. destruct (string_dec k1 k) as [->|Hne].
    + rewrite JsMapFacts.get_delete_same. discriminate.
    + rewrite JsMapFacts.get_delete_other by auto. intros Hg.
      rewrite JsMapFacts.get_delete_other; [now apply Hinv|].
      intros Heq. apply Hinv in Hg. apply Hinv in H. congruence.
Qed.

Lemma path_code_indexed ls s s' :
  path ls s s' -> quiet ls = true -> code_indexed s -> code_indexed s'.
Proof.
  induction 1; auto. intros Hq Hinv.
  simpl in Hq. apply andb_true_iff in Hq. destruct Hq as [Hl Hq].
  apply IHpath; auto. eapply transition_code_indexed; eauto.
  intros k c ->. discriminate.
Qed.

Lemma run_operation_code_indexed ps op s :
  well_keyed s ->
  match creation_of op with
  | Some (_, code) => JsMap.get code (orderCodeIndex s) = None
  | None => True
  end ->
  code_indexed s -> code_indexed (run_operation ps op s).
Proof.
  intros Hw Hf Hinv. destruct (creation_of op) as [[k c]|] eqn:Hc.
  - destruct op; simpl in *; try discriminate. injection Hc as <- <-.
    destruct (createGroupOrder_path menuService defaults userId_ request now
                newId newCode s) as [->|H]; auto.
    inversion H; subst. inversion H5; subst.
    eapply transition_code_indexed; eauto.
    intros k c [= <- <-]. exact Hf.
  - destruct (run_operation_reaches ps op s Hc Hw) as (ls & Hp & Hq).
    eapply path_code_indexed; eauto.
Qed.

Lemma run_code_indexed ps ops s :
  well_keyed s -> fresh_codes ps ops s -> code_indexed s ->
  code_indexed (run ps ops s).
Proof.
  unfold run. revert s. induction ops as [|op r IH]; intros s Hw Hf Hinv;
    simpl; auto.
  destruct Hf as [Hf1 Hf2]. apply IH; auto.
  - now apply run_operation_well_keyed.
  - now apply run_operation_code_indexed.
Qed.

(** X5. Order codes identify orders: when every created order gets a code
    that is not in the code index at that moment, then after any sequence
    of calls [getOrderByCode] finds every stored order under its code, and
    two stored orders never share a code. *)
Theorem codes_identify_orders (participantService : option ParticipantService)
    (ops : list Operation) (s : ServiceState) (k : string) (o : GroupOrder) :
  well_keyed s ->
  code_indexed s ->
  fresh_codes participantService ops s ->
  JsMap.get k (orders (run participantService ops s)) = Some o ->
  k <> "" ->
  getOrderByCode (orderCode o) (run participantService ops s) = Some o
  /\ forall k2 o2,
       JsMap.get k2 (orders (run participantService ops s)) = Some o2 ->
       orderCode o2 = orderCode o -> k2 = k.
Proof.
  intros Hw Hinv Hf Hg Hne.
  pose proof (run_code_indexed participantService ops s Hw Hf Hinv) as Hfinal.
  split.
  - unfold getOrderByCode, getOrderById. rewrite (Hfinal k o Hg). simpl.
    apply String.eqb_neq in Hne. now rewrite Hne.
  - intros k2 o2 Hg2 Hc. apply Hfinal in Hg. apply Hfinal in Hg2.
    congruence.
Qed.

Lemma codes_identify_orders_witness :
  getOrderByCode (orderCode ex_order_second) (run None ex_two_orders initialState)
  = Some ex_order_second.
Proof.
  refine (proj1 (codes_identify_orders None ex_two_orders initialState
                   "order-2" ex_order_second _ _ _ _ _)).
  - constructor.
  - intros k0 o0 H0. discriminate.
  - vm_compute. auto.
  - vm_compute. reflexivity.
  - discriminate.
Defined.

(** X6. [generateOrderCode] returns the code of the first roll whose code
    is not in the code index, and it returns one as soon as the random
    source gives such a roll; the code it returns is never in the index. *)
Theorem generateOrderCode_first_free (index : JsMap.t string) (rolls : list Z)
    (code : string) :
  generateOrderCode index rolls = Some code
  <-> exists taken roll rest,
        rolls = taken ++ roll :: rest
        /\ Forall (fun r => JsMap.get (show_number r) index <> None) taken
        /\ JsMap.get (show_number roll) index = None
        /\ code = show_number roll.
Proof.
  split.
  - induction rolls as [|r rest IH]; simpl; [discriminate|].
    unfold JsMap.has.
    destruct (JsMap.get (show_number r) index) eqn:Hg.
    + intros H. destruct (IH H) as (t & roll & rest' & -> & Ht & Hf & Hc).
      exists (r :: t), roll, rest'. repeat split; auto.
      constructor; auto. congruence.
    + intros [= <-]. exists [], r, rest. repeat split; auto.
  - intros (t & roll & rest & -> & Ht & Hf & ->).
    induction Ht as [|r t Hr Ht IH]; simpl; unfold JsMap.has.
    + now rewrite Hf.
    + destruct (JsMap.get (show_number r) index); [exact IH|contradiction].
Qed.

(** ** The summary, field by field *)

Lemma sum_of_set {V} (f : V -> Z) (k : string) (v : V) (m : JsMap.t V) :
  sum_of f (JsMap.values (JsMap.set k v m))
  = sum_of f (JsMap.values m) + f v
    - match JsMap.get k m with Some old => f old | None => 0 end.
Proof.
  unfold JsMap.values. induction m as [|[k' v'] r IH]; simpl; [lia|].
  destruct (String.eqb k k'); simpl; [lia|]. rewrite IH. lia.
Qed.

Lemma summary_item_sums (p : OrderParticipant) (item : OrderItem)
    (n : Z) (m : JsMap.t OrderItemBreakdown) :
  fst (summary_item p (n, m) item) = n + quantity item
  /\ sum_of bd_totalQuantity (JsMap.values (snd (summary_item p (n, m) item)))
     = sum_of bd_totalQuantity (JsMap.values m) + quantity item
  /\ sum_of bd_totalAmount (JsMap.values (snd (summary_item p (n, m) item)))
     = sum_of bd_totalAmount (JsMap.values m) + totalPrice item.
Proof.
  unfold summary_item.
  destruct (JsMap.get (menuItemId item) m) as [e|] eqn:Hg; simpl;
    rewrite !sum_of_set, Hg; simpl; repeat split; lia.
Qed.

Lemma summary_items_sums (p : OrderParticipant) (its : list OrderItem)
    (n : Z) (m : JsMap.t OrderItemBreakdown) :
  fst (fold_left (summary_item p) its (n, m)) = n + sum_of quantity its
  /\ sum_of bd_totalQuantity
       (JsMap.values (snd (fold_left (summary_item p) its (n, m))))
     = sum_of bd_totalQuantity (JsMap.values m) + sum_of quantity its
  /\ sum_of bd_totalAmount
       (JsMap.values (snd (fold_left (summary_item p) its (n, m))))
     = sum_of bd_totalAmount (JsMap.values m) + sum_of totalPrice its.
Proof.
  revert n m. induction its as [|it r IH]; intros n m.
  - simpl. repeat split; lia.
  - change (fold_left (summary_item p) (it :: r) (n, m))
      with (fold_left (summary_item p) r (summary_item p (n, m) it)).
    destruct (summary_item_sums p it n m) as (H1 & H2 & H3).
    destruct (summary_item p (n, m) it) as [n' m'].
    destruct (IH n' m') as (I1 & I2 & I3). rewrite I1, I2, I3.
    simpl in *. lia.
Qed.

Lemma summary_participant_eq (p : OrderParticipant) (n a : Z)
    (m : JsMap.t OrderItemBreakdown) :
  summary_participant (n, a, m) p
  = (fst (fold_left (summary_item p) (items p) (n, m)), a + totalAmount p,
     snd (fold_left (summary_item p) (items p) (n, m))).
Proof.
  unfold summary_participant.
  now destruct (fold_left (summary_item p) (items p) (n, m)).
Qed.

Lemma summary_participants_sums (ps : list OrderParticipant)
    (n a : Z) (m : JsMap.t OrderItemBreakdown) :
  let r := fold_left summary_participant ps (n, a, m) in
  fst (fst r) = n + sum_of quantity (all_items ps)
  /\ sum_of bd_totalQuantity (JsMap.values (snd r))
     = sum_of bd_totalQuantity (JsMap.values m) + sum_of quantity (all_items ps)
  /\ sum_of bd_totalAmount (JsMap.values (snd r))
     = sum_of bd_totalAmount (JsMap.values m) + sum_of totalPrice (all_items ps).
Proof.
  revert n a m. induction ps as [|p r IH]; intros n a m.
  - simpl. repeat split; lia.
  - change (fold_left summary_participant (p :: r) (n, a, m))
      with (fold_left summary_participant r (summary_participant (n, a, m) p)).
    rewrite summary_participant_eq.
    destruct (summary_items_sums p (items p) n m) as (H1 & H2 & H3).
    destruct (fold_left (summary_item p) (items p) (n, m)) as [n' m'].
    destruct (IH n' (a + totalAmount p) m') as (I1 & I2 & I3).
    cbv beta iota zeta in *. simpl fst. simpl snd. rewrite I1, I2, I3.
    unfold all_items in *. simpl flat_map. rewrite !sum_of_app.
    simpl in *. lia.
Qed.

Lemma accumulate_sum {A} (f : A -> Z) (l : list A) :
  accumulate f l = sum_of f l.
Proof. unfold accumulate. now rewrite fold_left_sum. Qed.

Lemma summary_items_listed (p : OrderParticipant) (its : list OrderItem)
    (n : Z) (m : JsMap.t OrderItemBreakdown) :
  sum_of listed (JsMap.values (snd (fold_left (summary_item p) its (n, m))))
  = sum_of listed (JsMap.values m) + Z.of_nat (List.length its).
Proof.
  revert n m. induction its as [|it r IH]; intros n m.
  - simpl. lia.
  - change (fold_left (summary_item p) (it :: r) (n, m))
      with (fold_left (summary_item p) r (summary_item p (n, m) it)).
    assert (Hstep : sum_of listed (JsMap.values (snd (summary_item p (n, m) it)))
                    = sum_of listed (JsMap.values m) + 1).
    { unfold summary_item.
      destruct (JsMap.get (menuItemId it) m) as [e|] eqn:Hg; simpl;
        rewrite !sum_of_set, Hg; unfold listed; simpl; [|lia].
      rewrite length_app. simpl. lia. }
    destruct (summary_item p (n, m) it) as [n' m'].
    rewrite IH. simpl in Hstep. rewrite Hstep.
    cbn [List.length]. lia.
Qed.

Lemma summary_participants_listed (ps : list OrderParticipant)
    (n a : Z) (m : JsMap.t OrderItemBreakdown) :
  sum_of listed (JsMap.values (snd (fold_left summary_participant ps (n, a, m))))
  = sum_of listed (JsMap.values m) + Z.of_nat (List.length (all_items ps)).
Proof.
  revert n a m. induction ps as [|p r IH]; intros n a m.
  - simpl. lia.
  - change (fold_left summary_participant (p :: r) (n, a, m))
      with (fold_left summary_participant r (summary_participant (n, a, m) p)).
    rewrite summary_participant_eq, IH, summary_items_listed.
    unfold all_items. cbn [flat_map]. rewrite length_app. lia.
Qed.

(** X7. The summary [calculateOrderSummary] computes counts the
    participants and accounts for every order item: [totalItems] is the
    quantities of all order items, added up participant after participant
    and item after item, [totalAmount] is the participants' [totalAmount],
    added up in their order, and the rows of the breakdown list a holder
    once for every order item. The summary carries the time at which it
    was computed. *)
Theorem summarize_accounts_for_every_item (ps : list OrderParticipant) (now : Z) :
  totalParticipants (summarize ps now) = Z.of_nat (List.length ps)
  /\ totalItems (summarize ps now) = accumulate quantity (all_items ps)
  /\ summaryTotalAmount (summarize ps now) = accumulate totalAmount ps
  /\ sum_of listed (itemBreakdown (summarize ps now))
     = Z.of_nat (List.length (all_items ps))
  /\ lastUpdated (summarize ps now) = now.
Proof.
  rewrite !accumulate_sum.
  pose proof (summarize_totalAmount ps now) as Ha.
  unfold summarize in *.
  pose proof (summary_participants_sums ps 0 0 JsMap.empty) as H.
  pose proof (summary_participants_listed ps 0 0 JsMap.empty) as Hl.
  destruct (fold_left summary_participant ps (0, 0, JsMap.empty)) as [[n a] m].
  simpl in *. destruct H as (H1 & H2 & H3). repeat split; auto; lia.
Qed.

Lemma In_get {V} (k : string) (v : V) (m : JsMap.t V) :
  keys_distinct m -> In (k, v) m -> JsMap.get k m = Some v.
Proof.
  unfold keys_distinct, JsMap.keys.
  induction m as [|[k' v'] r IH]; simpl; [tauto|].
  intros Hd [Hin|Hin]; inversion Hd; subst.
  - injection Hin as -> ->. now rewrite String.eqb_refl.
  - destruct (String.eqb k k') eqn:E; auto.
    apply String.eqb_eq in E. subst. exfalso. apply H1.
    apply in_map_iff. exists (k', v). auto.
Qed.

Lemma breakdown_eq (a b : OrderItemBreakdown) :
  bd_menuItemId a = bd_menuItemId b ->
  bd_menuItemName a = bd_menuItemName b ->
  bd_totalQuantity a = bd_totalQuantity b ->
  bd_totalAmount a = bd_totalAmount b ->
  bd_participants a = bd_participants b ->
  a = b.
Proof. destruct a, b; simpl; intros; subst; reflexivity. Qed.

Lemma entry_of_snoc (k : string) (l : list (string * OrderItem))
    (nick : string) (item : OrderItem) :
  entry_of k (l ++ [(nick, item)])
  = if String.eqb (menuItemId item) k then
      match entry_of k l with
      | Some e =>
          Some {| bd_menuItemId := bd_menuItemId e;
                  bd_menuItemName := bd_menuItemName e;
                  bd_totalQuantity := bd_totalQuantity e + quantity item;
                  bd_totalAmount := bd_totalAmount e + totalPrice item;
                  bd_participants := bd_participants e ++ [nick] |}
      | None =>
          Some {| bd_menuItemId := menuItemId item;
                  bd_menuItemName := menuItemName item;
                  bd_totalQuantity := quantity item;
                  bd_totalAmount := totalPrice item;
                  bd_participants := [nick] |}
      end
    else entry_of k l.
Proof.
  unfold entry_of. rewrite filter_app. simpl.
  destruct (String.eqb (menuItemId item) k) eqn:E.
  - destruct (filter _ l) as [|[n0 i0] rest]; simpl.
    + f_equal. apply breakdown_eq; simpl; auto; lia.
    + f_equal. apply breakdown_eq; simpl; auto.
      * rewrite map_app, sum_of_app. simpl. lia.
      * rewrite map_app, sum_of_app. simpl. lia.
      * now rewrite map_app.
  - now rewrite app_nil_r.
Qed.

(** The map the loop builds holds, under every key, the entry of the items
    seen so far. *)
Lemma summary_item_entries (p : OrderParticipant) (item : OrderItem) (n : Z)
    (m : JsMap.t OrderItemBreakdown) (l : list (string * OrderItem)) :
  keys_distinct m ->
  (forall k, JsMap.get k m = entry_of k l) ->
  keys_distinct (snd (summary_item p (n, m) item))
  /\ forall k, JsMap.get k (snd (summary_item p (n, m) item))
               = entry_of k (l ++ [(nickname p, item)]).
Proof.
  intros Hd Hm. unfold summary_item.
  destruct (JsMap.get (menuItemId item) m) as [e|] eqn:Hg; simpl;
    (split; [now apply keys_distinct_set|]); intros k;
    rewrite entry_of_snoc;
    destruct (String.eqb (menuItemId item) k) eqn:E.
  - apply String.eqb_eq in E. subst k.
    rewrite JsMapFacts.get_set_same, <- Hm, Hg. reflexivity.
  - apply String.eqb_neq in E.
    rewrite JsMapFacts.get_set_other by congruence. apply Hm.
  - apply String.eqb_eq in E. subst k.
    rewrite JsMapFacts.get_set_same, <- Hm, Hg. reflexivity.
  - apply String.eqb_neq in E.
    rewrite JsMapFacts.get_set_other by congruence. apply Hm.
Qed.

Lemma summary_items_entries (p : OrderParticipant) (its : list OrderItem) (n : Z)
    (m : JsMap.t OrderItemBreakdown) (l : list (string * OrderItem)) :
  keys_distinct m ->
  (forall k, JsMap.get k m = entry_of k l) ->
  keys_distinct (snd (fold_left (summary_item p) its (n, m)))
  /\ forall k, JsMap.get k (snd (fold_left (summary_item p) its (n, m)))
               = entry_of k (l ++ map (fun item => (nickname p, item)) its).
Proof.
  revert n m l. induction its as [|it r IH]; intros n m l Hd Hm.
  - simpl. rewrite app_nil_r. auto.
  - change (fold_left (summary_item p) (it :: r) (n, m))
      with (fold_left (summary_item p) r (summary_item p (n, m) it)).
    destruct (summary_item_entries p it n m l Hd Hm) as [Hd' Hm'].
    destruct (summary_item p (n, m) it) as [n' m']. simpl in Hd', Hm'.
    destruct (IH n' m' _ Hd' Hm') as [Hd'' Hm''].
    split; auto. intros k. rewrite Hm''. simpl. now rewrite <- app_assoc.
Qed.

Lemma summary_participants_entries (ps : list OrderParticipant) (n a : Z)
    (m : JsMap.t OrderItemBreakdown) (l : list (string * OrderItem)) :
  keys_distinct m ->
  (forall k, JsMap.get k m = entry_of k l) ->
  keys_distinct (snd (fold_left summary_participant ps (n, a, m)))
  /\ forall k, JsMap.get k (snd (fold_left summary_participant ps (n, a, m)))
               = entry_of k (l ++ labelled_items ps).
Proof.
  revert n a m l. induction ps as [|p r IH]; intros n a m l Hd Hm.
  - simpl. rewrite app_nil_r. auto.
  - change (fold_left summary_participant (p :: r) (n, a, m))
      with (fold_left summary_participant r (summary_participant (n, a, m) p)).
    rewrite summary_participant_eq.
    destruct (summary_items_entries p (items p) n m l Hd Hm) as [Hd' Hm'].
    destruct (IH (fst (fold_left (summary_item p) (items p) (n, m)))
                 (a + totalAmount p)
                 (snd (fold_left (summary_item p) (items p) (n, m))) _ Hd' Hm')
      as [Hd'' Hm''].
    split; auto. intros k. rewrite Hm''. simpl. now rewrite <- app_assoc.
Qed.

Lemma entry_of_id (k : string) (l : list (string * OrderItem))
    (e : OrderItemBreakdown) :
  entry_of k l = Some e -> bd_menuItemId e = k.
Proof.
  unfold entry_of.
  destruct (filter _ l) as [|[n0 i0] rest] eqn:Hf; [discriminate|].
  intros [= <-]. simpl.
  assert (Hin : In (n0, i0) (filter (fun x => String.eqb (menuItemId (snd x)) k) l)).
  { rewrite Hf. now left. }
  apply filter_In in Hin. destruct Hin as [_ H]. now apply String.eqb_eq in H.
Qed.

Lemma entry_of_some (k : string) (l : list (string * OrderItem))
    (nick : string) (item : OrderItem) :
  In (nick, item) l -> menuItemId item = k -> entry_of k l <> None.
Proof.
  intros Hin Hk. unfold entry_of.
  destruct (filter _ l) as [|[n0 i0] rest] eqn:Hf; [|discriminate].
  assert (H : In (nick, item) (filter (fun x => String.eqb (menuItemId (snd x)) k) l)).
  { apply filter_In. split; auto. simpl. now apply String.eqb_eq. }
  rewrite Hf in H. destruct H.
Qed.

Lemma all_items_labelled (ps : list OrderParticipant) (item : OrderItem) :
  In item (all_items ps) -> exists nick, In (nick, item) (labelled_items ps).
Proof.
  unfold all_items, labelled_items. intros H.
  apply in_flat_map in H. destruct H as (p & Hp & Hi).
  exists (nickname p). apply in_flat_map. exists p. split; auto.
  apply in_map_iff. exists item. auto.
Qed.

(** X8. The breakdown of the summary has one entry for each menu item that
    somebody ordered and no other entry, each menu item id once. An entry
    carries the name of the first order item of that menu item, the sum of
    the quantities and of the prices of its order items, and the nickname
    of the holder once for every order item. *)
Theorem breakdown_is_keyed_by_menu_item (ps : list OrderParticipant) (now : Z) :
  NoDup (map bd_menuItemId (itemBreakdown (summarize ps now)))
  /\ (forall e,
        In e (itemBreakdown (summarize ps now)) ->
        entry_of (bd_menuItemId e) (labelled_items ps) = Some e)
  /\ (forall item,
        In item (all_items ps) ->
        exists e, In e (itemBreakdown (summarize ps now))
                  /\ bd_menuItemId e = menuItemId item).
Proof.
  unfold summarize.
  destruct (summary_participants_entries ps 0 0 JsMap.empty [])
    as [Hd Hm].
  { constructor. }
  { intros k. reflexivity. }
  simpl in Hm.
  destruct (fold_left summary_participant ps (0, 0, JsMap.empty)) as [[n a] m].
  simpl in *.
  assert (Hkey : forall k e, In (k, e) m -> entry_of k (labelled_items ps) = Some e).
  { intros k e Hin. rewrite <- Hm. now apply In_get. }
  split; [|split].
  - unfold JsMap.values. rewrite map_map.
    replace (map (fun x => bd_menuItemId (snd x)) m) with (JsMap.keys m); auto.
    unfold JsMap.keys. apply map_ext_in. intros [k e] Hin. simpl.
    symmetry. eapply entry_of_id. eauto.
  - intros e Hin. unfold JsMap.values in Hin. apply in_map_iff in Hin.
    destruct Hin as ([k e'] & He & Hin). simpl in He. subst e'.
    pose proof (Hkey k e Hin) as H.
    now rewrite (entry_of_id _ _ _ H).
  - intros item Hin. destruct (all_items_labelled ps item Hin) as [nick Hl].
    pose proof (entry_of_some (menuItemId item) _ nick item Hl eq_refl) as Hs.
    destruct (entry_of (menuItemId item) (labelled_items ps)) as [e|] eqn:He;
      [|contradiction].
    exists e. split.
    + rewrite <- Hm in He. apply JsMapFacts.get_In in He.
      unfold JsMap.values. apply in_map_iff. exists (menuItemId item, e). auto.
    + eapply entry_of_id; eauto.
Qed.

Lemma breakdown_is_keyed_by_menu_item_witness :
  entry_of "X" (labelled_items ex_participants_two_teas)
  = Some {| bd_menuItemId := "X"; bd_menuItemName := "Tea";
            bd_totalQuantity := 3; bd_totalAmount := 150;
            bd_participants := ["Alice"; "Alice"] |}.
Proof.
  apply (proj1 (proj2 (breakdown_is_keyed_by_menu_item
                         ex_participants_two_teas 3000))
           {| bd_menuItemId := "X"; bd_menuItemName := "Tea";
              bd_totalQuantity := 3; bd_totalAmount := 150;
              bd_participants := ["Alice"; "Alice"] |}).
  vm_compute. left. reflexivity.
Defined.

(** ** [calculateOrderTotals] against the summary *)

Lemma agree_get {A B C} (f : A -> C) (g : B -> C) (k : string)
    (m1 : JsMap.t A) (m2 : JsMap.t B) :
  map (fun x => (fst x, f (snd x))) m1 = map (fun x => (fst x, g (snd x))) m2 ->
  option_map f (JsMap.get k m1) = option_map g (JsMap.get k m2).
Proof.
  revert m2.
  induction m1 as [|[k1 e1] r1 IH]; intros [|[k2 e2] r2]; simpl;
    try discriminate; auto.
  intros [= <- Hrow Hrest]. destruct (String.eqb k k1); simpl; auto.
  now rewrite Hrow.
Qed.

Lemma agree_set {A B C} (f : A -> C) (g : B -> C) (k : string) (e1 : A) (e2 : B)
    (m1 : JsMap.t A) (m2 : JsMap.t B) :
  map (fun x => (fst x, f (snd x))) m1 = map (fun x => (fst x, g (snd x))) m2 ->
  f e1 = g e2 ->
  map (fun x => (fst x, f (snd x))) (JsMap.set k e1 m1)
  = map (fun x => (fst x, g (snd x))) (JsMap.set k e2 m2).
Proof.
  intros Hm Hrow. revert m2 Hm.
  induction m1 as [|[k1 v1] r1 IH]; intros [|[k2 v2] r2]; simpl;
    try discriminate.
  - intros _. now rewrite Hrow.
  - intros [= <- Hr Hrest]. destruct (String.eqb k k1); simpl.
    + now rewrite Hrow, Hrest.
    + rewrite Hr. f_equal. now apply IH.
Qed.

Lemma maps_agree_get (k : string) (m1 : JsMap.t OrderItemBreakdown)
    (m2 : JsMap.t OrderTotalsEntry) :
  maps_agree m1 m2 ->
  option_map row_of_summary (JsMap.get k m1)
  = option_map row_of_entry (JsMap.get k m2).
Proof. apply agree_get. Qed.

Lemma maps_agree_set (k : string) (e1 : OrderItemBreakdown) (e2 : OrderTotalsEntry)
    (m1 : JsMap.t OrderItemBreakdown) (m2 : JsMap.t OrderTotalsEntry) :
  maps_agree m1 m2 -> row_of_summary e1 = row_of_entry e2 ->
  maps_agree (JsMap.set k e1 m1) (JsMap.set k e2 m2).
Proof. apply agree_set. Qed.

Lemma items_agree (p : OrderParticipant) (its : list OrderItem) (n : Z)
    (m1 : JsMap.t OrderItemBreakdown) (m2 : JsMap.t OrderTotalsEntry) :
  maps_agree m1 m2 ->
  fst (fold_left (summary_item p) its (n, m1))
  = fst (fold_left (totals_item p) its (n, m2))
  /\ maps_agree (snd (fold_left (summary_item p) its (n, m1)))
                (snd (fold_left (totals_item p) its (n, m2))).
Proof.
  revert n m1 m2. induction its as [|it r IH]; intros n m1 m2 Hm.
  - simpl. auto.
  - change (fold_left (summary_item p) (it :: r) (n, m1))
      with (fold_left (summary_item p) r (summary_item p (n, m1) it)).
    change (fold_left (totals_item p) (it :: r) (n, m2))
      with (fold_left (totals_item p) r (totals_item p (n, m2) it)).
    pose proof (maps_agree_get (menuItemId it) m1 m2 Hm) as Hg.
    unfold summary_item, totals_item.
    destruct (JsMap.get (menuItemId it) m1) as [e1|];
      destruct (JsMap.get (menuItemId it) m2) as [e2|]; simpl in Hg;
      try discriminate.
    + apply IH. apply maps_agree_set; auto.
      unfold row_of_summary, row_of_entry in *. simpl. congruence.
    + apply IH. apply maps_agree_set; auto.
Qed.

Lemma totals_participant_eq (p : OrderParticipant) (n a : Z)
    (m : JsMap.t OrderTotalsEntry) :
  totals_participant (n, a, m) p
  = (fst (fold_left (totals_item p) (items p) (n, m)), a + totalAmount p,
     snd (fold_left (totals_item p) (items p) (n, m))).
Proof.
  unfold totals_participant.
  now destruct (fold_left (totals_item p) (items p) (n, m)).
Qed.

Lemma participants_agree (ps : list OrderParticipant) (n a : Z)
    (m1 : JsMap.t OrderItemBreakdown) (m2 : JsMap.t OrderTotalsEntry) :
  maps_agree m1 m2 ->
  fst (fold_left summary_participant ps (n, a, m1))
  = fst (fold_left totals_participant ps (n, a, m2))
  /\ maps_agree (snd (fold_left summary_participant ps (n, a, m1)))
                (snd (fold_left totals_participant ps (n, a, m2))).
Proof.
  revert n a m1 m2. induction ps as [|p r IH]; intros n a m1 m2 Hm.
  - simpl. auto.
  - change (fold_left summary_participant (p :: r) (n, a, m1))
      with (fold_left summary_participant r (summary_participant (n, a, m1) p)).
    change (fold_left totals_participant (p :: r) (n, a, m2))
      with (fold_left totals_participant r (totals_participant (n, a, m2) p)).
    rewrite summary_participant_eq, totals_participant_eq.
    destruct (items_agree p (items p) n m1 m2 Hm) as [H1 H2].
    rewrite H1. now apply IH.
Qed.

(** X9. [calculateOrderTotals] and the summary of [calculateOrderSummary]
    agree on the number of participants, the number of items, the total
    amount and, menu item by menu item and in the same order, on the name,
    the quantity and the amount of the breakdown. *)
Theorem calculateOrderTotals_agrees_with_summary (o : GroupOrder) (now : Z) :
  ot_totalParticipants (calculateOrderTotals o)
  = totalParticipants (summarize (participants o) now)
  /\ ot_totalItems (calculateOrderTotals o)
     = totalItems (summarize (participants o) now)
  /\ ot_totalAmount (calculateOrderTotals o)
     = summaryTotalAmount (summarize (participants o) now)
  /\ map row_of_totals (ot_itemBreakdown (calculateOrderTotals o))
     = map row_of_summary (itemBreakdown (summarize (participants o) now)).
Proof.
  unfold calculateOrderTotals, summarize.
  destruct (participants_agree (participants o) 0 0 JsMap.empty JsMap.empty)
    as [H1 H2]; [reflexivity|].
  destruct (fold_left summary_participant (participants o) (0, 0, JsMap.empty))
    as [[n1 a1] m1].
  destruct (fold_left totals_participant (participants o) (0, 0, JsMap.empty))
    as [[n2 a2] m2].
  simpl in *. injection H1 as -> ->. repeat split.
  unfold maps_agree in H2. unfold JsMap.values. rewrite !map_map.
  apply (f_equal (map snd)) in H2. rewrite !map_map in H2. simpl in H2.
  symmetry. exact H2.
Qed.

(** ** The participant count of [calculateOrderTotals] *)

Lemma Set_add_In (x y : string) (l : list string) :
  In x (Set_add y l) <-> x = y \/ In x l.
Proof.
  unfold Set_add. destruct (existsb (String.eqb y) l) eqn:E.
  - split; auto. intros [->|H]; auto.
    apply existsb_exists in E. destruct E as (z & Hz & Hyz).
    apply String.eqb_eq in Hyz. now subst.
  - rewrite in_app_iff. simpl. split.
    + intros [H|[<-|[]]]; auto.
    + intros [->|H]; auto.
Qed.

Lemma entry_counts_other (k : string) (l : list (string * OrderItem))
    (pid : string) (item : OrderItem) (e : option OrderTotalsEntry) :
  k <> menuItemId item ->
  entry_counts k l e -> entry_counts k (l ++ [(pid, item)]) e.
Proof.
  intros Hne H. destruct e as [e|]; simpl in *.
  - destruct H as (H1 & H2 & H3 & H4).
    split; [auto|]. split; [auto|]. split; [auto|].
    intros q. rewrite H4. split; intros (it & Hin & Hk).
    + exists it. split; auto. apply in_or_app. now left.
    + apply in_app_or in Hin. destruct Hin as [Hin|[Heq|[]]]; eauto.
      injection Heq as <- <-. congruence.
  - intros q it Hin. apply in_app_or in Hin.
    destruct Hin as [Hin|[Heq|[]]]; eauto.
    injection Heq as <- <-. congruence.
Qed.

Lemma totals_item_counts (p : OrderParticipant) (item : OrderItem) (n : Z)
    (m : JsMap.t OrderTotalsEntry) (l : list (string * OrderItem)) :
  keys_distinct m ->
  (forall k, entry_counts k l (JsMap.get k m)) ->
  keys_distinct (snd (totals_item p (n, m) item))
  /\ forall k, entry_counts k (l ++ [(participantId p, item)])
                 (JsMap.get k (snd (totals_item p (n, m) item))).
Proof.
  intros Hd Hm. unfold totals_item.
  pose proof (Hm (menuItemId item)) as H.
  destruct (JsMap.get (menuItemId item) m) as [e|] eqn:Hg; simpl;
    (split; [now apply keys_distinct_set|]); intros k;
    (destruct (string_dec k (menuItemId item)) as [->|Hne];
     [rewrite JsMapFacts.get_set_same
     |rewrite JsMapFacts.get_set_other by auto;
      now apply entry_counts_other]).
  - destruct H as (H1 & H2 & H3 & H4). simpl.
    split; [auto|]. split; [now apply Set_add_NoDup|]. split; [auto|].
    intros q. rewrite Set_add_In. split.
    + intros [->|Hin].
      * exists item. split; auto. apply in_or_app. right. now left.
      * apply H4 in Hin. destruct Hin as (it & Hin & Hk).
        exists it. split; auto. apply in_or_app. now left.
    + intros (it & Hin & Hk).
      apply in_app_or in Hin. destruct Hin as [Hin|[Heq|[]]].
      * right. apply H4. eauto.
      * injection Heq as <- <-. now left.
  - simpl in H. simpl.
    split; [auto|]. split; [repeat constructor; simpl; tauto|]. split; [auto|].
    intros q. split.
    + intros [<-|[]]. exists item. split; auto. apply in_or_app. right. now left.
    + intros (it & Hin & Hk).
      apply in_app_or in Hin. destruct Hin as [Hin|[Heq|[]]].
      * exfalso. eapply H; eauto.
      * injection Heq as <- <-. now left.
Qed.

Lemma totals_items_counts (p : OrderParticipant) (its : list OrderItem) (n : Z)
    (m : JsMap.t OrderTotalsEntry) (l : list (string * OrderItem)) :
  keys_distinct m ->
  (forall k, entry_counts k l (JsMap.get k m)) ->
  keys_distinct (snd (fold_left (totals_item p) its (n, m)))
  /\ forall k, entry_counts k
                 (l ++ map (fun item => (participantId p, item)) its)
                 (JsMap.get k (snd (fold_left (totals_item p) its (n, m)))).
Proof.
  revert n m l. induction its as [|it r IH]; intros n m l Hd Hm.
  - simpl. rewrite app_nil_r. auto.
  - change (fold_left (totals_item p) (it :: r) (n, m))
      with (fold_left (totals_item p) r (totals_item p (n, m) it)).
    destruct (totals_item_counts p it n m l Hd Hm) as [Hd' Hm'].
    destruct (totals_item p (n, m) it) as [n' m']. simpl in Hd', Hm'.
    destruct (IH n' m' _ Hd' Hm') as [Hd'' Hm''].
    split; auto. intros k. specialize (Hm'' k).
    simpl. now rewrite <- app_assoc in Hm''.
Qed.

Lemma totals_participants_counts (ps : list OrderParticipant) (n a : Z)
    (m : JsMap.t OrderTotalsEntry) (l : list (string * OrderItem)) :
  keys_distinct m ->
  (forall k, entry_counts k l (JsMap.get k m)) ->
  keys_distinct (snd (fold_left totals_participant ps (n, a, m)))
  /\ forall k, entry_counts k (l ++ held_items ps)
                 (JsMap.get k (snd (fold_left totals_participant ps (n, a, m)))).
Proof.
  revert n a m l. induction ps as [|p r IH]; intros n a m l Hd Hm.
  - simpl. rewrite app_nil_r. auto.
  - change (fold_left totals_participant (p :: r) (n, a, m))
      with (fold_left totals_participant r (totals_participant (n, a, m) p)).
    rewrite totals_participant_eq.
    destruct (totals_items_counts p (items p) n m l Hd Hm) as [Hd' Hm'].
    destruct (IH (fst (fold_left (totals_item p) (items p) (n, m)))
                 (a + totalAmount p)
                 (snd (fold_left (totals_item p) (items p) (n, m))) _ Hd' Hm')
      as [Hd'' Hm''].
    split; auto. intros k. specialize (Hm'' k).
    simpl. now rewrite <- app_assoc in Hm''.
Qed.

Lemma holders_In (ps : list OrderParticipant) (k pid : string) :
  In pid (holders ps k)
  <-> exists it, In (pid, it) (held_items ps) /\ menuItemId it = k.
Proof.
  unfold holders, held_items. rewrite nodup_In, in_map_iff. split.
  - intros (p & Hp & Hin). apply filter_In in Hin. destruct Hin as [Hin Hh].
    apply existsb_exists in Hh. destruct Hh as (it & Hit & Hk).
    apply String.eqb_eq in Hk. exists it. split; auto.
    apply in_flat_map. exists p. split; auto.
    apply in_map_iff. exists it. subst. auto.
  - intros (it & Hin & Hk). apply in_flat_map in Hin.
    destruct Hin as (p & Hp & Hin). apply in_map_iff in Hin.
    destruct Hin as (it' & [= <- <-] & Hit).
    exists p. split; auto. apply filter_In. split; auto.
    apply existsb_exists. exists it'. split; auto. now apply String.eqb_eq.
Qed.

(** X10. In the breakdown of [calculateOrderTotals] the participant count
    of a menu item is the number of different participants that hold an
    item of it: a participant with several such items counts once. *)
Theorem calculateOrderTotals_counts_holders_once (o : GroupOrder)
    (b : OrderTotalsBreakdown) :
  In b (ot_itemBreakdown (calculateOrderTotals o)) ->
  tb_participantCount b
  = Z.of_nat (List.length (holders (participants o) (tb_itemId b))).
Proof.
  unfold calculateOrderTotals.
  destruct (totals_participants_counts (participants o) 0 0 JsMap.empty [])
    as [Hd Hm].
  { constructor. }
  { intros k pid it []. }
  simpl in Hm.
  destruct (fold_left totals_participant (participants o) (0, 0, JsMap.empty))
    as [[n a] m].
  simpl in *. intros Hin. apply in_map_iff in Hin.
  destruct Hin as (e & <- & Hin). simpl.
  unfold JsMap.values in Hin. apply in_map_iff in Hin.
  destruct Hin as ([k e'] & He & Hin). simpl in He. subst e'.
  pose proof (Hm k) as H. rewrite (In_get k e m Hd Hin) in H.
  destruct H as (H1 & H2 & H3 & H4). rewrite H3, H1. f_equal.
  apply Permutation_length. apply NoDup_Permutation; auto.
  - apply NoDup_nodup.
  - intros pid. rewrite H4. symmetry. apply holders_In.
Qed.

Lemma calculateOrderTotals_counts_holders_once_witness :
  1 = Z.of_nat (List.length (holders ex_participants_two_teas "X")).
Proof.
  apply (calculateOrderTotals_counts_holders_once
           {| orderId := "order-1"; orderCode := "123456"; menuId := "menu-1";
              createdBy := "creator"; title := "Lunch"; description := None;
              status := active; deadline := Some 300000;
              createdAt := 0; updatedAt := 3000; closedAt := None;
              participants := ex_participants_two_teas;
              summary := summarize ex_participants_two_teas 3000;
              settings := ex_defaults |}
           {| tb_itemId := "X"; tb_itemName := "Tea"; tb_totalQuantity := 3;
              tb_totalAmount := 150; tb_participantCount := 1 |}).
  vm_compute. left. reflexivity.
Defined.

(** ** The cached summary *)

Lemma transition_summaries_fresh l s s' :
  transition l s s' -> summaries_fresh s -> summaries_fresh s'.
Proof.
  intros H Hf. destruct H; unfold summaries_fresh in *; simpl; auto.
  - apply JsMapFacts.Forall_set; auto.
    destruct H1 as [[Hp Hs]|Hfresh]; auto.
    pose proof (JsMapFacts.Forall_get _ _ _ _ Hf H) as Ho.
    unfold summary_fresh in *. now rewrite Hs, Hp.
  - apply JsMapFacts.Forall_set; auto.
  - now apply JsMapFacts.Forall_delete.
Qed.

Lemma path_summaries_fresh ls s s' :
  path ls s s' -> summaries_fresh s -> summaries_fresh s'.
Proof.
  induction 1; auto. intros Hf. apply IHpath.
  eapply transition_summaries_fresh; eauto.
Qed.

Lemma updateOrder_summaries_fresh oid u r now s :
  keeps_ledger r ->
  summaries_fresh s -> summaries_fresh (snd (updateOrder oid u r now s)).
Proof.
  intros [Hp Hsm] Hf. unfold updateOrder. rewrite Hp, Hsm.
  destruct (JsMap.get oid (orders s)) as [o|] eqn:Hg; simpl; auto.
  destruct (negb (String.eqb (createdBy o) u)); simpl; auto.
  destruct (negb (OrderStatus_eqb (status o) active)); simpl; auto.
  unfold summaries_fresh. apply JsMapFacts.Forall_set; auto.
  exact (JsMapFacts.Forall_get _ _ _ _ Hf Hg).
Qed.

Lemma run_calls_summaries_fresh ps cs s :
  Forall call_keeps_ledger cs ->
  well_keyed s -> summaries_fresh s -> summaries_fresh (run_calls ps cs s).
Proof.
  unfold run_calls. intros Hcs. revert s.
  induction Hcs as [|c r Hc Hr IH]; intros s Hw Hf; simpl; auto.
  apply IH.
  - now apply run_call_well_keyed.
  - destruct c as [op|oid u b now]; simpl in *.
    + destruct (run_operation_path ps op s Hw) as [ls Hp].
      eapply path_summaries_fresh; eauto.
    + now apply updateOrder_summaries_fresh.
Qed.

(** The hypothesis on the bodies is needed: [updateOrder] stores the
    participants of the request body beside the summary of the order, which
    it does not recompute. Here Alice's order is left with no participant
    and a summary that counts one. *)
Lemma updateOrder_can_leave_summary_stale :
  exists o,
    JsMap.get "order-1"
      (orders (snd (updateOrder "order-1" "creator" (ex_body_participants [])
                      5000 ex_state_alice))) = Some o
    /\ participants o = []
    /\ totalParticipants (summary o) = 1.
Proof. eexists. split; [reflexivity|]. split; reflexivity. Qed.

(** X11. The cached summary is never stale, as long as no update request
    carries participants or a summary in its body: after any sequence of
    such calls the summary stored with an order is exactly what
    [calculateOrderSummary] computes from the order's current participants
    (with the timestamp the summary carries), given that this was so
    before. [updateOrder] copies participants and summary from the body of
    the request when they are there, so the property is lost otherwise. *)
Theorem stored_summary_is_never_stale
    (participantService : option ParticipantService)
    (cs : list Call) (s : ServiceState) (k : string) (o : GroupOrder) :
  Forall call_keeps_ledger cs ->
  well_keyed s ->
  summaries_fresh s ->
  JsMap.get k (orders (run_calls participantService cs s)) = Some o ->
  summary o = summarize (participants o) (lastUpdated (summary o)).
Proof.
  intros Hcs Hw Hf Hg.
  pose proof (run_calls_summaries_fresh participantService cs s Hcs Hw Hf) as H.
  exact (JsMapFacts.Forall_get _ _ _ _ H Hg).
Qed.

Lemma stored_summary_is_never_stale_witness :
  summary ex_order_overwritten
  = summarize (participants ex_order_overwritten)
              (lastUpdated (summary ex_order_overwritten)).
Proof.
  apply (stored_summary_is_never_stale None
           [UpdateOrderWith "order-1" "creator" ex_body_menu 5000;
            Declared ex_rename]
           ex_state_created "order-1" ex_order_overwritten).
  - repeat constructor.
  - unfold well_keyed. vm_compute. repeat constructor.
  - unfold summaries_fresh. vm_compute. repeat constructor.
  - vm_compute. reflexivity.
Defined.

(** ** Reading the history twice *)

Lemma sort_sorted_id (l : list OrderModification) :
  newest_first l -> sort_newest_first l = l.
Proof.
  unfold newest_first. induction 1 as [|x r Hr IH Hx]; simpl; auto.
  rewrite IH. destruct r as [|y r']; simpl; auto.
  inversion Hx as [|? ? Hxy _]; subst. unfold not_older in Hxy.
  unfold compare_newest_first.
  destruct (mod_timestamp y - mod_timestamp x <=? 0) eqn:E; auto.
  apply Z.leb_gt in E. lia.
Qed.

(** X12. Reading the history of an order a second time gives the same list
    and changes nothing: the first read leaves the stored array sorted, and
    sorting a sorted array leaves it as it is. *)
Theorem getOrderModificationHistory_twice (orderId_ : string) (s : ServiceState) :
  getOrderModificationHistory orderId_ (snd (getOrderModificationHistory orderId_ s))
  = (fst (getOrderModificationHistory orderId_ s),
     snd (getOrderModificationHistory orderId_ s)).
Proof.
  unfold getOrderModificationHistory.
  destruct (JsMap.get orderId_ (modifications s)) as [l|] eqn:Hg; simpl.
  - rewrite JsMapFacts.get_set_same.
    rewrite (sort_sorted_id (sort_newest_first l))
      by apply sort_newest_first_sorted.
    unfold set_modifications. simpl. now rewrite JsMap_set_set.
  - now rewrite Hg.
Qed.

(** ** Participants of an order never clash *)

Lemma clash_sym (a b : Member) : clash a b -> clash b a.
Proof.
  unfold clash. intros [H|[[Ht H]|[Ht H]]]; auto.
  - right. left. rewrite <- H. auto.
  - right. right. rewrite <- H. auto.
Qed.

Lemma distinct_members_snoc (l : list Member) (m : Member) :
  distinct_members l -> Forall (fun a => ~ clash a m) l ->
  distinct_members (l ++ [m]).
Proof.
  unfold distinct_members. induction 1 as [|a l Ha Hl IH]; simpl; intros Hm.
  - repeat constructor.
  - inversion Hm; subst. constructor; auto.
    apply Forall_app. split; auto.
Qed.

Lemma distinct_members_splice (i : nat) (l : list Member) :
  distinct_members l -> distinct_members (splice_one i l).
Proof.
  unfold distinct_members. intros H. revert i.
  induction H as [|a l Ha Hl IH]; intros [|i]; simpl; auto.
  - constructor.
  - constructor.
  - constructor; auto. now apply Forall_splice_one.
Qed.

Lemma distinct_members_nth (l : list Member) (i j : nat) (a b : Member) :
  distinct_members l -> i <> j ->
  nth_error l i = Some a -> nth_error l j = Some b -> ~ clash a b.
Proof.
  unfold distinct_members. intros H. revert i j.
  induction H as [|x l Hx Hl IH]; intros [|i] [|j] Hij Hi Hj; simpl in *;
    try discriminate; try congruence.
  - injection Hi as ->. exact (Forall_nth_error _ _ _ _ Hx Hj).
  - injection Hj as ->. intros Hc. apply clash_sym in Hc.
    exact (Forall_nth_error _ _ _ _ Hx Hi Hc).
  - apply (IH i j); auto.
Qed.

Lemma transition_rosters_distinct l s s' :
  transition l s s' -> rosters_distinct s -> rosters_distinct s'.
Proof.
  intros H Hf. destruct H; unfold rosters_distinct in *; simpl; auto.
  - apply JsMapFacts.Forall_set; auto.
    pose proof (JsMapFacts.Forall_get _ _ _ _ Hf H) as Ho.
    unfold roster_distinct in *.
    destruct H2 as [->|[(m & Hm & ->)|(i & ->)]]; auto.
    + now apply distinct_members_snoc.
    + now apply distinct_members_splice.
  - apply JsMapFacts.Forall_set; auto. unfold roster_distinct, roster.
    rewrite H1. constructor.
  - now apply JsMapFacts.Forall_delete.
Qed.

Lemma path_rosters_distinct ls s s' :
  path ls s s' -> rosters_distinct s -> rosters_distinct s'.
Proof.
  induction 1; auto. intros Hf. apply IHpath.
  eapply transition_rosters_distinct; eauto.
Qed.

Lemma updateOrder_rosters_distinct oid u r now s :
  body_participants r = None ->
  rosters_distinct s -> rosters_distinct (snd (updateOrder oid u r now s)).
Proof.
  intros Hp Hf. unfold updateOrder. rewrite Hp.
  destruct (JsMap.get oid (orders s)) as [o|] eqn:Hg; simpl; auto.
  destruct (negb (String.eqb (createdBy o) u)); simpl; auto.
  destruct (negb (OrderStatus_eqb (status o) active)); simpl; auto.
  unfold rosters_distinct. apply JsMapFacts.Forall_set; auto.
  exact (JsMapFacts.Forall_get _ _ _ _ Hf Hg).
Qed.

Lemma run_calls_rosters_distinct ps cs s :
  Forall call_keeps_roster cs ->
  well_keyed s -> rosters_distinct s -> rosters_distinct (run_calls ps cs s).
Proof.
  unfold run_calls. intros Hcs. revert s.
  induction Hcs as [|c r Hc Hr IH]; intros s Hw Hf; simpl; auto.
  apply IH.
  - now apply run_call_well_keyed.
  - destruct c as [op|oid u b now]; simpl in *.
    + destruct (run_operation_path ps op s Hw) as [ls Hp].
      eapply path_rosters_distinct; eauto.
    + now apply updateOrder_rosters_distinct.
Qed.

(** The hypothesis on the bodies is needed: [updateOrder] stores the
    participants of the request body unchecked. Here Alice is stored
    twice. *)
Lemma updateOrder_can_store_a_participant_twice :
  option_map participants
    (JsMap.get "order-1"
       (orders (snd (updateOrder "order-1" "creator"
                       (ex_body_participants [ex_alice; ex_alice])
                       5000 ex_state_alice))))
  = Some [ex_alice; ex_alice].
Proof. reflexivity. Qed.

(** X13. Participants of an order never clash, as long as no update request
    carries participants in its body: after any sequence of such calls,
    with or without a participant service, two different participants of a
    stored order have different nicknames, and a user id or guest session
    id that is set belongs to one of them only, given that this was so
    before (it is so in the empty service). [updateOrder] copies the
    participants of the body of the request unchecked when they are there,
    so the property is lost otherwise. *)
Theorem participants_never_clash
    (participantService : option ParticipantService)
    (cs : list Call) (s : ServiceState) (k : string) (o : GroupOrder)
    (i j : nat) (p q : OrderParticipant) :
  Forall call_keeps_roster cs ->
  well_keyed s ->
  rosters_distinct s ->
  JsMap.get k (orders (run_calls participantService cs s)) = Some o ->
  nth_error (participants o) i = Some p ->
  nth_error (participants o) j = Some q ->
  i <> j ->
  nickname p <> nickname q
  /\ (truthy_string (userId p) = true -> userId p <> userId q)
  /\ (truthy_string (guestSessionId p) = true ->
      guestSessionId p <> guestSessionId q).
Proof.
  intros Hcs Hw Hf Hg Hp Hq Hij.
  pose proof (run_calls_rosters_distinct participantService cs s Hcs Hw Hf) as H.
  pose proof (JsMapFacts.Forall_get _ _ _ _ H Hg) as Ho.
  unfold roster_distinct in Ho.
  assert (Hc : ~ clash (member_of p) (member_of q)).
  { apply (distinct_members_nth (roster o) i j); auto; unfold roster.
    - now rewrite nth_error_map, Hp.
    - now rewrite nth_error_map, Hq. }
  unfold clash in Hc. simpl in Hc. repeat split; intros; intro; apply Hc; auto.
Qed.

Lemma participants_never_clash_witness :
  nickname ex_alice <> nickname ex_bob
  /\ (truthy_string (userId ex_alice) = true -> userId ex_alice <> userId ex_bob)
  /\ (truthy_string (guestSessionId ex_alice) = true ->
      guestSessionId ex_alice <> guestSessionId ex_bob).
Proof.
  eapply (participants_never_clash None
            (map Declared ex_joins
             ++ [UpdateOrderWith "order-1" "creator" ex_body_menu 5000])
            ex_state_alice "order-1" _ 0 1).
  - repeat constructor.
  - unfold well_keyed. vm_compute. repeat constructor.
  - unfold rosters_distinct. vm_compute. repeat constructor.
  - vm_compute. reflexivity.
  - reflexivity.
  - reflexivity.
  - lia.
Defined.

(** ** Who may change what *)

(** X14. [canUserModifyOrder] answers exactly whether [updateOrder] and
    [closeOrder] accept the call: they succeed when it is true and return
    null/false and change nothing when it is false. [deleteOrder] is not
    bound by it: it succeeds whenever the two accept, and also for the
    creator of an order that is closed or expired. This is so whatever
    the body of the update request carries. *)
Theorem canUserModifyOrder_gates_update_and_close
    (orderId_ userId_ : string) (request : UpdateRequestBody) (now : Z)
    (s : ServiceState) :
  fst (closeOrder orderId_ userId_ now s) = canUserModifyOrder orderId_ userId_ s
  /\ match fst (updateOrder orderId_ userId_ request now s) with
     | Some _ => true
     | None => false
     end = canUserModifyOrder orderId_ userId_ s
  /\ (if canUserModifyOrder orderId_ userId_ s then
        fst (deleteOrder orderId_ userId_ s) = true
      else
        snd (closeOrder orderId_ userId_ now s) = s
        /\ snd (updateOrder orderId_ userId_ request now s) = s)
  /\ fst (deleteOrder orderId_ userId_ s)
     = match JsMap.get orderId_ (orders s) with
       | Some o => String.eqb (createdBy o) userId_
       | None => false
       end.
Proof.
  unfold closeOrder, updateOrder, deleteOrder, canUserModifyOrder.
  destruct (JsMap.get orderId_ (orders s)) as [o|]; simpl; auto.
  destruct (String.eqb (createdBy o) userId_); simpl; auto.
  destruct (OrderStatus_eqb (status o) active); simpl; auto.
Qed.

Lemma existsb_find {A} (f : A -> bool) (l : list A) :
  existsb f l = match List.find f l with Some _ => true | None => false end.
Proof.
  induction l as [|x r IH]; simpl; auto. destruct (f x); auto.
Qed.

Lemma canParticipantModifyItems_refused oid pid s :
  canParticipantModifyItems oid pid s = false <-> item_call_refused oid pid s.
Proof.
  unfold canParticipantModifyItems, item_call_refused.
  destruct (JsMap.get oid (orders s)) as [o|]; [|tauto].
  rewrite existsb_find. unfold find.
  destruct (status o); simpl; try (split; auto; left; discriminate).
  destruct (allowModification (settings o)); simpl; [|tauto].
  destruct (List.find _ (participants o)); split; auto; try discriminate.
  intros [H|[H|H]]; congruence.
Qed.

(** X15. The two permission checks agree up to the deadline: the check of
    the history calls, [checkModificationPermission], allows a change
    exactly when [canParticipantModifyItems] does and at least one full
    minute is left before the deadline (an order without a deadline has no
    such limit). When [canParticipantModifyItems] is false, the three item
    calls refuse and leave the service as it is. *)
Theorem permission_checks_agree_up_to_deadline
    (menuService : MenuService) (orderId_ participantId_ itemId_ : string)
    (add : AddOrderItemRequest) (upd : UpdateOrderItemRequest)
    (now : Z) (newId : string) (s : ServiceState) :
  canModify (checkModificationPermission orderId_ participantId_ now s)
  = canParticipantModifyItems orderId_ participantId_ s
    && minute_left orderId_ now s
  /\ (if canParticipantModifyItems orderId_ participantId_ s then True
      else
        addOrderItem menuService orderId_ participantId_ add now newId s
        = (None, s)
        /\ updateOrderItem orderId_ participantId_ itemId_ upd now s = (None, s)
        /\ removeOrderItem orderId_ participantId_ itemId_ now s = (false, s)).
Proof.
  split.
  - unfold checkModificationPermission, canParticipantModifyItems, minute_left.
    destruct (JsMap.get orderId_ (orders s)) as [o|]; simpl; auto.
    rewrite existsb_find. unfold find.
    destruct (negb (OrderStatus_eqb (status o) active)); simpl; auto.
    destruct (negb (allowModification (settings o))); simpl; auto.
    destruct (List.find _ (participants o)); simpl; auto.
    destruct (deadline o) as [d|]; simpl; auto.
    assert (Hd : (d - now) / 60000 <= 0 <-> d - now < 60000).
    { split; intros H.
      - destruct (Z_lt_ge_dec (d - now) 60000) as [|Hge]; auto.
        assert (1 <= (d - now) / 60000) by (apply Z.div_le_lower_bound; lia).
        lia.
      - assert ((d - now) / 60000 < 1) by (apply Z.div_lt_upper_bound; lia).
        lia. }
    destruct (Z.max 0 ((d - now) / 60000) <=? 0) eqn:E.
    + apply Z.leb_le in E. symmetry. apply Z.leb_gt. lia.
    + apply Z.leb_gt in E.
      assert (Hm : (60000 <=? d - now) = true) by (apply Z.leb_le; lia).
      rewrite Hm. destruct (Z.max 0 ((d - now) / 60000) <=? 5); reflexivity.
  - destruct (canParticipantModifyItems orderId_ participantId_ s) eqn:E; auto.
    apply item_calls_refuse. now apply canParticipantModifyItems_refused.
Qed.

(** ** Closing several orders *)

Lemma bulkCloseOrders_loop_acc calls uid acc s :
  bulkCloseOrders_loop calls uid acc s
  = ({| success := success acc ++ success (fst (bulkCloseOrders calls uid s));
        failed := failed acc ++ failed (fst (bulkCloseOrders calls uid s)) |},
     snd (bulkCloseOrders calls uid s)).
Proof.
  unfold bulkCloseOrders. revert acc s.
  induction calls as [|[oid now] rest IH]; intros acc s; simpl.
  - rewrite !app_nil_r. now destruct acc.
  - destruct (closeOrder oid uid now s) as [[|] s1]; simpl.
    + rewrite (IH {| success := success acc ++ [oid]; failed := failed acc |} s1),
        (IH {| success := [oid]; failed := [] |} s1).
      simpl. now rewrite <- app_assoc.
    + rewrite (IH {| success := success acc; failed := failed acc ++ [oid] |} s1),
        (IH {| success := []; failed := [oid] |} s1).
      simpl. now rewrite <- app_assoc.
Qed.

Lemma bulkCloseOrders_cons oid now rest uid s :
  bulkCloseOrders ((oid, now) :: rest) uid s
  = let r := bulkCloseOrders rest uid (snd (closeOrder oid uid now s)) in
    if fst (closeOrder oid uid now s) then
      ({| success := oid :: success (fst r); failed := failed (fst r) |}, snd r)
    else
      ({| success := success (fst r); failed := oid :: failed (fst r) |}, snd r).
Proof.
  unfold bulkCloseOrders at 1. simpl.
  destruct (closeOrder oid uid now s) as [[|] s1]; simpl;
    now rewrite bulkCloseOrders_loop_acc.
Qed.

Lemma closeOrder_true oid uid now s :
  fst (closeOrder oid uid now s) = true ->
  exists o, JsMap.get oid (orders s) = Some o
            /\ canUserModifyOrder oid uid s = true
            /\ snd (closeOrder oid uid now s)
               = set_orders s (JsMap.set oid (with_status o closed now) (orders s)).
Proof.
  unfold closeOrder, canUserModifyOrder.
  destruct (JsMap.get oid (orders s)) as [o|]; simpl; [|discriminate].
  destruct (String.eqb (createdBy o) uid); simpl; [|discriminate].
  destruct (OrderStatus_eqb (status o) active); simpl; [|discriminate].
  intros _. exists o. auto.
Qed.

Lemma closeOrder_false oid uid now s :
  fst (closeOrder oid uid now s) = false ->
  canUserModifyOrder oid uid s = false /\ snd (closeOrder oid uid now s) = s.
Proof.
  unfold closeOrder, canUserModifyOrder.
  destruct (JsMap.get oid (orders s)) as [o|]; simpl; auto.
  destruct (String.eqb (createdBy o) uid); simpl; auto.
  destruct (OrderStatus_eqb (status o) active); simpl; auto. discriminate.
Qed.

Lemma canUserModifyOrder_closed oid uid x o now s :
  canUserModifyOrder x uid
    (set_orders s (JsMap.set oid (with_status o closed now) (orders s)))
  = if String.eqb x oid then false else canUserModifyOrder x uid s.
Proof.
  unfold canUserModifyOrder. simpl. destruct (String.eqb_spec x oid) as [->|Hne].
  - rewrite JsMapFacts.get_set_same. simpl. apply andb_false_r.
  - now rewrite JsMapFacts.get_set_other.
Qed.

(** X16. [bulkCloseOrders] closes each order the user may modify, once:
    the ids it reports as successes are without repetition and are exactly
    the listed ids for which [canUserModifyOrder] held before the call;
    every listed id is reported once per occurrence, as a success or as a
    failure; each success is stored closed, with the time of one of its
    calls, and every other order, the code index and the history are left
    as they were. *)
Theorem bulkCloseOrders_closes_each_once
    (calls : list (string * Z)) (userId_ : string) (s : ServiceState) :
  let r := fst (bulkCloseOrders calls userId_ s) in
  let s' := snd (bulkCloseOrders calls userId_ s) in
  NoDup (success r)
  /\ (forall x, In x (success r)
                <-> In x (map fst calls)
                    /\ canUserModifyOrder x userId_ s = true)
  /\ Permutation (success r ++ failed r) (map fst calls)
  /\ (forall x, In x (success r) ->
        exists o now, In (x, now) calls
                      /\ JsMap.get x (orders s) = Some o
                      /\ JsMap.get x (orders s')
                         = Some (with_status o closed now))
  /\ (forall x, ~ In x (success r) ->
        JsMap.get x (orders s') = JsMap.get x (orders s))
  /\ orderCodeIndex s' = orderCodeIndex s
  /\ modifications s' = modifications s.
Proof.
  revert s. induction calls as [|[oid now] rest IH]; intros s.
  - simpl. repeat split; try constructor; simpl; tauto.
  - cbv zeta. rewrite bulkCloseOrders_cons. cbv zeta.
    destruct (fst (closeOrder oid userId_ now s)) eqn:E.
    + destruct (closeOrder_true _ _ _ _ E) as (o & Hg & Hcan & Hs).
      rewrite Hs.
      destruct (IH (set_orders s
                      (JsMap.set oid (with_status o closed now) (orders s))))
        as (Hnd & Hin & Hperm & Hsucc & Hrest & Hidx & Hmods).
      cbv zeta in *. simpl fst. simpl snd. simpl success. simpl failed.
      assert (Hnot : ~ In oid
                (success (fst (bulkCloseOrders rest userId_
                   (set_orders s
                      (JsMap.set oid (with_status o closed now) (orders s))))))).
      { intros Hx. apply Hin in Hx. destruct Hx as [_ Hx].
        rewrite canUserModifyOrder_closed, String.eqb_refl in Hx. discriminate. }
      refine (conj _ (conj _ (conj _ (conj _ (conj _ (conj _ _)))))).
      * constructor; auto.
      * intros x. split.
        -- intros [<-|Hx]; [simpl; auto|]. apply Hin in Hx.
           destruct Hx as [Hx Hc]. rewrite canUserModifyOrder_closed in Hc.
           destruct (String.eqb x oid); [discriminate|]. simpl. auto.
        -- intros [Hx Hc]. simpl in Hx. destruct Hx as [<-|Hx]; [now left|].
           destruct (String.eqb_spec x oid) as [->|Hne]; [now left|].
           right. apply Hin. split; auto.
           rewrite canUserModifyOrder_closed.
           apply String.eqb_neq in Hne. now rewrite Hne.
      * simpl. now constructor.
      * intros x [<-|Hx].
        -- exists o, now. split; [now left|]. split; auto.
           rewrite Hrest; auto. simpl. apply JsMapFacts.get_set_same.
        -- assert (Hne : x <> oid) by (intros ->; auto).
           destruct (Hsucc x Hx) as (o' & now' & Hc & Hg' & Hs').
           exists o', now'. split; [now right|]. split; auto.
           simpl in Hg'. now rewrite JsMapFacts.get_set_other in Hg'.
      * intros x Hx. rewrite Hrest by (intros Hy; apply Hx; now right). simpl.
        apply JsMapFacts.get_set_other. intros ->. apply Hx. now left.
      * rewrite Hidx. reflexivity.
      * rewrite Hmods. reflexivity.
    + destruct (closeOrder_false _ _ _ _ E) as [Hcan Hs]. rewrite Hs.
      destruct (IH s) as (Hnd & Hin & Hperm & Hsucc & Hrest & Hidx & Hmods).
      cbv zeta in *. simpl fst. simpl snd. simpl success. simpl failed.
      refine (conj _ (conj _ (conj _ (conj _ (conj _ (conj _ _)))))); auto.
      * intros x. split.
        -- intros Hx. apply Hin in Hx. simpl. tauto.
        -- intros [Hx Hc]. simpl in Hx. destruct Hx as [<-|Hx]; [congruence|].
           apply Hin. tauto.
      * simpl. apply Permutation_sym, Permutation_cons_app, Permutation_sym.
        exact Hperm.
      * intros x Hx. destruct (Hsucc x Hx) as (o' & now' & Hc & Hg' & Hs').
        exists o', now'. split; [now right|]. auto.
Qed.

Example bulkCloseOrders_scenario :
  fst (bulkCloseOrders ex_bulk "creator" ex_state_two)
  = {| success := ["order-1"; "order-2"]; failed := ["order-1"; "order-9"] |}.
Proof. vm_compute. reflexivity. Qed.

(** ** Sorting and slicing *)

Section SortBy.

Context {A : Type}.
Variable compare : A -> A -> Z.

Lemma sort_insert_by_perm (x : A) (l : list A) :
  Permutation (sort_insert_by compare x l) (x :: l).
Proof.
  induction l as [|y r IH]; simpl; auto.
  destruct (compare x y <=? 0); auto.
  rewrite IH. apply perm_swap.
Qed.

Lemma sort_by_perm (l : list A) : Permutation (sort_by compare l) l.
Proof.
  induction l as [|x r IH]; simpl; auto.
  rewrite sort_insert_by_perm. now constructor.
Qed.

Lemma sort_by_length (l : list A) :
  List.length (sort_by compare l) = List.length l.
Proof. apply Permutation_length, sort_by_perm. Qed.

Hypothesis compare_total : forall a b, 0 < compare a b -> compare b a <= 0.
Hypothesis compare_trans :
  forall a b c, compare a b <= 0 -> compare b c <= 0 -> compare a c <= 0.

Lemma sort_insert_by_sorted (x : A) (l : list A) :
  StronglySorted (fun a b => compare a b <= 0) l ->
  StronglySorted (fun a b => compare a b <= 0) (sort_insert_by compare x l).
Proof.
  intros Hl. induction Hl as [|y r Hr IH Hy]; simpl.
  - repeat constructor.
  - destruct (compare x y <=? 0) eqn:E.
    + apply Z.leb_le in E. constructor.
      * now constructor.
      * constructor; auto.
        eapply Forall_impl; [|exact Hy]. intros z Hz. eapply compare_trans; eauto.
    + apply Z.leb_gt in E. constructor; auto.
      eapply Permutation_Forall; [symmetry; apply sort_insert_by_perm|].
      constructor; auto.
Qed.

Lemma sort_by_sorted (l : list A) :
  StronglySorted (fun a b => compare a b <= 0) (sort_by compare l).
Proof.
  induction l as [|x r IH]; simpl.
  - constructor.
  - now apply sort_insert_by_sorted.
Qed.

End SortBy.

Lemma sort_by_ext {A} (c1 c2 : A -> A -> Z) (l : list A) :
  (forall a b, c1 a b = c2 a b) -> sort_by c1 l = sort_by c2 l.
Proof.
  intros H. induction l as [|x r IH]; simpl; auto. rewrite IH.
  generalize (sort_by c2 r). intros m.
  induction m as [|y m IHm]; simpl; auto. now rewrite H, IHm.
Qed.

Lemma firstn_add {A} (a b : nat) (l : list A) :
  firstn (a + b) l = firstn a l ++ firstn b (skipn a l).
Proof.
  revert l. induction a as [|a IH]; intros [|x l]; simpl; auto.
  - now rewrite firstn_nil.
  - now rewrite IH.
Qed.

Lemma StronglySorted_impl {A} (R1 R2 : A -> A -> Prop) (l : list A) :
  (forall a b, R1 a b -> R2 a b) -> StronglySorted R1 l -> StronglySorted R2 l.
Proof.
  intros H. induction 1 as [|x r Hr IH Hx]; constructor; auto.
  eapply Forall_impl; [|exact Hx]. auto.
Qed.

Lemma firstn_In {A} (n : nat) (l : list A) (x : A) :
  In x (firstn n l) -> In x l.
Proof.
  intros H. rewrite <- (firstn_skipn n l). apply in_or_app. now left.
Qed.

Lemma skipn_In {A} (n : nat) (l : list A) (x : A) :
  In x (skipn n l) -> In x l.
Proof.
  intros H. rewrite <- (firstn_skipn n l). apply in_or_app. now right.
Qed.

Lemma StronglySorted_firstn {A} (R : A -> A -> Prop) (n : nat) (l : list A) :
  StronglySorted R l -> StronglySorted R (firstn n l).
Proof.
  intros H. revert n. induction H as [|x r Hr IH Hx]; intros [|n]; simpl;
    try constructor; auto.
  rewrite Forall_forall in *. intros y Hy. apply Hx.
  eapply firstn_In; eauto.
Qed.

Lemma StronglySorted_skipn {A} (R : A -> A -> Prop) (n : nat) (l : list A) :
  StronglySorted R l -> StronglySorted R (skipn n l).
Proof.
  intros H. revert n. induction H as [|x r Hr IH Hx]; intros [|n]; simpl;
    try constructor; auto.
Qed.

Lemma slice_sorted {A} (R : A -> A -> Prop) (a b : Z) (l : list A) :
  StronglySorted R l -> StronglySorted R (slice a b l).
Proof.
  intros H. unfold slice. now apply StronglySorted_firstn, StronglySorted_skipn.
Qed.

Lemma slice_In {A} (a b : Z) (l : list A) (x : A) :
  In x (slice a b l) -> In x l.
Proof.
  unfold slice. intros H. apply firstn_In in H.
  eapply skipn_In; eauto.
Qed.

Lemma slice_page {A} (l : list A) (page limit : Z) :
  1 <= page -> 0 <= limit ->
  slice ((page - 1) * limit) ((page - 1) * limit + limit) l
  = firstn (Z.to_nat limit) (skipn (Z.to_nat ((page - 1) * limit)) l).
Proof.
  intros Hp Hl. unfold slice, slice_index.
  assert (Hs : 0 <= (page - 1) * limit) by nia.
  set (start := (page - 1) * limit) in *.
  set (len := Z.of_nat (List.length l)).
  assert (E1 : (start <? 0) = false) by (apply Z.ltb_ge; lia).
  assert (E2 : (start + limit <? 0) = false) by (apply Z.ltb_ge; lia).
  rewrite E1, E2.
  destruct (Z_lt_ge_dec start len) as [Hlt|Hge].
  - rewrite (Z.min_l start len) by lia.
    assert (Hlen : List.length (skipn (Z.to_nat start) l)
                   = Z.to_nat (len - start)).
    { rewrite length_skipn. unfold len. lia. }
    destruct (Z_le_gt_dec (start + limit) len) as [Hle|Hgt].
    + rewrite Z.min_l by lia. f_equal. lia.
    + rewrite Z.min_r by lia.
      rewrite !firstn_all2; auto; rewrite Hlen; lia.
  - rewrite !Z.min_r by lia. rewrite Z.sub_diag. simpl.
    rewrite skipn_all2 by (unfold len in Hge; lia).
    now rewrite firstn_nil.
Qed.

Lemma pages_concat {A} (l : list A) (L n : nat) :
  List.concat (map (fun p => firstn L (skipn ((p - 1) * L) l)) (seq 1 n))
  = firstn (n * L) l.
Proof.
  induction n as [|n IH]; [reflexivity|].
  rewrite seq_S, map_app, concat_app, IH. simpl.
  rewrite app_nil_r, Nat.sub_0_r.
  replace (L + n * L)%nat with (n * L + L)%nat by lia.
  symmetry. apply firstn_add.
Qed.

(** ** Searching orders *)

Section SearchFacts.

Variable toLowerCase : string -> string.

Lemma compare_updated_first_sorted (l : list GroupOrder) :
  updated_first (sort_by compare_updated_first l).
Proof.
  unfold updated_first.
  apply StronglySorted_impl
    with (R1 := fun a b => compare_updated_first a b <= 0).
  - unfold compare_updated_first. intros a b. lia.
  - apply sort_by_sorted; unfold compare_updated_first; intros; lia.
Qed.

End SearchFacts.

Lemma paginate_page (l : list GroupOrder) (p : nat) (limit : Z) :
  (1 <= p)%nat -> 0 <= limit ->
  result_orders (paginate l (Z.of_nat p) limit)
  = firstn (Z.to_nat limit) (skipn ((p - 1) * Z.to_nat limit) l).
Proof.
  intros Hp Hl. unfold paginate. simpl. rewrite slice_page by lia.
  do 2 f_equal. rewrite Z2Nat.inj_mul by lia. f_equal. lia.
Qed.

Lemma paginate_pages (l : list GroupOrder) (limit : Z) (n : nat) :
  0 <= limit ->
  List.concat
    (map (fun p => result_orders (paginate l (Z.of_nat p) limit)) (seq 1 n))
  = firstn (n * Z.to_nat limit) l.
Proof.
  intros Hl. rewrite <- pages_concat. f_equal.
  apply map_ext_in. intros p Hp. apply in_seq in Hp.
  apply paginate_page; lia.
Qed.

Lemma show_status_inj (a b : OrderStatus) :
  String.eqb (show_status a) (show_status b) = true -> a = b.
Proof. destruct a, b; simpl; intros H; try reflexivity; discriminate. Qed.

Lemma field_rejects_false (wanted actual : string) :
  wanted <> EmptyString ->
  field_rejects (Some wanted) actual = false -> actual = wanted.
Proof.
  unfold field_rejects, truthy_value. intros Hw.
  apply String.eqb_neq in Hw. rewrite Hw.
  destruct (String.eqb_spec actual wanted); auto. discriminate.
Qed.

Lemma option_string_eqb_eq (a b : option string) :
  option_string_eqb a b = true -> a = b.
Proof.
  destruct a, b; simpl; intros H; try discriminate; auto.
  apply String.eqb_eq in H. now subst.
Qed.

Lemma searchOrders_In toLowerCase query page limit s o :
  In o (result_orders (searchOrders toLowerCase query page limit s)) ->
  In o (JsMap.values (orders s)) /\ order_matches toLowerCase query o = true.
Proof.
  unfold searchOrders, paginate. simpl. intros H. apply slice_In in H.
  apply (Permutation_in _ (sort_by_perm _ _)) in H.
  now apply filter_In in H.
Qed.

(** X17. Paging through a search shows every matching order once, newest
    first: with a positive limit, the pages 1 to [n] of [searchOrders], one
    after the other, are the stored orders that pass the filter, each once,
    ordered by [updatedAt] from the latest on, as soon as [n] pages have
    room for the reported total; no page holds more than [limit] orders and
    the total is the number of matching orders on every page. *)
Theorem searchOrders_pages_cover
    (toLowerCase : string -> string) (query : OrderSearchQuery)
    (limit : Z) (n : nat) (s : ServiceState) :
  0 < limit ->
  result_total (searchOrders toLowerCase query (Some 1) (Some limit) s)
  <= Z.of_nat n * limit ->
  let pages :=
    pages_of (fun p => searchOrders toLowerCase query p (Some limit) s) n in
  let matching :=
    filter (order_matches toLowerCase query) (JsMap.values (orders s)) in
  Permutation pages matching
  /\ updated_first pages
  /\ (forall p : nat,
        Z.of_nat
          (List.length
             (result_orders
                (searchOrders toLowerCase query (Some (Z.of_nat (S p)))
                   (Some limit) s))) <= limit)
  /\ (forall p l,
        result_total (searchOrders toLowerCase query p l s)
        = Z.of_nat (List.length matching)).
Proof.
  intros Hl Hn pages matching.
  assert (Hpages : pages = sort_by compare_updated_first matching).
  { unfold pages, pages_of, searchOrders. rewrite paginate_pages by lia.
    apply firstn_all2. unfold searchOrders, paginate in Hn. simpl in Hn.
    fold matching in Hn. nia. }
  refine (conj _ (conj _ (conj _ _))).
  - rewrite Hpages. apply sort_by_perm.
  - rewrite Hpages. apply compare_updated_first_sorted.
  - intros p. unfold searchOrders. rewrite paginate_page by lia.
    rewrite length_firstn. lia.
  - intros p l. unfold searchOrders, paginate. simpl. fold matching.
    now rewrite sort_by_length.
Qed.

Lemma searchOrders_pages_cover_witness :
  Permutation
    (pages_of (fun p => searchOrders lower no_query p (Some 1) ex_state_two) 2)
    (filter (order_matches lower no_query) (JsMap.values (orders ex_state_two)))
  /\ updated_first
       (pages_of (fun p => searchOrders lower no_query p (Some 1) ex_state_two) 2).
Proof.
  pose proof (searchOrders_pages_cover lower no_query 1 2 ex_state_two) as H.
  cbv zeta in H.
  refine ((fun H' => conj (proj1 H') (proj1 (proj2 H'))) (H _ _)).
  - lia.
  - vm_compute. discriminate.
Defined.

(** X18. The named searches return what they name, on every page and for
    every limit: [getUserOrders] only orders created by the user,
    [getParticipantOrders] only orders with a participant who has the id as
    participant id, user id or guest session id, [getOrdersByStatus] only
    orders in that status and [getOrdersByDateRange] only orders created
    within the range; all of them are stored orders. The user and
    participant ids must not be empty: an empty id switches the filter off. *)
Theorem named_searches_return_what_they_name
    (toLowerCase : string -> string) (userId_ participantId_ : string)
    (status_ : OrderStatus) (startDate endDate : Z) (page limit : option Z)
    (s : ServiceState) :
  userId_ <> EmptyString ->
  participantId_ <> EmptyString ->
  Forall (fun o => createdBy o = userId_ /\ In o (JsMap.values (orders s)))
    (result_orders (getUserOrders toLowerCase userId_ page limit s))
  /\ Forall (fun o => Exists (known_as participantId_) (participants o)
                      /\ In o (JsMap.values (orders s)))
       (result_orders
          (getParticipantOrders toLowerCase participantId_ page limit s))
  /\ Forall (fun o => status o = status_ /\ In o (JsMap.values (orders s)))
       (result_orders (getOrdersByStatus toLowerCase status_ page limit s))
  /\ Forall (fun o => startDate <= createdAt o <= endDate
                      /\ In o (JsMap.values (orders s)))
       (result_orders
          (getOrdersByDateRange toLowerCase startDate endDate page limit s)).
Proof.
  intros Hu Hp.
  refine (conj _ (conj _ (conj _ _))); apply Forall_forall; intros o Ho;
    apply searchOrders_In in Ho; destruct Ho as [Hin Hm]; split; auto;
    unfold order_matches in Hm; simpl in Hm.
  - destruct (field_rejects (Some userId_) (createdBy o)) eqn:E;
      [discriminate|]. now apply field_rejects_false.
  - unfold truthy_value in Hm. apply String.eqb_neq in Hp. rewrite Hp in Hm.
    destruct (existsb _ (participants o)) eqn:E; [|discriminate].
    apply existsb_exists in E. destruct E as (p & Hin' & Hk).
    apply Exists_exists. exists p. split; auto. unfold known_as.
    apply orb_true_iff in Hk. destruct Hk as [Hk|Hk].
    + apply orb_true_iff in Hk. destruct Hk as [Hk|Hk].
      * left. now apply String.eqb_eq.
      * right. left. now apply option_string_eqb_eq.
    + right. right. now apply option_string_eqb_eq.
  - destruct (field_rejects (Some (show_status status_))
                (show_status (status o))) eqn:E; [discriminate|].
    unfold field_rejects, truthy_value in E.
    destruct (String.eqb (show_status status_) "") eqn:E0.
    + destruct status_; discriminate.
    + apply show_status_inj.
      destruct (String.eqb (show_status (status o)) (show_status status_));
        auto; discriminate.
  - unfold dateRange_rejects in Hm. simpl in Hm.
    destruct (createdAt o <? startDate) eqn:E1; [discriminate|].
    destruct (endDate <? createdAt o) eqn:E2; [discriminate|].
    apply Z.ltb_ge in E1, E2. lia.
Qed.

Lemma named_searches_return_what_they_name_witness :
  Forall (fun o => createdBy o = "creator"
                   /\ In o (JsMap.values (orders ex_state_alice)))
    (result_orders (getUserOrders lower "creator" None None ex_state_alice))
  /\ Forall (fun o => Exists (known_as "user-a") (participants o)
                      /\ In o (JsMap.values (orders ex_state_alice)))
       (result_orders
          (getParticipantOrders lower "user-a" None None ex_state_alice))
  /\ Forall (fun o => status o = active
                      /\ In o (JsMap.values (orders ex_state_alice)))
       (result_orders (getOrdersByStatus lower active None None ex_state_alice))
  /\ Forall (fun o => 0 <= createdAt o <= 10
                      /\ In o (JsMap.values (orders ex_state_alice)))
       (result_orders
          (getOrdersByDateRange lower 0 10 None None ex_state_alice)).
Proof.
  apply (named_searches_return_what_they_name lower "creator" "user-a" active
           0 10 None None ex_state_alice); discriminate.
Defined.

Example getParticipantOrders_scenario :
  map orderId
    (result_orders (getParticipantOrders lower "user-a" None None ex_state_alice))
  = ["order-1"]
  /\ result_orders (getParticipantOrders lower "user-b" None None ex_state_alice)
     = [].
Proof. split; vm_compute; reflexivity. Qed.

Lemma compare_advanced_default (a b : GroupOrder) :
  compare_advanced "updatedAt" "desc" a b = compare_updated_first a b.
Proof. reflexivity. Qed.

(** X19. Without its own filters and sort options, [advancedSearchOrders]
    answers as [searchOrders] does for the same creator, status, menu,
    keyword and date range, on every page: it has no participant filter, so
    the answer is that of the query with the participant filter left out. *)
Theorem advancedSearchOrders_extends_searchOrders
    (toLowerCase : string -> string) (query : OrderSearchQuery)
    (page limit : option Z) (s : ServiceState) :
  advancedSearchOrders toLowerCase (basic_query query) page limit s
  = searchOrders toLowerCase (without_participant query) page limit s.
Proof.
  unfold advancedSearchOrders, searchOrders.
  change (sortBy_of (basic_query query)) with "updatedAt".
  change (sortOrder_of (basic_query query)) with "desc".
  rewrite (sort_by_ext _ _ _ compare_advanced_default).
  do 2 f_equal. apply filter_ext. intros o.
  unfold order_matches_advanced, order_matches. simpl.
  destruct (field_rejects (query_createdBy query) (createdBy o)); auto.
  destruct (field_rejects (query_status query) (show_status (status o))); auto.
  destruct (field_rejects (query_menuId query) (menuId o)); auto.
  destruct (dateRange_rejects (query_dateRange query) o);
    destruct (keyword_rejects toLowerCase (query_keyword query) o); auto.
Qed.

(** X20. [advancedSearchOrders] lists in the order asked for: every page is
    ordered by the value named by [sortBy] (createdAt, updatedAt, deadline
    with 0 for none, totalAmount, participantCount; updatedAt for any other
    name), ascending when [sortOrder] is [asc] and descending for any other
    value; every order on it is stored and passes the filter. *)
Theorem advancedSearchOrders_in_requested_order
    (toLowerCase : string -> string) (query : AdvancedOrderSearchQuery)
    (page limit : option Z) (s : ServiceState) :
  StronglySorted (in_requested_order query)
    (result_orders (advancedSearchOrders toLowerCase query page limit s))
  /\ Forall (fun o => In o (JsMap.values (orders s))
                      /\ order_matches_advanced toLowerCase query o = true)
       (result_orders (advancedSearchOrders toLowerCase query page limit s)).
Proof.
  unfold advancedSearchOrders, paginate. simpl. split.
  - apply slice_sorted.
    apply StronglySorted_impl
      with (R1 := fun a b =>
                    compare_advanced (sortBy_of query) (sortOrder_of query) a b
                    <= 0).
    + unfold in_requested_order, compare_advanced. intros a b.
      destruct (String.eqb (sortOrder_of query) "asc"); lia.
    + apply sort_by_sorted; unfold compare_advanced;
        destruct (String.eqb (sortOrder_of query) "asc"); intros; lia.
  - apply Forall_forall. intros o Ho. apply slice_In in Ho.
    apply (Permutation_in _ (sort_by_perm _ _)) in Ho.
    now apply filter_In in Ho.
Qed.

(** ** Totals of a participant and of an order *)

Lemma participant_totals_fold (its : list OrderItem) (n a : Z)
    (rows : list ParticipantTotalsRow) :
  fold_left participant_totals_item its (n, a, rows)
  = (n + sum_of quantity its, a + sum_of totalPrice its,
     rows ++ map row_of_item its).
Proof.
  revert n a rows. induction its as [|it r IH]; intros n a rows; simpl.
  - now rewrite !Z.add_0_r, app_nil_r.
  - rewrite IH, <- app_assoc, <- !Z.add_assoc. reflexivity.
Qed.

Lemma calculateParticipantTotals_eq (p : OrderParticipant) :
  calculateParticipantTotals p
  = {| pt_totalItems := sum_of quantity (items p);
       pt_totalAmount := sum_of totalPrice (items p);
       pt_itemBreakdown := map row_of_item (items p) |}.
Proof.
  unfold calculateParticipantTotals. now rewrite participant_totals_fold.
Qed.

Lemma sum_of_map {A B} (f : A -> B) (g : B -> Z) (l : list A) :
  sum_of g (map f l) = sum_of (fun x => g (f x)) l.
Proof. induction l as [|x r IH]; simpl; auto. now rewrite IH. Qed.

Lemma sum_of_ext_in {A} (f g : A -> Z) (l : list A) :
  Forall (fun x => f x = g x) l -> sum_of f l = sum_of g l.
Proof. induction 1 as [|x r Hx Hr IH]; simpl; auto. now rewrite Hx, IH. Qed.

Lemma calculateOrderTotals_sums (o : GroupOrder) :
  ot_totalItems (calculateOrderTotals o) = sum_of quantity (all_items (participants o))
  /\ ot_totalAmount (calculateOrderTotals o) = sum_of totalAmount (participants o).
Proof.
  unfold calculateOrderTotals.
  destruct (participants_agree (participants o) 0 0 JsMap.empty JsMap.empty)
    as [H1 _]; [reflexivity|].
  pose proof (summary_participants_sums (participants o) 0 0 JsMap.empty) as Hs.
  pose proof (summary_participant_total (participants o) (0, 0, JsMap.empty))
    as Ht.
  cbv zeta in Hs.
  destruct (fold_left summary_participant (participants o) (0, 0, JsMap.empty))
    as [[n1 a1] m1].
  destruct (fold_left totals_participant (participants o) (0, 0, JsMap.empty))
    as [[n2 a2] m2].
  simpl in *. injection H1 as -> ->. destruct Hs as (S1 & _ & _).
  split; auto.
Qed.

Lemma run_calls_consistent ps cs s :
  Forall call_keeps_ledger cs ->
  store_consistent s -> store_consistent (run_calls ps cs s).
Proof.
  unfold run_calls. intros Hcs. revert s.
  induction Hcs as [|c r Hc Hr IH]; intros s Hs; simpl; auto.
  apply IH. destruct c as [op|oid u b now]; simpl in *.
  - now apply run_operation_consistent.
  - now apply updateOrder_consistent.
Qed.

(** X21. The totals the service reports agree with what is stored, after
    any sequence of calls on a consistent store in which no update request
    carries participants or a summary in its body. For a stored order,
    [getOrderTotals] answers; its total amount is the amount of the cached
    summary and is what the total amounts that [calculateParticipantTotals]
    gives for the participants add up to, in their order; its total of
    items is the quantities of all order items, added up in their order.
    [getParticipantTotals] answers for every participant of the order, and
    what it answers for an id is made from a participant with that id: it
    has the participant's stored [totalAmount] and one breakdown row per
    order item. *)
Theorem reported_totals_add_up
    (participantService : option ParticipantService)
    (cs : list Call) (s : ServiceState) (k : string) (o : GroupOrder) :
  Forall call_keeps_ledger cs ->
  store_consistent s ->
  JsMap.get k (orders (run_calls participantService cs s)) = Some o ->
  exists t,
    getOrderTotals k (run_calls participantService cs s) = Some t
    /\ ot_totalAmount t = summaryTotalAmount (summary o)
    /\ ot_totalAmount t
       = accumulate (fun p => pt_totalAmount (calculateParticipantTotals p))
           (participants o)
    /\ ot_totalItems t = accumulate quantity (all_items (participants o))
    /\ (forall p,
          In p (participants o) ->
          exists pt,
            getParticipantTotals k (participantId p)
              (run_calls participantService cs s) = Some pt)
    /\ forall pid pt,
         getParticipantTotals k pid (run_calls participantService cs s)
         = Some pt ->
         exists p,
           In p (participants o) /\ participantId p = pid
           /\ pt_totalAmount pt = totalAmount p
           /\ pt_itemBreakdown pt = map row_of_item (items p).
Proof.
  intros Hcs Hs Hg.
  pose proof (run_calls_consistent participantService cs s Hcs Hs) as Hc.
  destruct (stored_order_consistent k o _ Hc Hg) as [Hsum Hps].
  destruct (calculateOrderTotals_sums o) as (T1 & T2).
  exists (calculateOrderTotals o). unfold getOrderTotals, getParticipantTotals.
  rewrite Hg, !accumulate_sum.
  refine (conj eq_refl (conj _ (conj _ (conj _ (conj _ _))))).
  - congruence.
  - rewrite T2. apply sum_of_ext_in.
    eapply Forall_impl; [|exact Hps]. intros p Hp.
    rewrite calculateParticipantTotals_eq. exact Hp.
  - exact T1.
  - intros p Hin.
    destruct (find (fun q => String.eqb (participantId q) (participantId p))
                (participants o)) as [q|] eqn:Hf; [eauto|].
    exfalso. unfold find in Hf.
    pose proof (find_none _ _ Hf p Hin) as Hn. simpl in Hn.
    now rewrite String.eqb_refl in Hn.
  - intros pid pt Hpt.
    destruct (find _ (participants o)) as [p|] eqn:Hf; [|discriminate].
    injection Hpt as <-. apply find_some in Hf. destruct Hf as [Hin Hid].
    exists p. rewrite calculateParticipantTotals_eq. simpl.
    repeat split; auto.
    + now apply String.eqb_eq.
    + symmetry. rewrite Forall_forall in Hps. now apply Hps.
Qed.

Lemma reported_totals_add_up_witness :
  exists t,
    getOrderTotals "order-1"
      (run_calls None
         (map Declared ex_joins
          ++ [UpdateOrderWith "order-1" "creator" ex_body_menu 5000])
         ex_state_two_teas) = Some t
    /\ ot_totalAmount t = 150
    /\ exists pt,
         getParticipantTotals "order-1" "p-bob"
           (run_calls None
              (map Declared ex_joins
               ++ [UpdateOrderWith "order-1" "creator" ex_body_menu 5000])
              ex_state_two_teas) = Some pt
         /\ pt_totalAmount pt = 0.
Proof.
  edestruct (reported_totals_add_up None
               (map Declared ex_joins
                ++ [UpdateOrderWith "order-1" "creator" ex_body_menu 5000])
               ex_state_two_teas "order-1")
    as (t & H1 & H2 & _ & _ & H5 & H6).
  - repeat constructor.
  - unfold store_consistent. vm_compute. repeat constructor.
  - vm_compute. reflexivity.
  - exists t. split; [exact H1|]. split; [rewrite H2; reflexivity|].
    destruct (H5 ex_bob) as [pt Hpt]; [simpl; auto|].
    exists pt. split; [exact Hpt|].
    destruct (H6 _ _ Hpt) as (p & Hin & Hid & Ha & _). rewrite Ha.
    destruct Hin as [<-|[<-|[]]]; [discriminate|reflexivity].
Defined.

(** ** Suggested nicknames *)

Lemma suggest_numbered_fold base oid s (l : list Z) (acc : list string) :
  fold_left (suggest_numbered base oid s) l acc
  = acc ++ filter (fun c => isNicknameAvailableInOrder c oid s)
             (map (fun i => base +++ show_number i) l).
Proof.
  revert acc. induction l as [|i r IH]; intros acc.
  - simpl. now rewrite app_nil_r.
  - change (fold_left (suggest_numbered base oid s) (i :: r) acc)
      with (fold_left (suggest_numbered base oid s) r
              (suggest_numbered base oid s acc i)).
    rewrite IH. unfold suggest_numbered. cbn [map filter].
    destruct (isNicknameAvailableInOrder (base +++ show_number i) oid s); auto.
    now rewrite <- app_assoc.
Qed.

Lemma suggest_variation_fold oid s (l : list string) (acc : list string) :
  firstn 5 (fold_left (suggest_variation oid s) l acc)
  = firstn 5 (acc ++ filter (fun c => isNicknameAvailableInOrder c oid s) l).
Proof.
  revert acc. induction l as [|c r IH]; intros acc.
  - simpl. now rewrite app_nil_r.
  - change (fold_left (suggest_variation oid s) (c :: r) acc)
      with (fold_left (suggest_variation oid s) r
              (suggest_variation oid s acc c)).
    rewrite IH. unfold suggest_variation. cbn [filter].
    destruct (5 <=? List.length acc)%nat eqn:E.
    + apply Nat.leb_le in E.
      rewrite !firstn_app.
      replace (5 - List.length acc)%nat with O by lia.
      now rewrite !firstn_O.
    + destruct (isNicknameAvailableInOrder c oid s); auto.
      now rewrite <- app_assoc.
Qed.

Lemma slice_front {A} (n : nat) (l : list A) :
  slice 0 (Z.of_nat n) l = firstn n l.
Proof.
  unfold slice, slice_index. simpl.
  assert (E : (Z.of_nat n <? 0) = false) by (apply Z.ltb_ge; lia).
  rewrite E, (Z.min_l 0) by lia. simpl. rewrite Z.sub_0_r.
  destruct (Z_le_gt_dec (Z.of_nat n) (Z.of_nat (List.length l))).
  - rewrite Z.min_l by lia. now rewrite Nat2Z.id.
  - rewrite Z.min_r by lia. rewrite Nat2Z.id.
    rewrite !firstn_all2; auto; lia.
Qed.

(** X22. [suggestAlternativeNicknames] returns the first five free names
    among the ten it tries, in the order it tries them (the nickname
    followed by 1 to 5, then five variations). So it returns at most five
    names, none of them is the nickname of a participant of the order, and
    for an order that is not stored it returns nothing. *)
Theorem suggestAlternativeNicknames_first_five_free
    (nickname_ orderId_ : string) (s : ServiceState) :
  let suggestions := suggestAlternativeNicknames nickname_ orderId_ s in
  suggestions
  = firstn 5 (filter (fun c => isNicknameAvailableInOrder c orderId_ s)
                (candidates nickname_))
  /\ (List.length suggestions <= 5)%nat
  /\ Forall (fun c => ~ In c (map nickname (getOrderParticipants orderId_ s)))
       suggestions
  /\ match JsMap.get orderId_ (orders s) with
     | Some _ => True
     | None => suggestions = []
     end.
Proof.
  cbv zeta.
  assert (H : suggestAlternativeNicknames nickname_ orderId_ s
              = firstn 5 (filter (fun c => isNicknameAvailableInOrder c orderId_ s)
                            (candidates nickname_))).
  { unfold suggestAlternativeNicknames, candidates.
    rewrite (slice_front 5), suggest_variation_fold, suggest_numbered_fold.
    now rewrite filter_app. }
  rewrite H. refine (conj eq_refl (conj _ (conj _ _))).
  - apply firstn_le_length.
  - apply Forall_forall. intros c Hc. apply firstn_In in Hc.
    apply filter_In in Hc. destruct Hc as [_ Hc].
    unfold isNicknameAvailableInOrder, getOrderParticipants in *.
    destruct (JsMap.get orderId_ (orders s)) as [o|]; [|discriminate].
    intros Hin. apply in_map_iff in Hin. destruct Hin as (p & Hp & Hin).
    apply negb_true_iff in Hc.
    assert (Ht : existsb (fun p => String.eqb (nickname p) c) (participants o)
                 = true).
    { apply existsb_exists. exists p. split; auto. now apply String.eqb_eq. }
    congruence.
  - destruct (JsMap.get orderId_ (orders s)) eqn:Hg; auto.
    assert (Hf : forall l,
               filter (fun c => isNicknameAvailableInOrder c orderId_ s) l = []).
    { intros l. induction l as [|c r IH]; simpl; auto.
      unfold isNicknameAvailableInOrder at 1. now rewrite Hg. }
    now rewrite Hf.
Qed.

Example suggestAlternativeNicknames_scenario :
  suggestAlternativeNicknames "Alice" "order-1" ex_state_alice
  = ["Alice1"; "Alice2"; "Alice3"; "Alice4"; "Alice5"]
  /\ suggestAlternativeNicknames "Alice" "order-9" ex_state_alice = [].
Proof. split; vm_compute; reflexivity. Qed.

(** ** Joining with the participant service wired in *)

Lemma ParticipantServiceImpl_canParticipantJoinOrder_true identities now id o :
  ParticipantServiceImpl_canParticipantJoinOrder identities now id o = true ->
  status o = active /\ deadline_reached o now = false
  /\ capacity_reached o = false.
Proof.
  unfold ParticipantServiceImpl_canParticipantJoinOrder.
  destruct (JsMap.get id identities); [|discriminate].
  destruct (status o); simpl; try discriminate.
  destruct (deadline_reached o now); [discriminate|].
  destruct (capacity_reached o); [discriminate|]. auto.
Qed.

Lemma validateParticipantIdentity_valid
    isValidNickname getUserById getGuestSession r newId identities :
  pv_isValid
    (fst (ParticipantServiceImpl_validateParticipantIdentity isValidNickname
            getUserById getGuestSession r newId identities)) = true ->
  isValidNickname (join_nickname r) = true
  /\ pv_identity
       (fst (ParticipantServiceImpl_validateParticipantIdentity isValidNickname
               getUserById getGuestSession r newId identities)) <> None
  /\ match truthy_value (join_userId r) with
     | Some u => getUserById u = true
     | None => True
     end.
Proof.
  unfold ParticipantServiceImpl_validateParticipantIdentity, validate_guest.
  destruct (isValidNickname (join_nickname r)); simpl; [|discriminate].
  destruct (truthy_value (join_userId r)) as [u|].
  - destruct (getUserById u); simpl; [|discriminate].
    destruct (findParticipantByUserId u identities); simpl;
      [intros _; repeat split; discriminate|].
    destruct (truthy_value (join_guestSessionId r)) as [g|]; simpl.
    + destruct (getGuestSession g); simpl; [|discriminate].
      destruct (findParticipantByGuestSession g identities); simpl;
        intros _; repeat split; discriminate.
    + intros _; repeat split; discriminate.
  - destruct (truthy_value (join_guestSessionId r)) as [g|]; simpl.
    + destruct (getGuestSession g); simpl; [|discriminate].
      destruct (findParticipantByGuestSession g identities); simpl;
        intros _; repeat split; discriminate.
    + intros _; repeat split; discriminate.
Qed.

(** X23. With [ParticipantServiceImpl] wired in, as the order router does,
    [joinOrder] admits a participant only to an order that is active, whose
    deadline is not reached and that is not full, under a nickname the
    service accepts, for a user the user manager knows, and only when no
    participant has the nickname or the request's user or guest session;
    every other call is refused and leaves the service as it is. *)
Theorem joinOrder_with_participant_service
    (isValidNickname getUserById getGuestSession : string -> bool)
    (identities : JsMap.t ParticipantIdentity) (newIdentityId : string)
    (request : JoinOrderRequest) (now : Z)
    (newParticipantId newModificationId : string) (s : ServiceState) :
  let participantService :=
    ParticipantServiceImpl_during isValidNickname getUserById getGuestSession
      identities newIdentityId request in
  let result :=
    joinOrder (Some participantService) request now newParticipantId
      newModificationId s in
  (canJoin (fst result) = false /\ snd result = s)
  \/ (exists o,
        order (validateOrderCode (join_orderCode request) now s) = Some o
        /\ status o = active
        /\ deadline_reached o now = false
        /\ capacity_reached o = false
        /\ isValidNickname (join_nickname request) = true
        /\ match truthy_value (join_userId request) with
           | Some u => getUserById u = true
           | None => True
           end
        /\ Forall (fun p => already_joined request p = false) (participants o)
        /\ option_map participants (order (fst result))
           = Some (participants o
                   ++ [joined_participant request now newParticipantId])).
Proof.
  cbv zeta.
  destruct (canJoin (fst (joinOrder _ request now newParticipantId
                            newModificationId s))) eqn:Hc.
  - right. revert Hc. unfold joinOrder.
    destruct (order (validateOrderCode (join_orderCode request) now s))
      as [o|] eqn:Ho.
    + destruct (negb (isValid (validateOrderCode (join_orderCode request) now s)))
        eqn:Hv.
      * simpl. intros Hc. exfalso. revert Hv Hc. unfold validateOrderCode.
        repeat (break_guard; simpl; try discriminate).
      * unfold joinOrder_validated, participantService_check.
        cbn [validateParticipantIdentity canParticipantJoinOrder
             ParticipantServiceImpl_during].
        destruct (pv_isValid _) eqn:Hvalid; simpl; [|discriminate].
        destruct (validateParticipantIdentity_valid _ _ _ _ _ _ Hvalid)
          as (Hn & Hid & Hu).
        destruct (pv_canJoin _); simpl; [|discriminate].
        destruct (pv_identity _) as [identity_|]; [|congruence].
        destruct (ParticipantServiceImpl_canParticipantJoinOrder _ now
                    (identityId identity_) o) eqn:Hjoin; simpl; [|discriminate].
        destruct (ParticipantServiceImpl_canParticipantJoinOrder_true _ _ _ _ Hjoin)
          as (Hst & Hd & Hcap).
        destruct (find (already_joined request) (participants o)) eqn:Hf;
          simpl; [discriminate|].
        rewrite Hcap. simpl. intros _. exists o.
        repeat split; auto.
        apply Forall_forall. intros p Hp. exact (find_none _ _ Hf p Hp).
    + intros Hc. exfalso. revert Ho Hc. unfold validateOrderCode.
      repeat (break_guard; simpl; try discriminate).
  - left. split; auto. now apply joinOrder_rejection_unchanged.
Qed.

(** ** The scheduler *)

#[local] Arguments checkExpiredOrders : simpl never.

Lemma checkExpiredOrders_scheduler now w :
  scheduler (snd (checkExpiredOrders now w)) = scheduler w
  /\ runtime (snd (checkExpiredOrders now w)) = runtime w.
Proof.
  unfold checkExpiredOrders.
  now destruct (checkAndExpireOrders now (service w)).
Qed.

Lemma checkExpiredOrders_one_timer r now w :
  one_timer r w -> one_timer r (snd (checkExpiredOrders now w)).
Proof.
  destruct (checkExpiredOrders_scheduler now w) as [H1 H2].
  unfold one_timer, own_timer. now rewrite H1, H2.
Qed.

Lemma filter_other_handles (h : Z) (l : list (Z * Callback)) :
  Forall (fun t => fst t < h) l ->
  filter (fun t => negb (fst t =? h)) l = l.
Proof.
  induction 1 as [|t l Ht Hl IH]; simpl; auto.
  destruct (fst t =? h) eqn:E; simpl.
  - apply Z.eqb_eq in E. lia.
  - now rewrite IH.
Qed.

Lemma schedule_event_one_timer r e w :
  handles_issued r -> one_timer r w -> one_timer r (schedule_event e w).
Proof.
  intros Hr Hw. destruct e; simpl.
  - unfold start. destruct (isRunning (scheduler w)) eqn:E; auto.
    destruct (checkExpiredOrders_scheduler now w) as [H1 H2].
    destruct Hw as (Ht & Hrun & Hn & _). rewrite E in Hrun.
    unfold own_timer in Ht.
    destruct (intervalId (scheduler w)); [discriminate|].
    rewrite app_nil_r in Ht.
    unfold one_timer, own_timer. simpl. rewrite H2, Ht.
    repeat split; auto; lia.
  - unfold stop. destruct (isRunning (scheduler w)) eqn:E; simpl; auto.
    destruct Hw as (Ht & Hrun & Hn & Hh). rewrite E in Hrun.
    unfold own_timer in Ht.
    destruct (intervalId (scheduler w)) as [h|]; [|discriminate].
    unfold one_timer, own_timer. simpl. rewrite Ht, filter_app. simpl.
    rewrite Z.eqb_refl. simpl. rewrite filter_other_handles.
    + repeat split; auto.
    + eapply Forall_impl; [|exact Hr]. simpl. intros; lia.
  - unfold tick.
    destruct (find _ (timers (runtime w))) as [[h' [| |]]|]; auto.
    now apply checkExpiredOrders_one_timer.
  - unfold triggerCheck. now apply checkExpiredOrders_one_timer.
Qed.

Lemma schedule_app events1 events2 w :
  schedule (events1 ++ events2) w = schedule events2 (schedule events1 w).
Proof. unfold schedule. apply fold_left_app. Qed.

Lemma schedule_one_timer r events w :
  handles_issued r -> one_timer r w -> one_timer r (schedule events w).
Proof.
  intros Hr. revert w. induction events as [|e l IH]; intros w Hw; simpl; auto.
  apply IH. now apply schedule_event_one_timer.
Qed.

Lemma schedule_only_sweeps events w :
  exists nows,
    service (schedule events w)
    = run None (map CheckAndExpireOrders nows) (service w).
Proof.
  revert w. induction events as [|e r IH]; intros w.
  - exists []. reflexivity.
  - assert (He : service (schedule_event e w) = service w
                 \/ exists now,
                      service (schedule_event e w)
                      = snd (checkAndExpireOrders now (service w))).
    { assert (Hc : forall now,
                 service (snd (checkExpiredOrders now w))
                 = snd (checkAndExpireOrders now (service w))).
      { intros now. unfold checkExpiredOrders.
        now destruct (checkAndExpireOrders now (service w)). }
      destruct e; simpl.
      - unfold start. destruct (isRunning (scheduler w)); auto.
        right. exists now. simpl. apply Hc.
      - left. unfold stop. destruct (isRunning (scheduler w)); simpl; auto.
        now destruct (intervalId (scheduler w)).
      - unfold tick.
        destruct (find _ (timers (runtime w))) as [[h' [| |]]|]; auto.
        + right. exists now. reflexivity.
        + right. exists now. apply Hc.
      - right. exists now. apply Hc. }
    destruct (IH (schedule_event e w)) as [nows Hn].
    change (schedule (e :: r) w) with (schedule r (schedule_event e w)).
    rewrite Hn. destruct He as [->|[now ->]].
    + exists nows. reflexivity.
    + exists (now :: nows). reflexivity.
Qed.

Lemma schedule_checkInterval events w :
  checkInterval (scheduler (schedule events w)) = checkInterval (scheduler w).
Proof.
  revert w. induction events as [|e r IH]; intros w; simpl; auto.
  unfold schedule in *. simpl. rewrite IH.
  destruct e; simpl.
  - unfold start. destruct (isRunning (scheduler w)); auto.
    simpl. now destruct (checkExpiredOrders_scheduler now w) as [-> _].
  - unfold stop. destruct (isRunning (scheduler w)); simpl; auto.
    now destruct (intervalId (scheduler w)).
  - unfold tick.
    destruct (find _ (timers (runtime w))) as [[h' [| |]]|]; auto.
    now destruct (checkExpiredOrders_scheduler now w) as [-> _].
  - unfold triggerCheck.
    now destruct (checkExpiredOrders_scheduler now w) as [-> _].
Qed.

(** X24. The scheduler holds one timer while it runs and none when it is
    stopped, beside the timers that are not its own. The constructor of the
    order service has set a timer of its own, which nothing clears. After
    any sequence of [start], [stop], [triggerCheck] and timer callbacks on a
    new scheduler, the runtime holds the timers it held before the order
    service was constructed, the timer of the order service, and the timer
    of [intervalId] if the scheduler is running; so a second [start] sets no
    second timer, [stop] clears the timer of the scheduler and no other, and
    the orders are still swept every minute when the scheduler is stopped.
    The check interval is the one given to the constructor, in
    milliseconds, and the scheduler and the timers have acted on the order
    service through [checkAndExpireOrders] only. *)
Theorem scheduler_holds_one_timer
    (checkIntervalMinutes : Z) (r : Runtime) (s : ServiceState)
    (events : list SchedulerEvent) :
  handles_issued r ->
  let w := schedule events
             (newScheduler checkIntervalMinutes (startExpirationChecker r) s) in
  timers (runtime w)
  = timers r ++ (nextTimer r, ExpirationChecker)
      :: match intervalId (scheduler w) with
         | Some h => [(h, ScheduledCheck)]
         | None => []
         end
  /\ fst (getStatus w)
     = match intervalId (scheduler w) with
       | Some _ => true
       | None => false
       end
  /\ List.length (timers (runtime w))
     = (List.length (timers r) + 1 + if fst (getStatus w) then 1 else 0)%nat
  /\ (exists nows, service w = run None (map CheckAndExpireOrders nows) s)
  /\ snd (getStatus w) = checkIntervalMinutes * 60000.
Proof.
  intros Hr w.
  assert (Hr' : handles_issued (startExpirationChecker r)).
  { unfold handles_issued, startExpirationChecker. simpl.
    apply Forall_app. split.
    - eapply Forall_impl; [|exact Hr]. simpl. intros; lia.
    - repeat constructor. simpl. lia. }
  assert (H : one_timer (startExpirationChecker r) w).
  { apply schedule_one_timer; auto.
    unfold one_timer, own_timer. simpl. rewrite app_nil_r.
    repeat split; auto. lia. }
  destruct H as (Ht & Hrun & _ & _). unfold own_timer in Ht.
  simpl in Ht. rewrite <- app_assoc in Ht. simpl in Ht.
  split; [exact Ht|]. split; [exact Hrun|]. split; [|split].
  - unfold getStatus. simpl. rewrite Ht, Hrun, length_app. simpl.
    destruct (intervalId (scheduler w)); simpl; lia.
  - exact (schedule_only_sweeps events
             (newScheduler checkIntervalMinutes (startExpirationChecker r) s)).
  - unfold getStatus, w. simpl. rewrite schedule_checkInterval. simpl. lia.
Qed.

Lemma scheduler_holds_one_timer_witness :
  let w := schedule ex_schedule
             (newScheduler 1 (startExpirationChecker ex_runtime)
                ex_state_created) in
  timers (runtime w)
  = (1, ExpirationChecker)
      :: match intervalId (scheduler w) with
         | Some h => [(h, ScheduledCheck)]
         | None => []
         end.
Proof.
  refine (proj1 (scheduler_holds_one_timer 1 ex_runtime ex_state_created
                   ex_schedule _)).
  constructor.
Defined.

Example scheduler_scenario :
  let w := schedule ex_schedule
             (newScheduler 1 (startExpirationChecker ex_runtime)
                ex_state_created) in
  timers (runtime w) = [(1, ExpirationChecker); (3, ScheduledCheck)]
  /\ getStatus w = (true, 60000)
  /\ status_at "order-1" (service w) = Some expired.
Proof. vm_compute. repeat split. Qed.

(** The order service sweeps the orders by its own timer while the
    scheduler is stopped. *)
Example stopped_scheduler_scenario :
  let w := schedule [Start 100; Stop; Tick 1 400000]
             (newScheduler 1 (startExpirationChecker ex_runtime)
                ex_state_created) in
  timers (runtime w) = [(1, ExpirationChecker)]
  /\ getStatus w = (false, 60000)
  /\ status_at "order-1" (service w) = Some expired.
Proof. vm_compute. repeat split. Qed.

(** ** Statistics *)

Lemma sum_of_perm {A} (f : A -> Z) (l1 l2 : list A) :
  Permutation l1 l2 -> sum_of f l1 = sum_of f l2.
Proof. induction 1; simpl; lia. Qed.

Lemma statistics_order_fold (l : list GroupOrder) (tp ta : Z)
    (m : JsMap.t PopularMenuItem) :
  let r := fold_left statistics_order l (tp, ta, m) in
  fst (fst r) = tp + sum_of (fun o => Z.of_nat (List.length (participants o))) l
  /\ snd (fst r) = ta + sum_of (fun o => summaryTotalAmount (summary o)) l.
Proof.
  revert tp ta m. induction l as [|o r IH]; intros tp ta m.
  - simpl. split; lia.
  - change (fold_left statistics_order (o :: r) (tp, ta, m))
      with (fold_left statistics_order r
              (tp + Z.of_nat (List.length (participants o)),
               ta + summaryTotalAmount (summary o),
               fold_left statistics_breakdown (itemBreakdown (summary o)) m)).
    destruct (IH (tp + Z.of_nat (List.length (participants o)))
                 (ta + summaryTotalAmount (summary o))
                 (fold_left statistics_breakdown (itemBreakdown (summary o)) m))
      as (I1 & I2).
    cbv zeta in *. rewrite I1, I2. simpl. split; lia.
Qed.

Lemma count_status_total (l : list GroupOrder) :
  Z.of_nat (List.length l)
  = count_status active l + count_status closed l + count_status expired l.
Proof.
  unfold count_status. induction l as [|o r IH]; [reflexivity|].
  cbn [filter]. destruct (status o); cbn [OrderStatus_eqb List.length];
    rewrite !Nat2Z.inj_succ; lia.
Qed.

Lemma statistics_breakdown_counts (bds : list OrderItemBreakdown)
    (m : JsMap.t PopularMenuItem) :
  sum_of pm_orderCount (JsMap.values (fold_left statistics_breakdown bds m))
  = sum_of pm_orderCount (JsMap.values m) + Z.of_nat (List.length bds).
Proof.
  revert m. induction bds as [|b r IH]; intros m.
  - simpl. lia.
  - change (fold_left statistics_breakdown (b :: r) m)
      with (fold_left statistics_breakdown r (statistics_breakdown m b)).
    rewrite IH. unfold statistics_breakdown.
    destruct (JsMap.get (bd_menuItemId b) m) as [e|] eqn:Hg;
      rewrite !sum_of_set, Hg; cbn [List.length pm_orderCount]; lia.
Qed.

Lemma statistics_order_counts (l : list GroupOrder) (tp ta : Z)
    (m : JsMap.t PopularMenuItem) :
  sum_of pm_orderCount
    (JsMap.values (snd (fold_left statistics_order l (tp, ta, m))))
  = sum_of pm_orderCount (JsMap.values m)
    + Z.of_nat (List.length (breakdowns_of_orders l)).
Proof.
  revert tp ta m. induction l as [|o r IH]; intros tp ta m.
  - simpl. lia.
  - change (fold_left statistics_order (o :: r) (tp, ta, m))
      with (fold_left statistics_order r
              (tp + Z.of_nat (List.length (participants o)),
               ta + summaryTotalAmount (summary o),
               fold_left statistics_breakdown (itemBreakdown (summary o)) m)).
    rewrite IH, statistics_breakdown_counts.
    unfold breakdowns_of_orders. cbn [flat_map]. rewrite length_app. lia.
Qed.

(** X25. What the statistics count, in any state of the service: the orders
    counted are the stored orders, or those the user created when a
    non-empty user id is given; the total of orders is the sum of the
    active, closed and expired counts; the total of participants is the
    number of participants of these orders; the total amount is their
    cached summary amounts, added up in the order of the store; at most ten
    popular items are listed, the most ordered first; and when fewer than
    ten are listed, their order counts add up to the number of rows in the
    cached breakdowns of the orders counted. *)
Theorem getOrderStatistics_adds_up (s : ServiceState) (userId_ : option string) :
  let counted := statistics_orders userId_ s in
  let st := getOrderStatistics userId_ s in
  (forall o,
     In o counted
     <-> In o (JsMap.values (orders s))
         /\ match truthy_value userId_ with
            | Some u => createdBy o = u
            | None => True
            end)
  /\ st_totalOrders st = Z.of_nat (List.length counted)
  /\ st_totalOrders st
     = st_activeOrders st + st_closedOrders st + st_expiredOrders st
  /\ st_totalParticipants st
     = accumulate (fun o => Z.of_nat (List.length (participants o))) counted
  /\ st_totalAmount st
     = accumulate (fun o => summaryTotalAmount (summary o)) counted
  /\ (List.length (st_popularMenuItems st) <= 10)%nat
  /\ most_ordered_first (st_popularMenuItems st)
  /\ ((List.length (st_popularMenuItems st) < 10)%nat ->
      sum_of pm_orderCount (st_popularMenuItems st)
      = Z.of_nat (List.length (breakdowns_of_orders counted))).
Proof.
  intros counted st.
  pose proof (statistics_order_fold counted 0 0 JsMap.empty) as Hfold.
  pose proof (statistics_order_counts counted 0 0 JsMap.empty) as Hcount.
  cbv zeta in Hfold.
  unfold st, getOrderStatistics. fold counted. rewrite !accumulate_sum.
  destruct (fold_left statistics_order counted (0, 0, JsMap.empty))
    as [[tp ta] m].
  simpl in Hfold, Hcount. destruct Hfold as (F1 & F2).
  simpl. rewrite (slice_front 10).
  set (sorted := sort_by (fun a b => pm_orderCount b - pm_orderCount a)
                   (JsMap.values m)).
  assert (Hsorted : most_ordered_first sorted).
  { unfold most_ordered_first, sorted.
    apply StronglySorted_impl
      with (R1 := fun a b => pm_orderCount b - pm_orderCount a <= 0).
    - intros a b. lia.
    - apply sort_by_sorted; intros; lia. }
  refine (conj _ (conj eq_refl (conj _ (conj _ (conj _ (conj _ (conj _ _))))))).
  - intros o. unfold counted, statistics_orders.
    destruct (truthy_value userId_) as [u|]; [|tauto].
    rewrite filter_In, String.eqb_eq. tauto.
  - apply count_status_total.
  - exact F1.
  - exact F2.
  - apply firstn_le_length.
  - now apply StronglySorted_firstn.
  - intros Hlt.
    assert (Hall : firstn 10 sorted = sorted).
    { apply firstn_all2. rewrite length_firstn in Hlt. lia. }
    rewrite Hall. unfold sorted.
    rewrite (sum_of_perm _ _ _ (sort_by_perm _ (JsMap.values m))).
    exact Hcount.
Qed.

Lemma getOrderStatistics_adds_up_witness :
  sum_of pm_orderCount
    (st_popularMenuItems (getOrderStatistics None ex_state_two_teas))
  = Z.of_nat
      (List.length
         (breakdowns_of_orders (statistics_orders None ex_state_two_teas))).
Proof.
  refine (proj2 (proj2 (proj2 (proj2 (proj2 (proj2 (proj2
            (getOrderStatistics_adds_up ex_state_two_teas None))))))) _).
  vm_compute. lia.
Defined.

(** ** Round trips *)

Lemma findIndex_assign_index {A} (f : A -> bool) (i : nat) (x : A) (l : list A) :
  findIndex f l = Some i -> f x = true ->
  findIndex f (assign_index i x l) = Some i.
Proof.
  revert i. induction l as [|y r IH]; intros i; simpl; [discriminate|].
  destruct (f y) eqn:E.
  - intros [= <-] Hx. simpl. now rewrite Hx.
  - destruct (findIndex f r) as [j|]; simpl; [|discriminate].
    intros [= <-] Hx. simpl. rewrite E. now rewrite (IH j eq_refl Hx).
Qed.

Lemma nth_error_assign_index {A} (i : nat) (x y : A) (l : list A) :
  nth_error l i = Some y -> nth_error (assign_index i x l) i = Some x.
Proof.
  revert i. induction l as [|z r IH]; intros [|i]; simpl; try discriminate; auto.
Qed.

Lemma assign_index_twice {A} (i : nat) (x y : A) (l : list A) :
  assign_index i y (assign_index i x l) = assign_index i y l.
Proof.
  revert i. induction l as [|z r IH]; intros [|i]; simpl; auto.
  now rewrite IH.
Qed.

Lemma findIndex_snoc_fresh {A} (f : A -> bool) (l : list A) (x : A) :
  Forall (fun y => f y = false) l -> f x = true ->
  findIndex f (l ++ [x]) = Some (List.length l).
Proof.
  induction 1 as [|y r Hy Hr IH]; simpl; intros Hx.
  - now rewrite Hx.
  - rewrite Hy, (IH Hx). reflexivity.
Qed.

Lemma splice_one_last {A} (l : list A) (x : A) :
  splice_one (List.length l) (l ++ [x]) = l.
Proof. induction l as [|y r IH]; simpl; auto. now rewrite IH. Qed.

Lemma set_orders_twice (s : ServiceState) (m1 m2 : JsMap.t GroupOrder) :
  set_orders (set_orders s m1) m2 = set_orders s m2.
Proof. reflexivity. Qed.

(** X26. Adding an item and removing it again restores the order: on a
    consistent store, after [addOrderItem] has added an item under a new
    item id for a participant, [removeOrderItem] with that id succeeds and
    leaves the order with the participants it had before the two calls, the
    participant's items and [totalAmount] included; only the time stamps
    ([lastModifiedAt] of the participant, [updatedAt] of the order and of
    its recomputed summary) have moved; the other orders, the code index
    and the history are untouched. *)
Theorem add_then_remove_restores
    (menuService : MenuService) (orderId_ participantId_ : string)
    (request : AddOrderItemRequest) (now now' : Z) (newId : string)
    (s : ServiceState) (o : GroupOrder) (p : OrderParticipant)
    (item : OrderItem) :
  store_consistent s ->
  JsMap.get orderId_ (orders s) = Some o ->
  find (fun q => String.eqb (participantId q) participantId_) (participants o)
  = Some p ->
  Forall (fun existing => itemId existing <> newId) (items p) ->
  fst (addOrderItem menuService orderId_ participantId_ request now newId s)
  = Some item ->
  exists i,
    findIndex (fun q => String.eqb (participantId q) participantId_)
              (participants o) = Some i
    /\ removeOrderItem orderId_ participantId_ newId now'
         (snd (addOrderItem menuService orderId_ participantId_ request now
                 newId s))
       = (true,
          set_orders s
            (JsMap.set orderId_
               (restored o (assign_index i (touched p now') (participants o))
                         now')
               (orders s))).
Proof.
  intros Hc Hg Hp Hfresh Hadd.
  destruct (find_findIndex _ _ _ Hp) as (i & Hi & Hn).
  exists i. split; [exact Hi|].
  assert (Hcons : totalAmount p = sum_of totalPrice (items p)).
  { destruct (stored_order_consistent _ _ _ Hc Hg) as [_ Hps].
    exact (Forall_nth_error _ _ _ _ Hps Hn). }
  revert Hadd. unfold addOrderItem. rewrite Hg.
  destruct (negb (OrderStatus_eqb (status o) active)) eqn:Hst; simpl;
    [discriminate|].
  destruct (negb (allowModification (settings o))) eqn:Ha; simpl;
    [discriminate|].
  rewrite Hi.
  destruct (getMenuById menuService (menuId o)) as [menu|]; simpl;
    [|discriminate].
  destruct (find _ (menu_items menu)) as [mi|]; simpl; [|discriminate].
  destruct (negb (isAvailable mi)); simpl; [discriminate|].
  rewrite Hn. simpl. intros [= <-].
  rewrite store_then_summarize.
  unfold removeOrderItem. simpl. rewrite JsMapFacts.get_set_same. simpl.
  rewrite Hst, Ha.
  assert (Hpid : String.eqb (participantId p) participantId_ = true).
  { apply String.eqb_eq. eapply findIndex_participant; eauto. }
  rewrite (findIndex_assign_index _ i _ _ Hi) by exact Hpid.
  rewrite (nth_error_assign_index i _ p _ Hn). simpl.
  rewrite findIndex_snoc_fresh.
  - rewrite splice_one_last, assign_index_twice, store_then_summarize.
    rewrite set_orders_twice. simpl. rewrite JsMap_set_set.
    rewrite reduce_totalPrice_sum, <- Hcons. reflexivity.
  - eapply Forall_impl; [|exact Hfresh]. intros q Hq.
    now apply String.eqb_neq.
  - simpl. apply String.eqb_refl.
Qed.

Lemma add_then_remove_restores_witness :
  option_map participants
    (JsMap.get "order-1"
       (orders (snd (removeOrderItem "order-1" "p-alice" "item-1" 3000
                       ex_state_tea))))
  = Some [touched ex_alice 3000].
Proof.
  edestruct (add_then_remove_restores ex_menuService "order-1" "p-alice"
               (ex_add "X" 2) 2000 3000 "item-1" ex_state_alice)
    as (i & Hi & Hr).
  - unfold store_consistent. vm_compute. repeat constructor.
  - vm_compute. reflexivity.
  - vm_compute. reflexivity.
  - constructor.
  - vm_compute. reflexivity.
  - change ex_state_tea
      with (snd (addOrderItem ex_menuService "order-1" "p-alice" (ex_add "X" 2)
                   2000 "item-1" ex_state_alice)).
    rewrite Hr. vm_compute in Hi. injection Hi as <-.
    vm_compute. reflexivity.
Defined.

Lemma nth_error_snoc {A} (l : list A) (x : A) :
  nth_error (l ++ [x]) (List.length l) = Some x.
Proof. induction l as [|y r IH]; simpl; auto. Qed.

Lemma joinOrder_admitted ps r now pid mid s :
  canJoin (fst (joinOrder ps r now pid mid s)) = true ->
  exists o record,
    order (validateOrderCode (join_orderCode r) now s) = Some o
    /\ mod_type record = participant_joined
    /\ mod_participantId record = pid
    /\ mod_timestamp record = now
    /\ snd (joinOrder ps r now pid mid s)
       = {| orders :=
              JsMap.set (orderId o)
                (restored o (participants o ++ [joined_participant r now pid]) now)
                (orders s);
            orderCodeIndex := orderCodeIndex s;
            modifications :=
              JsMap.set (orderId o)
                (stored_modifications (orderId o) s ++ [record])
                (modifications s) |}.
Proof.
  unfold joinOrder.
  destruct (order (validateOrderCode (join_orderCode r) now s)) as [o|] eqn:Ho.
  - destruct (negb (isValid (validateOrderCode (join_orderCode r) now s)))
      eqn:Hv.
    + simpl. intros Hc. exfalso. revert Hv Hc. unfold validateOrderCode.
      repeat (break_guard; simpl; try discriminate).
    + unfold joinOrder_validated.
      destruct (participantService_check ps r now o) as [rej|] eqn:Hps.
      * simpl. intros Hc. exfalso. revert Hps Hc.
        unfold participantService_check.
        repeat (break_guard; simpl; try discriminate);
          intros [= <-]; discriminate.
      * destruct (find (already_joined r) (participants o)); simpl;
          [discriminate|].
        destruct (capacity_reached o); simpl; [discriminate|].
        intros _. eexists. eexists. split; [reflexivity|].
        rewrite store_then_summarize. unfold recordModification. simpl.
        repeat split; reflexivity.
  - intros Hc. exfalso. revert Ho Hc. unfold validateOrderCode.
    repeat (break_guard; simpl; try discriminate).
Qed.

(** X27. Joining and leaving again restores the order: after [joinOrder]
    has admitted a participant under a new participant id, [leaveOrder]
    with that id succeeds and leaves the order with the participants it had
    before, its summary recomputed and its time stamps moved; the code
    index is untouched and the history of the order has gained two records,
    one for the joining and one for the leaving. *)
Theorem join_then_leave_restores
    (participantService : option ParticipantService)
    (request : JoinOrderRequest) (now now' : Z)
    (newParticipantId newModificationId newModificationId' : string)
    (s : ServiceState) (o : GroupOrder) :
  order (validateOrderCode (join_orderCode request) now s) = Some o ->
  Forall (fun q => participantId q <> newParticipantId) (participants o) ->
  canJoin (fst (joinOrder participantService request now newParticipantId
                  newModificationId s)) = true ->
  let s1 :=
    snd (joinOrder participantService request now newParticipantId
           newModificationId s) in
  let left := leaveOrder (orderId o) newParticipantId now' newModificationId' s1 in
  fst left = true
  /\ orders (snd left)
     = JsMap.set (orderId o) (restored o (participants o) now') (orders s)
  /\ orderCodeIndex (snd left) = orderCodeIndex s
  /\ exists joined_ left_,
       stored_modifications (orderId o) (snd left)
       = stored_modifications (orderId o) s ++ [joined_; left_]
       /\ (mod_type joined_, mod_participantId joined_, mod_timestamp joined_)
          = (participant_joined, newParticipantId, now)
       /\ (mod_type left_, mod_participantId left_, mod_timestamp left_)
          = (participant_left, newParticipantId, now').
Proof.
  intros Ho Hfresh Hc. cbv zeta.
  destruct (joinOrder_admitted _ _ _ _ _ _ Hc)
    as (o' & record & Ho' & Ht & Hp & Hts & Hs).
  rewrite Ho in Ho'. injection Ho' as <-. rewrite Hs. clear Hs Hc.
  match goal with
  | |- context [leaveOrder _ _ _ _ ?st] => set (S := st)
  end.
  assert (HgS : JsMap.get (orderId o) (orders S)
                = Some (restored o (participants o
                                    ++ [joined_participant request now
                                          newParticipantId]) now)).
  { unfold S. cbn [orders]. apply JsMapFacts.get_set_same. }
  unfold leaveOrder. rewrite HgS.
  cbn [participants restored with_summary with_participants].
  rewrite findIndex_snoc_fresh.
  2: { eapply Forall_impl; [|exact Hfresh]. intros q Hq.
       now apply String.eqb_neq. }
  2: { simpl. apply String.eqb_refl. }
  rewrite nth_error_snoc, splice_one_last, store_then_summarize.
  unfold recordModification, S.
  cbn [fst snd orders orderCodeIndex modifications set_orders set_modifications
       in_orderId].
  rewrite JsMap_set_set.
  refine (conj eq_refl (conj eq_refl (conj eq_refl _))).
  unfold stored_modifications at 1.
  cbn [modifications set_modifications set_orders].
  rewrite !JsMapFacts.get_set_same.
  eexists. eexists. split.
  - rewrite <- app_assoc. reflexivity.
  - rewrite Ht, Hp, Hts. split; reflexivity.
Qed.

Lemma join_then_leave_restores_witness :
  orders
    (snd (leaveOrder (orderId ex_order_alice) "p-bob" 3000 "mod-3"
            (snd (joinOrder None ex_join_bob 2000 "p-bob" "mod-2"
                    ex_state_alice))))
  = JsMap.set (orderId ex_order_alice)
      (restored ex_order_alice (participants ex_order_alice) 3000)
      (orders ex_state_alice).
Proof.
  refine (proj1 (proj2 (join_then_leave_restores None ex_join_bob 2000 3000
                          "p-bob" "mod-2" "mod-3" ex_state_alice
                          ex_order_alice _ _ _))).
  - vm_compute. reflexivity.
  - vm_compute. repeat constructor; discriminate.
  - vm_compute. reflexivity.
Defined.

(** ** The identities of the participant service *)

Lemma find_set_new {V} (f : V -> bool) (k : string) (v : V) (m : JsMap.t V) :
  List.find f (JsMap.values m) = None -> f v = true ->
  List.find f (JsMap.values (JsMap.set k v m)) = Some v.
Proof.
  unfold JsMap.values. induction m as [|[k' v'] r IH]; simpl; intros Hn Hv.
  - now rewrite Hv.
  - destruct (f v') eqn:E; [discriminate|].
    destruct (String.eqb k k'); simpl.
    + now rewrite Hv.
    + rewrite E. auto.
Qed.

Lemma truthy_value_some (a : option string) (v : string) :
  truthy_value a = Some v -> a = Some v.
Proof.
  unfold truthy_value. destruct a as [x|]; [|discriminate].
  destruct (String.eqb x ""); [discriminate|]. auto.
Qed.

(** X28. A returning user or guest gets the same identity back: when
    [validateParticipantIdentity] accepts a request that carries a user id
    or a guest session id, validating the same request again returns the
    same result and leaves the table of identities as the first call left
    it, whatever id would be generated; the first call adds at most the one
    identity it returns. *)
Theorem validateParticipantIdentity_returning
    (isValidNickname getUserById getGuestSession : string -> bool)
    (request : JoinOrderRequest) (newId newId' : string)
    (identities : JsMap.t ParticipantIdentity) :
  let first :=
    ParticipantServiceImpl_validateParticipantIdentity isValidNickname
      getUserById getGuestSession request newId identities in
  pv_isValid (fst first) = true ->
  truthy_string (join_userId request) = true
  \/ truthy_string (join_guestSessionId request) = true ->
  ParticipantServiceImpl_validateParticipantIdentity isValidNickname
    getUserById getGuestSession request newId' (snd first)
  = first
  /\ (snd first = identities
      \/ exists identity_,
           pv_identity (fst first) = Some identity_
           /\ snd first = JsMap.set newId identity_ identities).
Proof.
  cbv zeta.
  unfold ParticipantServiceImpl_validateParticipantIdentity, validate_guest,
    createParticipantIdentity.
  destruct (isValidNickname (join_nickname request)) eqn:Hn; simpl;
    [|discriminate].
  destruct (truthy_value (join_userId request)) as [u|] eqn:Hu.
  - pose proof (truthy_value_some _ _ Hu) as Hu'.
    destruct (getUserById u) eqn:Hgu; simpl; [|discriminate].
    destruct (findParticipantByUserId u identities) as [e|] eqn:Hf; simpl.
    + intros _ _. rewrite Hf. auto.
    + destruct (truthy_value (join_guestSessionId request)) as [g|] eqn:Hg.
      * destruct (getGuestSession g) eqn:Hgg; simpl; [|discriminate].
        destruct (findParticipantByGuestSession g identities) as [e|] eqn:Hfg;
          simpl.
        -- intros _ _. rewrite Hf, Hfg. auto.
        -- intros _ _.
           cbn [fst snd]. unfold findParticipantByUserId, find in *.
           rewrite (find_set_new _ newId _ identities Hf).
           ++ split; [reflexivity|]. right. eexists. split; reflexivity.
           ++ simpl. rewrite Hu'. simpl. apply String.eqb_refl.
      * intros _ _.
        cbn [fst snd]. unfold findParticipantByUserId, find in *.
        rewrite (find_set_new _ newId _ identities Hf).
        -- split; [reflexivity|]. right. eexists. split; reflexivity.
        -- simpl. rewrite Hu'. simpl. apply String.eqb_refl.
  - destruct (truthy_value (join_guestSessionId request)) as [g|] eqn:Hg.
    + pose proof (truthy_value_some _ _ Hg) as Hg'.
      destruct (getGuestSession g) eqn:Hgg; simpl; [|discriminate].
      destruct (findParticipantByGuestSession g identities) as [e|] eqn:Hfg;
        simpl.
      * intros _ _. rewrite Hfg. auto.
      * intros _ _.
        cbn [fst snd]. unfold findParticipantByGuestSession, find in *.
        rewrite (find_set_new _ newId _ identities Hfg).
        -- split; [reflexivity|]. right. eexists. split; reflexivity.
        -- simpl. rewrite Hg'. simpl. apply String.eqb_refl.
    + intros _ [Ht|Ht]; exfalso.
      * unfold truthy_value, truthy_string in *.
        destruct (join_userId request) as [x|]; [|discriminate].
        destruct (String.eqb x ""); discriminate.
      * unfold truthy_value, truthy_string in *.
        destruct (join_guestSessionId request) as [x|]; [|discriminate].
        destruct (String.eqb x ""); discriminate.
Qed.

Lemma validateParticipantIdentity_returning_witness :
  ParticipantServiceImpl_validateParticipantIdentity ex_nickname_rule ex_known
    ex_known ex_join_bob "identity-3"
    (snd (ParticipantServiceImpl_validateParticipantIdentity ex_nickname_rule
            ex_known ex_known ex_join_bob "identity-2" ex_identities))
  = ParticipantServiceImpl_validateParticipantIdentity ex_nickname_rule ex_known
      ex_known ex_join_bob "identity-2" ex_identities.
Proof.
  refine (proj1 (validateParticipantIdentity_returning ex_nickname_rule ex_known
                   ex_known ex_join_bob "identity-2" "identity-3" ex_identities
                   _ _)).
  - vm_compute. reflexivity.
  - left. vm_compute. reflexivity.
Defined.

(** ** The report of an order *)

Lemma category_items_fold (its : list OrderItem) (m : JsMap.t Z) (a : Z) :
  m = [] \/ m = [("一般餐點", a)] ->
  fold_left category_item its m
  = match its, m with
    | [], _ => m
    | _ :: _, [] => [("一般餐點", sum_of totalPrice its)]
    | _ :: _, _ :: _ => [("一般餐點", a + sum_of totalPrice its)]
    end.
Proof.
  revert m a. induction its as [|it r IH]; intros m a Hm; [reflexivity|].
  change (fold_left category_item (it :: r) m)
    with (fold_left category_item r (category_item m it)).
  destruct Hm as [->| ->].
  - change (category_item [] it) with [("一般餐點", 0 + totalPrice it)].
    rewrite (IH _ (0 + totalPrice it)) by auto.
    destruct r; simpl; apply (f_equal (fun x => [("一般餐點", x)])); lia.
  - assert (Hstep : category_item [("一般餐點", a)] it
                    = [("一般餐點", a + totalPrice it)]).
    { unfold category_item. cbn [JsMap.get JsMap.set]. rewrite String.eqb_refl.
      destruct (a =? 0) eqn:E; auto. apply Z.eqb_eq in E. now subst. }
    rewrite Hstep, (IH _ (a + totalPrice it)) by auto.
    destruct r; simpl; apply (f_equal (fun x => [("一般餐點", x)])); lia.
Qed.

Lemma category_participants_fold (ps : list OrderParticipant) (m : JsMap.t Z)
    (a : Z) :
  m = [] \/ m = [("一般餐點", a)] ->
  fold_left (fun m p => fold_left category_item (items p) m) ps m
  = match all_items ps, m with
    | [], _ => m
    | _ :: _, [] => [("一般餐點", sum_of totalPrice (all_items ps))]
    | _ :: _, _ :: _ => [("一般餐點", a + sum_of totalPrice (all_items ps))]
    end.
Proof.
  revert m a. induction ps as [|p r IH]; intros m a Hm; [reflexivity|].
  cbn [fold_left]. unfold all_items in *. cbn [flat_map].
  rewrite (category_items_fold (items p) m a Hm).
  destruct (items p) as [|it its] eqn:Hits.
  - simpl. apply IH. exact Hm.
  - destruct Hm as [->| ->].
    + rewrite (IH _ (sum_of totalPrice (it :: its))) by auto.
      rewrite sum_of_app. cbn [app].
      destruct (flat_map items r); simpl;
        apply (f_equal (fun x => [("一般餐點", x)])); lia.
    + rewrite (IH _ (a + sum_of totalPrice (it :: its))) by auto.
      rewrite sum_of_app. cbn [app].
      destruct (flat_map items r); simpl;
        apply (f_equal (fun x => [("一般餐點", x)])); lia.
Qed.

(** X29. What the report of a stored order holds, on a consistent store:
    [participantDetails] lists every participant once, the biggest spender
    first (the array is sorted in place for the top five), each with the
    quantities and the prices of the participant's items, added up in
    their order; the top spenders are the first five of that list; the timeline
    is chronological and has one event for the creation, one for each
    participant and one more when the order is closed or expired; the total
    revenue is the amount of the cached summary; and the revenue is
    reported under one category, whose amount is the prices of all order
    items, added up participant after participant and item after item, or
    under none when nothing is ordered. *)
Theorem generateOrderReport_contents
    (k : string) (s : ServiceState) (o : GroupOrder) :
  store_consistent s ->
  JsMap.get k (orders s) = Some o ->
  exists r,
    generateOrderReport k s = Some r
    /\ Permutation (map rep_participant (report_participantDetails r))
         (participants o)
    /\ biggest_spender_first (report_participantDetails r)
    /\ Forall (fun d =>
                 rep_totalItems d
                 = accumulate quantity (items (rep_participant d))
                 /\ rep_totalAmount d
                    = accumulate totalPrice (items (rep_participant d)))
         (report_participantDetails r)
    /\ map top_participantId
         (fb_topSpendingParticipants (report_financialBreakdown r))
       = map (fun d => participantId (rep_participant d))
           (firstn 5 (report_participantDetails r))
    /\ chronological (report_timeline r)
    /\ List.length (report_timeline r)
       = (1 + List.length (participants o)
          + match closedAt o with Some _ => 1 | None => 0 end)%nat
    /\ fb_totalRevenue (report_financialBreakdown r)
       = summaryTotalAmount (summary o)
    /\ fb_revenueByCategory (report_financialBreakdown r)
       = match all_items (participants o) with
         | [] => []
         | _ :: _ =>
             [{| cr_category := "一般餐點";
                 cr_amount := accumulate totalPrice (all_items (participants o)) |}]
         end.
Proof.
  intros Hc Hg.
  destruct (stored_order_consistent _ _ _ Hc Hg) as [Hsum Hps].
  unfold generateOrderReport. rewrite Hg. eexists. split; [reflexivity|].
  cbn [report_participantDetails report_timeline report_financialBreakdown
       fb_topSpendingParticipants fb_revenueByCategory fb_totalRevenue].
  set (details := sort_by _ (map participant_report (participants o))).
  assert (Hperm : Permutation details (map participant_report (participants o)))
    by apply sort_by_perm.
  refine (conj _ (conj _ (conj _ (conj _ (conj _ (conj _ (conj eq_refl _))))))).
  - rewrite (Permutation_map rep_participant Hperm), map_map. simpl.
    now rewrite map_id.
  - unfold biggest_spender_first, details.
    apply StronglySorted_impl
      with (R1 := fun a b => totalAmount (rep_participant b)
                             - totalAmount (rep_participant a) <= 0).
    + intros a b. lia.
    + apply sort_by_sorted; intros; lia.
  - eapply Permutation_Forall; [symmetry; exact Hperm|].
    apply Forall_map. eapply Forall_impl; [|exact Hps].
    intros p Hp. unfold participant_report. simpl.
    rewrite !accumulate_sum, fold_left_sum. split; [lia|exact Hp].
  - rewrite (slice_front 5), !map_map. reflexivity.
  - unfold chronological.
    apply StronglySorted_impl
      with (R1 := fun a b => tl_timestamp a - tl_timestamp b <= 0).
    + intros a b. lia.
    + apply sort_by_sorted; intros; lia.
  - rewrite sort_by_length. unfold timeline_events.
    rewrite !length_app, length_map. simpl.
    destruct (closedAt o); simpl; lia.
  - unfold JsMap.entries, JsMap.empty. rewrite accumulate_sum.
    rewrite (category_participants_fold (participants o) [] 0) by auto.
    destruct (all_items (participants o)) as [|it its] eqn:Hits; reflexivity.
Qed.

Lemma generateOrderReport_contents_witness :
  exists r,
    generateOrderReport "order-1" ex_state_two_teas = Some r
    /\ chronological (report_timeline r)
    /\ fb_revenueByCategory (report_financialBreakdown r)
       = [{| cr_category := "一般餐點"; cr_amount := 150 |}].
Proof.
  edestruct (generateOrderReport_contents "order-1" ex_state_two_teas)
    as (r & H1 & _ & _ & _ & _ & H2 & _ & _ & H3).
  - unfold store_consistent. vm_compute. repeat constructor.
  - vm_compute. reflexivity.
  - exists r. split; [exact H1|]. split; [exact H2|]. exact H3.
Defined.

(** ** ParticipantServiceImpl: who is in an order *)

Lemma get_In_values {V} (k : string) (v : V) (m : JsMap.t V) :
  JsMap.get k m = Some v -> In v (JsMap.values m).
Proof.
  unfold JsMap.values. induction m as [|[k' v'] r IH]; simpl; [discriminate|].
  destruct (String.eqb k k'); [intros [= ->]; now left|]. auto.
Qed.

(** X30. The participant service agrees with itself on who is in an order.
    For an order stored under its id: an identity that
    [canParticipantJoinOrder] lets in is not in the order according to
    [isParticipantInOrder]; one that [canParticipantModifyOrder] lets
    modify is in it, and the order is active and open to modification; the
    order is in [getParticipantOrderHistory] exactly when the identity is
    in the order; the history is ordered by creation time, latest first,
    and holds stored orders only. A participant whom the order service lets
    modify items ([canParticipantModifyItems]) may modify the order
    according to the participant service too, if the participant's id is
    an identity of that service. *)
Theorem participant_service_membership
    (identities : JsMap.t ParticipantIdentity) (participantId_ k : string)
    (now : Z) (s : ServiceState) (o : GroupOrder) :
  well_keyed s ->
  JsMap.get k (orders s) = Some o ->
  (ParticipantServiceImpl_canParticipantJoinOrder identities now participantId_ o
   = true ->
   isParticipantInOrder identities participantId_ k s = false)
  /\ (canParticipantModifyOrder identities participantId_ o s = true ->
      isParticipantInOrder identities participantId_ k s = true
      /\ status o = active /\ allowModification (settings o) = true)
  /\ (isParticipantInOrder identities participantId_ k s = true
      <-> In o (getParticipantOrderHistory identities participantId_ s))
  /\ created_first (getParticipantOrderHistory identities participantId_ s)
  /\ Forall (fun o' => In o' (JsMap.values (orders s)))
       (getParticipantOrderHistory identities participantId_ s)
  /\ (canParticipantModifyItems k participantId_ s = true ->
      JsMap.has participantId_ identities = true ->
      canParticipantModifyOrder identities participantId_ o s = true).
Proof.
  intros Hw Hg. pose proof (well_keyed_get k o s Hw Hg) as Hid.
  refine (conj _ (conj _ (conj _ (conj _ (conj _ _))))).
  - unfold ParticipantServiceImpl_canParticipantJoinOrder, isParticipantInOrder.
    rewrite Hg. destruct (JsMap.get participantId_ identities) as [i|]; auto.
    destruct (negb (OrderStatus_eqb (status o) active)); [discriminate|].
    destruct (deadline_reached o now); [discriminate|].
    destruct (capacity_reached o); [discriminate|].
    intros H. apply negb_true_iff in H. exact H.
  - unfold canParticipantModifyOrder. rewrite Hid.
    destruct (status o); simpl; try discriminate.
    destruct (allowModification (settings o)); simpl; [auto|discriminate].
  - unfold isParticipantInOrder, getParticipantOrderHistory. rewrite Hg.
    destruct (JsMap.get participantId_ identities) as [i|];
      [|split; [discriminate|intros []]].
    split.
    + intros H. apply (Permutation_in _ (Permutation_sym (sort_by_perm _ _))).
      apply filter_In. split; auto. now apply (get_In_values k).
    + intros H. apply (Permutation_in _ (sort_by_perm _ _)) in H.
      now apply filter_In in H.
  - unfold getParticipantOrderHistory, created_first.
    destruct (JsMap.get participantId_ identities) as [i|]; [|constructor].
    apply StronglySorted_impl
      with (R1 := fun a b => createdAt b - createdAt a <= 0).
    + intros a b. lia.
    + apply sort_by_sorted; intros; lia.
  - unfold getParticipantOrderHistory.
    destruct (JsMap.get participantId_ identities) as [i|]; [|constructor].
    apply Forall_forall. intros o' H.
    apply (Permutation_in _ (sort_by_perm _ _)) in H.
    now apply filter_In in H.
  - unfold canParticipantModifyItems, canParticipantModifyOrder,
      isParticipantInOrder, JsMap.has.
    rewrite Hid, Hg.
    destruct (negb (OrderStatus_eqb (status o) active)
              || negb (allowModification (settings o))); [discriminate|].
    destruct (JsMap.get participantId_ identities) as [i|]; [|discriminate].
    intros H _. apply existsb_exists in H. destruct H as (p & Hin & Hp).
    apply existsb_exists. exists p. split; auto.
    unfold identity_matches. now rewrite Hp.
Qed.

Lemma participant_service_membership_witness :
  isParticipantInOrder ex_identities_alice "identity-a" "order-1" ex_state_alice
  = true
  <-> In ex_order_alice
        (getParticipantOrderHistory ex_identities_alice "identity-a"
           ex_state_alice).
Proof.
  refine (proj1 (proj2 (proj2 (participant_service_membership
                                 ex_identities_alice "identity-a" "order-1" 0
                                 ex_state_alice ex_order_alice _ _)))).
  - unfold well_keyed. vm_compute. repeat constructor.
  - vm_compute. reflexivity.
Defined.
